(** * The ECMAScript-specification scraper of mdn-checker

    A shallow embedding of the script that turns the rendered language
    specification into the catalog of global bindings ([data.json]):
    signature parsing, attribute mining, section reclassification,
    namespace/class assembly, abstract-class expansion and the propagation
    of the [global] flag.

    Strings are sequences of character codes ([list ascii]); the regular
    expressions of the script are transcribed one by one into a small
    backtracking matcher that follows the priorities of the JavaScript
    engine (leftmost start, alternatives left to right, greedy stars).
    Anything that makes the script die (a failed [assert], a property read
    on [undefined] or [null], a selector that the selector engine
    rejects) is the single outcome [Fatal]. *)

From Stdlib Require Import String Ascii List ZArith Lia Bool Arith.
Import ListNotations.


(** ** Strings *)

Definition jstr := list ascii.

Definition str (s : string) : jstr := list_ascii_of_string s.

Definition jstr_eq_dec : forall a b : jstr, {a = b} + {a <> b} :=
  list_eq_dec ascii_dec.

Definition jstr_eqb (a b : jstr) : bool :=
  if jstr_eq_dec a b then true else false.

Definition is_char (c : ascii) : ascii -> bool := Ascii.eqb c.

(** [String.prototype.startsWith], [endsWith], [includes], [indexOf]. *)
Fixpoint startsWith (p s : jstr) : bool :=
  match p, s with
  | [], _ => true
  | a :: p', b :: s' => Ascii.eqb a b && startsWith p' s'
  | _ :: _, [] => false
  end.

Definition endsWith (p s : jstr) : bool := startsWith (rev p) (rev s).

Fixpoint indexOf (p s : jstr) : option nat :=
  if startsWith p s then Some 0
  else match s with
       | [] => None
       | _ :: s' => option_map S (indexOf p s')
       end.

Definition includes (p s : jstr) : bool :=
  match indexOf p s with Some _ => true | None => false end.

(** [s.split(c)] for a one-character separator: the pieces between the
    occurrences of [c]; the empty string gives one empty piece. *)
Fixpoint split (c : ascii) (s : jstr) : list jstr :=
  match s with
  | [] => [[]]
  | a :: s' =>
      if Ascii.eqb a c then [] :: split c s'
      else match split c s' with
           | piece :: more => (a :: piece) :: more
           | [] => [[a]]
           end
  end.

(** [s.replaceAll(" ", "")]. *)
Definition removeSpaces (s : jstr) : jstr :=
  filter (fun a => negb (Ascii.eqb a " ")) s.

(** [Array.prototype.slice(start, end)] with the relative indices of
    JavaScript: a negative index counts from the end. *)
Definition rel_index (len i : Z) : Z :=
  if (i <? 0)%Z then Z.max (len + i) 0 else Z.min i len.

Definition slice {A} (l : list A) (start stop : Z) : list A :=
  let len := Z.of_nat (length l) in
  let k := rel_index len start in
  let final := rel_index len stop in
  firstn (Z.to_nat (final - k)) (skipn (Z.to_nat k) l).

(** [slice(start)] without an end. *)
Definition slice_from {A} (l : list A) (start : Z) : list A :=
  slice l start (Z.of_nat (length l)).

(** [Array.prototype.findIndex]: -1 when nothing satisfies the test. *)
Fixpoint findIndex {A} (f : A -> bool) (l : list A) : Z :=
  match l with
  | [] => (-1)%Z
  | a :: l' =>
      if f a then 0%Z
      else let i := findIndex f l' in
           if (i <? 0)%Z then (-1)%Z else (i + 1)%Z
  end.

(** ** Regular expressions

    The subset the script uses: character classes, sequence, alternation,
    a greedy star over a character class, [^], [$], a one-character
    negative lookbehind and capture groups. *)

Inductive re : Type :=
| Eps
| Chr (p : ascii -> bool)
| Seq (a b : re)
| Alt (a b : re)
| Star (p : ascii -> bool)
| Bol
| Eol
| NotBehind (p : ascii -> bool)
| Grp (i : nat) (a : re).

(** Where the matcher stands: the character just before, and what is left. *)
Record cursor := mkCursor { before : option ascii; ahead : jstr }.

(** Captures: group number, with what was left at its start and its end. *)
Definition captures := list (nat * (nat * nat)).

Fixpoint star {R} (p : ascii -> bool) (b : option ascii) (s : jstr)
    (k : cursor -> option R) : option R :=
  match s with
  | a :: t =>
      if p a then
        match star p (Some a) t k with
        | Some x => Some x
        | None => k (mkCursor b s)
        end
      else k (mkCursor b s)
  | [] => k (mkCursor b [])
  end.

Fixpoint run {R} (r : re) (c : cursor) (g : captures)
    (k : cursor -> captures -> option R) : option R :=
  match r with
  | Eps => k c g
  | Chr p =>
      match ahead c with
      | a :: t => if p a then k (mkCursor (Some a) t) g else None
      | [] => None
      end
  | Seq a b => run a c g (fun c' g' => run b c' g' k)
  | Alt a b =>
      match run a c g k with
      | Some x => Some x
      | None => run b c g k
      end
  | Star p => star p (before c) (ahead c) (fun c' => k c' g)
  | Bol => match before c with None => k c g | Some _ => None end
  | Eol => match ahead c with [] => k c g | _ :: _ => None end
  | NotBehind p =>
      match before c with
      | Some a => if p a then None else k c g
      | None => k c g
      end
  | Grp i a =>
      run a c g
        (fun c' g' => k c' ((i, (length (ahead c), length (ahead c'))) :: g'))
  end.

Definition match_at (r : re) (c : cursor) : option (cursor * captures) :=
  run r c [] (fun c' g => Some (c', g)).

(** The leftmost match: try every start position in turn. *)
Fixpoint search (r : re) (b : option ascii) (s : jstr)
    : option (cursor * captures) :=
  match match_at r (mkCursor b s) with
  | Some m => Some m
  | None =>
      match s with
      | a :: t => search r (Some a) t
      | [] => None
      end
  end.

(** [RegExp.prototype.test]. *)
Definition test (r : re) (s : jstr) : bool :=
  match search r None s with Some _ => true | None => false end.

(** The text of capture group [i] of a match on [s]. *)
Fixpoint lookup_group (i : nat) (g : captures) : option (nat * nat) :=
  match g with
  | [] => None
  | (j, se) :: g' => if Nat.eqb i j then Some se else lookup_group i g'
  end.

Definition group (s : jstr) (g : captures) (i : nat) : option jstr :=
  match lookup_group i g with
  | Some (st, en) => Some (firstn (st - en) (skipn (length s - st) s))
  | None => None
  end.

(** [s.replace(/r/g, f)]: every match, left to right, is replaced by [f]
    of the matched text; [skip] characters of a match are still to drop. *)
Fixpoint gsub (r : re) (f : jstr -> jstr) (skip : nat)
    (b : option ascii) (s : jstr) : jstr :=
  match s with
  | [] =>
      match skip, match_at r (mkCursor b []) with
      | 0, Some _ => f []
      | _, _ => []
      end
  | a :: t =>
      match skip with
      | S n => gsub r f n (Some a) t
      | 0 =>
          match match_at r (mkCursor b s) with
          | Some (c, _) =>
              let m := length s - length (ahead c) in
              match m with
              | 0 => f [] ++ a :: gsub r f 0 (Some a) t
              | S n => f (firstn m s) ++ gsub r f n (Some a) t
              end
          | None => a :: gsub r f 0 (Some a) t
          end
      end
  end.

Definition replace_all (r : re) (f : jstr -> jstr) (s : jstr) : jstr :=
  gsub r f 0 None s.

(** Building blocks for transcribing regular-expression literals. *)
Fixpoint Lit (s : jstr) : re :=
  match s with
  | [] => Eps
  | a :: s' => Seq (Chr (is_char a)) (Lit s')
  end.

Definition L (s : string) : re := Lit (str s).

Definition line_terminator (a : ascii) : bool :=
  Ascii.eqb a "010" || Ascii.eqb a "013".

(** [.] *)
Definition dot (a : ascii) : bool := negb (line_terminator a).

Definition in_range (lo hi : ascii) (a : ascii) : bool :=
  (nat_of_ascii lo <=? nat_of_ascii a) && (nat_of_ascii a <=? nat_of_ascii hi).

Definition upper : ascii -> bool := in_range "A" "Z".
Definition letter (a : ascii) : bool :=
  in_range "A" "Z" a || in_range "a" "z" a.

(** [\s], on the character codes below 256. *)
Definition space (a : ascii) : bool :=
  let n := nat_of_ascii a in
  (9 <=? n) && (n <=? 13) || Nat.eqb n 32 || Nat.eqb n 160.

Infix ";;" := Seq (at level 61, right associativity).

(** ** Outcomes

    The script runs to the end or dies on the first failed [assert] or
    property read on [undefined]; there is no recovery. *)

Inductive result (A : Type) : Type :=
| Ok (a : A)
| Fatal.

Arguments Ok {A} a.
Arguments Fatal {A}.

Definition bind {A B} (m : result A) (f : A -> result B) : result B :=
  match m with
  | Ok a => f a
  | Fatal => Fatal
  end.

Notation "x <- m ;;; k" := (bind m (fun x => k))
  (at level 62, m at next level, right associativity).
Notation "' p <- m ;;; k" := (bind m (fun x => let p := x in k))
  (at level 62, p pattern, m at next level, right associativity).

(** [assert(cond)]. *)
Definition assert (cond : bool) : result unit :=
  if cond then Ok tt else Fatal.

(** A value that must not be [undefined] where a property of it is read. *)
Definition defined {A} (o : option A) : result A :=
  match o with
  | Some a => Ok a
  | None => Fatal
  end.

(** [l.map(f)] for an [f] that may die: the first death ends the run. *)
Fixpoint mapM {A B} (f : A -> result B) (l : list A) : result (list B) :=
  match l with
  | [] => Ok []
  | a :: l' =>
      b <- f a ;;;
      bs <- mapM f l' ;;;
      Ok (b :: bs)
  end.

(** ** Signature Parser *)

Record Parameters := mkParameters {
  required : Z;
  optional : Z;
  rest : bool
}.

(** The pattern "(?<!,) " with flags g and u. *)
Definition stray_space_re : re := NotBehind (is_char ",") ;; Chr (is_char " ").

(** The signature pattern of [parseParameters]: group [name] (1), any run
    of characters of one line; an opening parenthesis; group [parameters]
    (2), any run again; a closing parenthesis. *)
Definition signature_re : re :=
  Grp 1 (Star dot) ;; Chr (is_char "(") ;;
  Grp 2 (Star dot) ;; Chr (is_char ")").

Definition stripSpaces (title : jstr) : jstr :=
  replace_all stray_space_re (fun _ => []) title.

(** The two named groups of the signature match, when there is one. Both
    groups take part in every match of [signature_re]. *)
Definition signatureGroups (t : jstr) : option (jstr * jstr) :=
  match search signature_re None t with
  | Some (_, g) =>
      match group t g 1, group t g 2 with
      | Some name, Some parameters => Some (name, parameters)
      | _, _ => None
      end
  | None => None
  end.

Definition countParameters (parameters : jstr) : Parameters :=
  let count := Z.of_nat (length (split "," parameters)) in
  let optional := (Z.of_nat (length (split "[" parameters)) - 1)%Z in
  let rest := includes (str "...") parameters in
  {| required := (count - optional - (if rest then 1 else 0))%Z;
     optional := optional;
     rest := rest |}.

Definition parseParameters (title : jstr) : result (jstr * Parameters) :=
  '(name, parameters) <- defined (signatureGroups (stripSpaces title)) ;;;
  Ok (name ++ str "()", countParameters parameters).


(** ** The table of contents and the document *)

#[warnings="-register-all"]
Inductive Section : Type := mkSection {
  title : jstr;
  id : option jstr;
  children : list Section
}.

(** What the script reads from the rendered specification: for an id,
    the texts of the [p] elements right under the elements that have
    this id, in document order ([paragraphs]); what the selector engine
    makes of a selector that [query] below does not read ([beyond]); the
    two reference lists of concrete names; and the table of contents
    [buildTOC] returns. *)
Record Document := mkDocument {
  paragraphs : jstr -> list jstr;
  beyond : jstr -> result (list jstr);
  typedArrayTypes : list jstr;
  errorTypes : list jstr;
  toc : list Section
}.

Definition title_is (t : string) (s : Section) : bool :=
  jstr_eqb (title s) (str t).

(** ** Bare sections *)

(** The accessor pattern of [getBareSection] and [makeProperty]: the title
    starts with "get " or with "set ". *)
Definition accessor_re : re := Alt (Bol ;; L "get ") (Bol ;; L "set ").
Definition getter_re : re := Bol ;; L "get ".
Definition setter_re : re := Bol ;; L "set ".

(** The leaf pattern of [getBareSection], three alternatives: at the start
    a capital, one or more letters, optional white space and an opening
    parenthesis; at the start a backquote; "Record" at the end. *)
Definition leaf_re : re :=
  Alt (Bol ;; Chr upper ;; Chr letter ;; Star letter ;; Star space ;;
       Chr (is_char "("))
      (Alt (Bol ;; Chr (is_char "`")) (L "Record" ;; Eol)).

Definition isAccessorPair (s : Section) : bool :=
  length (filter (fun t => test accessor_re (title t)) (children s)) =? 2.

Definition getBareSection (section : Section) : result Section :=
  _ <- assert (forallb (fun s => test leaf_re (title s)
                                 && (length (children s) =? 0))
                       (children section)
               || isAccessorPair section) ;;;
  Ok section.

(** ** Attribute Extractor *)

(** The escaping of a section id in [getAttributes]: a backslash before
    every dot and every at sign. *)
Definition backslash : ascii := ascii_of_nat 92.

Definition escapeId (i : jstr) : jstr :=
  replace_all (Chr (fun a => Ascii.eqb a "." || Ascii.eqb a "@"))
              (fun m => backslash :: m) i.

Definition truth : re := Alt (L "true") (L "false").

(** The attributes sentence; groups 1, 2 and 3 are [writable],
    [enumerable] and [configurable]. *)
Definition attributes_re : re :=
  L "has the attributes { [[Writable]]: *" ;; Grp 1 truth ;;
  L "*, [[Enumerable]]: *" ;; Grp 2 truth ;;
  L "*, [[Configurable]]: *" ;; Grp 3 truth ;; L "* }.".

Definition attributeGroups (t : jstr) : option (jstr * jstr * jstr) :=
  match search attributes_re None t with
  | Some (_, g) =>
      match group t g 1, group t g 2, group t g 3 with
      | Some w, Some e, Some c => Some (w, e, c)
      | _, _, _ => None
      end
  | None => None
  end.

Definition flag (letter : string) (value : jstr) : jstr :=
  if jstr_eqb value (str "true") then str letter else [].

(** *** The selector engine

    [$(selector)] on the selectors [getAttributes] builds: a number
    sign, the escaped id, and the child combinator with the tag [p].
    The engine reads a name as one optional character of any kind but a
    backslash, and then one or more name characters or escapes. What
    follows the name of the id is read as a tag name in the same way;
    when no name can be read where one must stand, the engine throws. *)

Definition digit : ascii -> bool := in_range "0" "9".

(** A name character: a letter, a digit, an underscore, a hyphen, or a
    character from U+00B0 on. *)
Definition nameChar (a : ascii) : bool :=
  letter a || digit a || is_char "_" a || is_char "-" a
  || (176 <=? nat_of_ascii a).

Definition isPercent (a : ascii) : bool := Ascii.eqb a "%".

(** The longest run of name characters and escapes at the head of [s],
    unescaped, with what follows it. The escapes read here are those
    [escapeId] writes, a backslash before a dot or an at sign; [None]
    when another escape stands in the run. *)
Fixpoint nameRun (s : jstr) : option (jstr * jstr) :=
  match s with
  | [] => Some ([], [])
  | a :: t =>
      if nameChar a then
        match nameRun t with
        | Some (n, r) => Some (a :: n, r)
        | None => None
        end
      else if Ascii.eqb a backslash then
        match t with
        | c :: t' =>
            if is_char "." c || is_char "@" c then
              match nameRun t' with
              | Some (n, r) => Some (c :: n, r)
              | None => None
              end
            else None
        | [] => None
        end
      else Some ([], s)
  end.

(** What the engine makes of a text where a name must stand. *)
Inductive reading :=
| Name (name rest : jstr)
| NoName
| NotRead.

(** A name at the head of [s]. A head that is no name character and no
    backslash is taken as the optional first character when a name
    character or an escape follows it, and makes no name otherwise. A
    number sign at the head is not read here. *)
Definition readName (s : jstr) : reading :=
  match s with
  | [] => NoName
  | c :: t =>
      if nameChar c || Ascii.eqb c backslash then
        match nameRun s with
        | Some ([], _) => NoName
        | Some (n, r) => Name n r
        | None => NotRead
        end
      else if is_char "#" c then NotRead
      else
        match nameRun t with
        | Some ([], _) => NoName
        | Some (n, r) => Name (c :: n) r
        | None => NotRead
        end
  end.

(** What follows the name of the id. *)
Inductive tail :=
| Tags (names : list jstr)
| Unmatched
| Unread.

(** The tag names that follow the name of the id, up to the child
    combinator and the tag [p] that end the selector. A percent sign
    that starts no name makes the engine throw "Unmatched selector". *)
Fixpoint readTags (fuel : nat) (s : jstr) : tail :=
  match fuel with
  | 0 => Unread
  | S fuel' =>
      if jstr_eqb s (str " > p") then Tags []
      else
        match s with
        | c :: _ =>
            if isPercent c then
              match readName s with
              | Name n r =>
                  match readTags fuel' r with
                  | Tags names => Tags (n :: names)
                  | other => other
                  end
              | NoName => Unmatched
              | NotRead => Unread
              end
            else Unread
        | [] => Unread
        end
  end.

(** [$(selector)], as the texts of the elements found. A selector with
    the name of an id alone finds the paragraphs right under the
    elements with this id. With tag names after the id it finds nothing:
    each of them starts with a percent sign, and no element is named so.
    The engine throws where it can read no name. *)
Definition query (doc : Document) (selector : jstr) : result (list jstr) :=
  match selector with
  | h :: s =>
      if is_char "#" h then
        match readName s with
        | Name n r =>
            match readTags (length r) r with
            | Tags [] => Ok (paragraphs doc n)
            | Tags (_ :: _) => Ok []
            | Unmatched => Fatal
            | Unread => beyond doc selector
            end
        | NoName => Fatal
        | NotRead => beyond doc selector
        end
      else beyond doc selector
  | [] => beyond doc selector
  end.

(** The paragraphs right under the element with id [i] that hold the
    marker phrase. *)
Definition attributeParagraphs (doc : Document) (i : jstr)
    : result (list jstr) :=
  found <- query doc (str "#" ++ escapeId i ++ str " > p") ;;;
  Ok (filter (includes (str "has the attributes")) found).

Definition getAttributes (doc : Document) (s : Section)
    : result (option jstr) :=
  i <- defined (id s) ;;;
  paras <- attributeParagraphs doc i ;;;
  match paras with
  | [] => Ok None
  | p :: _ =>
      _ <- assert (length paras =? 1) ;;;
      '(writable, enumerable, configurable) <- defined (attributeGroups p) ;;;
      Ok (Some (flag "w" writable ++ flag "e" enumerable
                ++ flag "c" configurable))
  end.

(** ** Descriptors *)

Inductive PropertyType := DataProperty | AccessorProperty.

Record JSProperty := mkProperty {
  prop_type : PropertyType;
  prop_name : jstr;
  prop_attributes : jstr
}.

(** [method_attributes] is [None] when the object has no [attributes] key. *)
Record JSMethod := mkMethod {
  method_name : jstr;
  method_parameters : Parameters;
  method_attributes : option jstr
}.

Record JSConstructor := mkConstructor {
  ctor_name : jstr;
  ctor_parameters : Parameters
}.

Record JSNamespace := mkNamespace {
  ns_name : jstr;
  ns_global : bool;
  ns_staticProperties : list JSProperty;
  ns_staticMethods : list JSMethod
}.

(** The arrays of instance properties are shared between the classes that
    [expandAbstractClass] makes from one template, so they live in a heap
    and a class holds the address of its array. All other arrays and
    objects are built anew wherever they appear and are held by value. *)
Definition address := nat.
Definition heap := list (list JSProperty).

Record JSClass := mkClass {
  class_name : jstr;
  class_global : bool;
  class_constructor : option JSConstructor;
  staticProperties : list JSProperty;
  staticMethods : list JSMethod;
  prototypeProperties : list JSProperty;
  instanceMethods : list JSMethod;
  instanceProperties : address
}.

Record JSGlobalProperty := mkGlobalProperty {
  gp_name : jstr;
  gp_attributes : option jstr
}.

Record JSFunction := mkFunction {
  fn_name : jstr;
  fn_parameters : Parameters;
  fn_global : bool
}.

Inductive JSGlobal :=
| Namespace (n : JSNamespace)
| Class (c : JSClass)
| GlobalProperty (p : JSGlobalProperty)
| Function (f : JSFunction).

Definition name (o : JSGlobal) : jstr :=
  match o with
  | Namespace n => ns_name n
  | Class c => class_name c
  | GlobalProperty p => gp_name p
  | Function f => fn_name f
  end.

(** The array at an address; [alloc] puts a new array at the next one. *)
Definition deref (h : heap) (a : address) : list JSProperty :=
  nth a h [].

Definition alloc (h : heap) (l : list JSProperty) : address * heap :=
  (length h, h ++ [l]).

(** ** Property/Method Classifier *)

Definition makeMethod (doc : Document) (s : Section) : result JSMethod :=
  attributes <- getAttributes doc s ;;;
  '(name, parameters) <- parseParameters (title s) ;;;
  Ok {| method_name := name;
        method_parameters := parameters;
        method_attributes :=
          match attributes with
          | Some ((_ :: _) as a) => Some a
          | _ => None
          end |}.

Definition makeConstructor (s : option Section)
    : result (option JSConstructor) :=
  match s with
  | None => Ok None
  | Some s =>
      '(name, parameters) <- parseParameters (title s) ;;;
      Ok (Some {| ctor_name := name; ctor_parameters := parameters |})
  end.

Definition makeProperty (doc : Document) (s : Section) : result JSProperty :=
  if isAccessorPair s then
    Ok {| prop_type := AccessorProperty;
          prop_name := removeSpaces (title s);
          prop_attributes := str "gsc" |}
  else if test accessor_re (title s) then
    Ok {| prop_type := AccessorProperty;
          prop_name := removeSpaces (slice_from (title s) 4);
          prop_attributes :=
            (if test getter_re (title s) then str "g" else [])
            ++ (if test setter_re (title s) then str "s" else [])
            ++ str "c" |}
  else
    attributes <- getAttributes doc s ;;;
    Ok {| prop_type := DataProperty;
          prop_name := removeSpaces (title s);
          prop_attributes :=
            match attributes with
            | Some a => a
            | None => str "wc"
            end |}.

(** ** Section Reclassifier *)

(** [l.flatMap(f)] for an [f] that may die. *)
Fixpoint flatMapM {A B} (f : A -> result (list B)) (l : list A)
    : result (list B) :=
  match l with
  | [] => Ok []
  | a :: l' =>
      bs <- f a ;;;
      more <- flatMapM f l' ;;;
      Ok (bs ++ more)
  end.

(** [l.toSpliced(i, 1, x)] for an index [i] inside [l]. *)
Definition toSpliced1 {A} (l : list A) (i : nat) (x : A) : list A :=
  firstn i l ++ x :: skipn (S i) l.

(** One step of the [flatMap] over the built-in object groups. In the
    Iteration branch a missing clause puts [undefined] in the list and the
    script dies on it in the next stage. *)
Definition reclassify (s : Section) : result (list Section) :=
  if title_is "Error Objects" s then
    let endOfError :=
      (findIndex (title_is "Properties of Error Instances") (children s)
       + 1)%Z in
    let subItems := slice (children s) endOfError (-1) in
    nativeErrorTypes <- defined (nth_error subItems 0) ;;;
    _ <- assert (title_is "Native Error Types Used in This Standard"
                          nativeErrorTypes) ;;;
    nativeErrorStructure <- defined (nth_error subItems 1) ;;;
    _ <- assert (title_is "_NativeError_ Object Structure"
                          nativeErrorStructure) ;;;
    let otherErrors := skipn 2 subItems in
    Ok (mkSection (title s) (id s) (slice (children s) 0 endOfError)
        :: nativeErrorStructure :: otherErrors)
  else if title_is "TypedArray Objects" s then
    let endOfTA :=
      (findIndex (title_is "Abstract Operations for TypedArray Objects")
                 (children s) + 1)%Z in
    Ok [ mkSection (title s) (id s) (slice (children s) 0 endOfTA);
         mkSection (str "_TypedArray_") (id s)
                   (slice_from (children s) endOfTA) ]
  else if title_is "Object Objects" s then
    let prototypeProps :=
      findIndex (title_is "Properties of the Object Prototype Object")
                (children s) in
    prototypePropsSection <-
      defined (if (prototypeProps <? 0)%Z then None
               else nth_error (children s) (Z.to_nat prototypeProps)) ;;;
    Ok [ mkSection (title s) None
           (toSpliced1 (children s) (Z.to_nat prototypeProps)
              (mkSection (title prototypePropsSection)
                 (id prototypePropsSection)
                 (flat_map
                    (fun t =>
                       if title_is "Legacy Object.prototype Accessor Methods" t
                       then children t else [t])
                    (children prototypePropsSection)))) ]
  else if title_is "Iteration" s then
    a <- defined (find (title_is "The %IteratorPrototype% Object")
                       (children s)) ;;;
    b <- defined (find (title_is "The %AsyncIteratorPrototype% Object")
                       (children s)) ;;;
    Ok [a; b]
  else if title_is "Module Namespace Objects" s then
    Ok []
  else Ok [s].

(** The groups the assembler works on: the clauses from "Fundamental
    Objects" to "Reflection", one level down, reclassified. *)
Definition builtinGroups (t : list Section) : result (list Section) :=
  flatMapM reclassify
    (flat_map children
       (slice t (findIndex (title_is "Fundamental Objects") t)
                (findIndex (title_is "Reflection") t + 1)%Z)).

(** ** Global Binding Assembler *)

Definition getSubsections (pattern : re) (subs : list Section)
    : result (list Section) :=
  match find (fun c => test pattern (title c)) subs with
  | Some c => mapM getBareSection (children c)
  | None => Ok []
  end.

Definition isCall (p : Section) : bool := endsWith (str ")") (title p).

(** The namespace name: a leading "The " and a trailing " Object" go. *)
Definition namespaceName (t : jstr) : jstr :=
  replace_all (Alt (Bol ;; L "The ") (L " Object" ;; Eol)) (fun _ => []) t.

(** The class name: every " Objects" and every parenthesised remark with
    the space before it go. *)
Definition className (t : jstr) : jstr :=
  replace_all (Alt (L " Objects") (L " (" ;; Star dot ;; L ")"))
              (fun _ => []) t.

Definition assembleNamespace (doc : Document) (ttl : jstr)
    (subs : list Section) : result JSGlobal :=
  valueSections <- getSubsections (L "Value Properties of") subs ;;;
  functionSections <- getSubsections (L "Function Properties of") subs ;;;
  _ <- assert (forallb (fun p => negb (isCall p)) valueSections) ;;;
  _ <- assert (forallb isCall functionSections) ;;;
  '(staticPropertySections, staticMethodSections) <-
    (if (length valueSections =? 0) && (length functionSections =? 0) then
       props <- mapM getBareSection subs ;;;
       Ok (filter (fun p => negb (isCall p)) props, filter isCall props)
     else Ok (valueSections, functionSections)) ;;;
  staticProperties <- mapM (makeProperty doc) staticPropertySections ;;;
  staticMethods <- mapM (makeMethod doc) staticMethodSections ;;;
  Ok (Namespace {| ns_name := namespaceName ttl;
                   ns_global := false;
                   ns_staticProperties := staticProperties;
                   ns_staticMethods := staticMethods |}).

(** [makeProperties(sections, false)] and [makeProperties(sections, true)]. *)
Definition makeProperties (doc : Document) (sections : list Section)
    : result (list JSProperty) :=
  mapM (makeProperty doc)
       (filter (fun p => Bool.eqb (isCall p) false) sections).

Definition makeMethods (doc : Document) (sections : list Section)
    : result (list JSMethod) :=
  mapM (makeMethod doc)
       (filter (fun p => Bool.eqb (isCall p) true) sections).

Definition assembleClass (doc : Document) (h : heap) (ttl : jstr)
    (subs : list Section) : result (JSGlobal * heap) :=
  staticPropSecs <-
    getSubsections (L "Properties of " ;; Star dot ;; L " Constructor")
                   subs ;;;
  instancePropSecs <-
    getSubsections (L "Properties of " ;; Star dot ;; L " Instances")
                   subs ;;;
  protoPropSecs <-
    getSubsections (L "Properties of " ;; Star dot ;; L " Prototype Object")
                   subs ;;;
  let ctorSection :=
    match find (fun c => test (L "The " ;; Star dot ;; L " Constructor")
                              (title c)) subs with
    | Some c => nth_error (children c) 0
    | None => None
    end in
  _ <- assert (match ctorSection with
               | Some c => isCall c
               | None => true
               end) ;;;
  _ <- assert (forallb (fun p => negb (isCall p)) instancePropSecs) ;;;
  staticProperties <- makeProperties doc staticPropSecs ;;;
  staticMethods <- makeMethods doc staticPropSecs ;;;
  prototypeProperties <- makeProperties doc protoPropSecs ;;;
  instanceMethods <- makeMethods doc protoPropSecs ;;;
  instanceProps <- mapM (makeProperty doc) instancePropSecs ;;;
  constructor <- makeConstructor ctorSection ;;;
  let '(a, h') := alloc h instanceProps in
  Ok (Class {| class_name := className ttl;
               class_global := false;
               class_constructor := constructor;
               staticProperties := staticProperties;
               staticMethods := staticMethods;
               prototypeProperties := prototypeProperties;
               instanceMethods := instanceMethods;
               instanceProperties := a |}, h').

(** One step of the [map] that turns a group into a descriptor. *)
Definition assemble (doc : Document) (h : heap) (s : Section)
    : result (JSGlobal * heap) :=
  if endsWith (str "Object") (title s) then
    o <- assembleNamespace doc (title s) (children s) ;;;
    Ok (o, h)
  else assembleClass doc h (title s) (children s).

Fixpoint assembleAll (doc : Document) (h : heap) (l : list Section)
    : result (list JSGlobal * heap) :=
  match l with
  | [] => Ok ([], h)
  | s :: l' =>
      '(o, h1) <- assemble doc h s ;;;
      '(os, h2) <- assembleAll doc h1 l' ;;;
      Ok (o :: os, h2)
  end.

(** ** Abstract Class Expander *)

Definition dollar : ascii := "$".

(** The replacement text of [String.prototype.replace] when the pattern
    is a string: "$$" is a dollar sign, "$&" the matched text, a dollar
    sign with a backquote the text before the match, with a quote the
    text after it; everything else stands for itself. *)
Fixpoint getSubstitution (matched pre post : jstr) (replacement : jstr)
    : jstr :=
  match replacement with
  | [] => []
  | a :: r =>
      if Ascii.eqb a dollar then
        match r with
        | [] => [a]
        | b :: r' =>
            if Ascii.eqb b dollar then
              dollar :: getSubstitution matched pre post r'
            else if Ascii.eqb b "&" then
              matched ++ getSubstitution matched pre post r'
            else if Ascii.eqb b "`" then
              pre ++ getSubstitution matched pre post r'
            else if Ascii.eqb b "'" then
              post ++ getSubstitution matched pre post r'
            else a :: getSubstitution matched pre post r
        end
      else a :: getSubstitution matched pre post r
  end.

(** [s.replace(pattern, replacement)] for a string pattern: the first
    occurrence only. *)
Definition replace (pattern replacement s : jstr) : jstr :=
  match indexOf pattern s with
  | None => s
  | Some i =>
      let pre := firstn i s in
      let post := skipn (i + length pattern) s in
      pre ++ getSubstitution pattern pre post replacement ++ post
  end.

Section Expand.
Variables abstractName concrete : jstr.

Definition expandName : jstr -> jstr := replace abstractName concrete.

(** [expandSection], at the three types it is used at. *)
Definition expandProperty (p : JSProperty) : JSProperty :=
  {| prop_type := prop_type p;
     prop_name := expandName (prop_name p);
     prop_attributes := prop_attributes p |}.

Definition expandMethod (m : JSMethod) : JSMethod :=
  {| method_name := expandName (method_name m);
     method_parameters := method_parameters m;
     method_attributes := method_attributes m |}.

Definition expandConstructor (c : option JSConstructor)
    : option JSConstructor :=
  match c with
  | None => None
  | Some c => Some {| ctor_name := expandName (ctor_name c);
                      ctor_parameters := ctor_parameters c |}
  end.

Definition expandAbstractClass (s : JSGlobal) : result JSGlobal :=
  match s with
  | Class c =>
      Ok (Class {| class_name := concrete;
                   class_global := class_global c;
                   class_constructor := expandConstructor (class_constructor c);
                   staticProperties := map expandProperty (staticProperties c);
                   staticMethods := map expandMethod (staticMethods c);
                   prototypeProperties :=
                     map expandProperty (prototypeProperties c);
                   instanceMethods := map expandMethod (instanceMethods c);
                   instanceProperties := instanceProperties c |})
  | _ => Fatal
  end.
End Expand.

(** One step of the [flatMap] that expands the two templates. *)
Definition expand (doc : Document) (s : JSGlobal) : result (list JSGlobal) :=
  match s with
  | Class c =>
      if jstr_eqb (class_name c) (str "_TypedArray_") then
        mapM (fun t => expandAbstractClass (str "_TypedArray_") t s)
             (typedArrayTypes doc)
      else if jstr_eqb (class_name c)
                       (str "_NativeError_ Object Structure") then
        mapM (fun t => expandAbstractClass (str "_NativeError_") t s)
             (errorTypes doc)
      else Ok [s]
  | _ => Ok [s]
  end.

(** The catalog before the global object is looked at. *)
Definition buildObjects (doc : Document) : result (list JSGlobal * heap) :=
  groups <- builtinGroups (toc doc) ;;;
  '(descriptors, h) <- assembleAll doc [] groups ;;;
  objects <- flatMapM (expand doc) descriptors ;;;
  Ok (objects, h).

(** ** Global Flag Propagator *)

Definition globalShape (globals : list Section) : bool :=
  match globals with
  | [g0; g1; g2; g3] =>
      title_is "Value Properties of the Global Object" g0
      && title_is "Function Properties of the Global Object" g1
      && title_is "Constructor Properties of the Global Object" g2
      && title_is "Other Properties of the Global Object" g3
  | _ => false
  end.

Definition globalProperty (doc : Document) (s : Section) : result JSGlobal :=
  section <- getBareSection s ;;;
  attributes <- getAttributes doc section ;;;
  Ok (GlobalProperty {| gp_name := title section;
                        gp_attributes := attributes |}).

Definition globalFunctions (s : Section) : result (list JSGlobal) :=
  mapM (fun t =>
          bare <- getBareSection t ;;;
          '(name, parameters) <- parseParameters (title bare) ;;;
          Ok (Function {| fn_name := name;
                          fn_parameters := parameters;
                          fn_global := true |}))
       (if title_is "URI Handling Functions" s
        then filter (fun t => negb (test (Bol ;; Chr upper) (title t)))
                    (children s)
        else [s]).

Definition setGlobal (o : JSGlobal) : JSGlobal :=
  match o with
  | Namespace n =>
      Namespace {| ns_name := ns_name n;
                   ns_global := true;
                   ns_staticProperties := ns_staticProperties n;
                   ns_staticMethods := ns_staticMethods n |}
  | Class c =>
      Class {| class_name := class_name c;
               class_global := true;
               class_constructor := class_constructor c;
               staticProperties := staticProperties c;
               staticMethods := staticMethods c;
               prototypeProperties := prototypeProperties c;
               instanceMethods := instanceMethods c;
               instanceProperties := instanceProperties c |}
  | _ => o
  end.

Definition isClass (o : JSGlobal) : bool :=
  match o with Class _ => true | _ => false end.

Definition isNamespace (o : JSGlobal) : bool :=
  match o with Namespace _ => true | _ => false end.

(** [objects.find((o) => o.name === title)], the assertion on the type of
    what was found, and [obj.global = true] on that very object. *)
Fixpoint markGlobal (expected : JSGlobal -> bool) (t : jstr)
    (objects : list JSGlobal) : result (list JSGlobal) :=
  match objects with
  | [] => Fatal
  | o :: more =>
      if jstr_eqb (name o) t then
        _ <- assert (expected o) ;;;
        Ok (setGlobal o :: more)
      else
        more' <- markGlobal expected t more ;;;
        Ok (o :: more')
  end.

(** [l.forEach(f)] for an [f] that updates the catalog and may die. *)
Fixpoint forEachM {A S} (f : A -> S -> result S) (l : list A) (s : S)
    : result S :=
  match l with
  | [] => Ok s
  | a :: l' =>
      s' <- f a s ;;;
      forEachM f l' s'
  end.

Definition constructorTitle (s : Section) : result jstr :=
  bare <- getBareSection s ;;;
  Ok (replace (str " ( . . . )") [] (title bare)).

Definition otherTitle (s : Section) : result jstr :=
  bare <- getBareSection s ;;;
  Ok (title bare).

(** The bodies of the two loops over the constructor properties and the
    other properties of the global object. *)
Definition flagConstructor (s : Section) (objs : list JSGlobal)
    : result (list JSGlobal) :=
  t <- constructorTitle s ;;;
  markGlobal isClass t objs.

Definition flagOther (s : Section) (objs : list JSGlobal)
    : result (list JSGlobal) :=
  t <- otherTitle s ;;;
  markGlobal isNamespace t objs.

Definition propagate (doc : Document) (objects : list JSGlobal)
    : result (list JSGlobal) :=
  theGlobalObject <- defined (find (title_is "The Global Object") (toc doc)) ;;;
  let globals := children theGlobalObject in
  _ <- assert (globalShape globals) ;;;
  g0 <- defined (nth_error globals 0) ;;;
  g1 <- defined (nth_error globals 1) ;;;
  g2 <- defined (nth_error globals 2) ;;;
  g3 <- defined (nth_error globals 3) ;;;
  properties <- mapM (globalProperty doc) (children g0) ;;;
  functions <- flatMapM globalFunctions (children g1) ;;;
  let pushed := objects ++ properties ++ functions in
  flagged <- forEachM flagConstructor (children g2) pushed ;;;
  forEachM flagOther (children g3) flagged.

(** The whole script: the catalog written to [data.json], with the heap
    its classes point into. *)
Definition catalog (doc : Document) : result (list JSGlobal * heap) :=
  '(objects, h) <- buildObjects doc ;;;
  final <- propagate doc objects ;;;
  Ok (final, h).

(** ** Reference formulations used in the proofs *)

(** A space stays when a comma stands right before it; every other
    character stays. *)
Definition kept (b : option ascii) (a : ascii) : bool :=
  negb (is_char " " a)
  || match b with Some c => is_char "," c | None => false end.

(** What [stripSpaces] leaves of a string that follows the character [b]. *)
Fixpoint strip_from (b : option ascii) (s : jstr) : jstr :=
  match s with
  | [] => []
  | a :: t =>
      if kept b a then a :: strip_from (Some a) t
      else strip_from (Some a) t
  end.

(** The character the matcher has behind it after reading [x]. *)
Definition behind (b : option ascii) (x : jstr) : option ascii :=
  last (map Some x) b.

Definition no_newline (s : jstr) : Prop := Forall (fun a => dot a = true) s.

Definition occurrences (c : ascii) (s : jstr) : nat :=
  count_occ ascii_dec s c.

(** The attributes sentence of the specification for given flags. *)
Definition truthText (b : bool) : jstr := if b then str "true" else str "false".

Definition sentence (w e c : bool) : jstr :=
  str "has the attributes { [[Writable]]: *" ++ truthText w
  ++ str "*, [[Enumerable]]: *" ++ truthText e
  ++ str "*, [[Configurable]]: *" ++ truthText c ++ str "* }.".

(** [sub] can be had from [l] by dropping elements: the order is kept. *)
Fixpoint subsequence (sub l : jstr) : bool :=
  match sub, l with
  | [], _ => true
  | _ :: _, [] => false
  | a :: sub', b :: l' =>
      if Ascii.eqb a b then subsequence sub' l' else subsequence sub l'
  end.

(** ** Fixtures *)

(** A document in which every element with an id has the paragraphs
    [paras] right under it. *)
Definition page (paras : list jstr) : Document :=
  {| paragraphs := fun _ => paras;
     beyond := fun _ => Ok paras;
     typedArrayTypes := [];
     errorTypes := [];
     toc := [] |}.


Definition leaf (t i : string) : Section := mkSection (str t) (Some (str i)) [].

Definition clause (t : string) (subs : list Section) : Section :=
  mkSection (str t) (Some (str t)) subs.

(** [kept] is what is left of the children [all] of "Error Objects" in
    the truncated group: the children up to and including the first one
    titled "Properties of Error Instances", none when no child has that
    title. *)
Definition truncatedAt (kept all : list Section) : Prop :=
  (kept = [] /\ forall x, In x all ->
                  title_is "Properties of Error Instances" x = false)
  \/ exists pre pei,
       kept = pre ++ [pei]
       /\ title_is "Properties of Error Instances" pei = true
       /\ forall x, In x pre ->
            title_is "Properties of Error Instances" x = false.

(** Every clause that follows the structure clause among the children of
    [s] is in what [reclassify] makes of [s]. *)
Definition keepsAllFollowing (s : Section) : Prop :=
  forall out before structure following,
    reclassify s = Ok out ->
    children s = before ++ structure :: following ->
    title_is "_NativeError_ Object Structure" structure = true ->
    forall x, In x following -> In x out.

Definition errorObjects : Section :=
  clause "Error Objects"
    [ clause "The Error Constructor" [];
      clause "Properties of Error Instances" [];
      clause "Native Error Types Used in This Standard" [];
      clause "_NativeError_ Object Structure" [];
      clause "AggregateError Objects" [];
      clause "Abstract Operations for Error Objects" [] ].

(** The split of the children [subs] of a namespace into methods and
    properties by the test "the title ends in ()". *)
Definition splitByEmptyParentheses (doc : Document) (subs : list Section)
    (n : JSNamespace) : Prop :=
  mapM (makeMethod doc)
       (filter (fun p => endsWith (str "()") (title p)) subs)
  = Ok (ns_staticMethods n)
  /\ mapM (makeProperty doc)
          (filter (fun p => negb (endsWith (str "()") (title p))) subs)
     = Ok (ns_staticProperties n).

Definition mathChildren : list Section :=
  [ leaf "Math.PI" "sec-math.pi"; leaf "Math.abs ( x )" "sec-math.abs" ].

(** A sibling [sib] made from the template [c] for the placeholder
    [abstractName]: the class name is the concrete name; the constructor
    and the members of the four expanded lists are those of the template
    with the name rewritten; the array of instance properties is the one
    of the template, at the same address. *)
Definition expandedFrom (abstractName : jstr) (c sib : JSClass) : Prop :=
  let concrete := class_name sib in
  class_global sib = class_global c
  /\ class_constructor sib
     = expandConstructor abstractName concrete (class_constructor c)
  /\ staticProperties sib
     = map (expandProperty abstractName concrete) (staticProperties c)
  /\ staticMethods sib
     = map (expandMethod abstractName concrete) (staticMethods c)
  /\ prototypeProperties sib
     = map (expandProperty abstractName concrete) (prototypeProperties c)
  /\ instanceMethods sib
     = map (expandMethod abstractName concrete) (instanceMethods c)
  /\ instanceProperties sib = instanceProperties c.

Definition no_dollar (s : jstr) : Prop :=
  Forall (fun a => Ascii.eqb a dollar = false) s.

Definition nativeErrorTemplate : JSClass :=
  {| class_name := str "_NativeError_ Object Structure";
     class_global := false;
     class_constructor :=
       Some {| ctor_name := str "_NativeError_()";
               ctor_parameters := mkParameters 1 1 false |};
     staticProperties :=
       [ mkProperty DataProperty (str "_NativeError_.prototype") [] ];
     staticMethods := [];
     prototypeProperties :=
       [ mkProperty DataProperty (str "_NativeError_.prototype.message")
                    (str "wc") ];
     instanceMethods := [];
     instanceProperties := 0 |}.

Definition errorNames (names : list jstr) : Document :=
  {| paragraphs := fun _ => [];
     beyond := fun _ => Ok [];
     typedArrayTypes := [];
     errorTypes := names;
     toc := [] |}.

(** A descriptor that the propagator appends. *)
Definition standalone (o : JSGlobal) : bool :=
  match o with
  | GlobalProperty _ | Function _ => true
  | _ => false
  end.

(** [o'] is [o] in every field but, maybe, the global flag. *)
Definition sameButGlobal (o o' : JSGlobal) : Prop :=
  match o, o' with
  | Namespace n, Namespace n' =>
      ns_name n' = ns_name n
      /\ ns_staticProperties n' = ns_staticProperties n
      /\ ns_staticMethods n' = ns_staticMethods n
  | Class c, Class c' =>
      class_name c' = class_name c
      /\ class_constructor c' = class_constructor c
      /\ staticProperties c' = staticProperties c
      /\ staticMethods c' = staticMethods c
      /\ prototypeProperties c' = prototypeProperties c
      /\ instanceMethods c' = instanceMethods c
      /\ instanceProperties c' = instanceProperties c
  | GlobalProperty p, GlobalProperty p' => p' = p
  | Function f, Function f' => f' = f
  | _, _ => False
  end.

Definition globalFlag (o : JSGlobal) : option bool :=
  match o with
  | Namespace n => Some (ns_global n)
  | Class c => Some (class_global c)
  | GlobalProperty _ => None
  | Function f => Some (fn_global f)
  end.

(** What the propagator may do to a descriptor [o] of the catalog, given
    the titles [ctors] and [others] it looks up: nothing, or set the
    global flag of a class named by [ctors] or of a namespace named by
    [others]. *)
Definition touched (ctors others : list jstr) (o o' : JSGlobal) : Prop :=
  o' = o
  \/ (sameButGlobal o o' /\ globalFlag o' = Some true
      /\ ((isClass o = true /\ In (name o) ctors)
          \/ (isNamespace o = true /\ In (name o) others))).

(** The names the propagator looks up: the titles of the children of the
    third and of the fourth child of the global object clause. *)
Definition constructorNames (doc : Document) : result (list jstr) :=
  g <- defined (find (title_is "The Global Object") (toc doc)) ;;;
  g2 <- defined (nth_error (children g) 2) ;;;
  mapM constructorTitle (children g2).

Definition otherNames (doc : Document) : result (list jstr) :=
  g <- defined (find (title_is "The Global Object") (toc doc)) ;;;
  g3 <- defined (nth_error (children g) 3) ;;;
  mapM otherTitle (children g3).

(** The four children of the global object clause, as the script wants
    them. *)
Definition fourGlobalSections (globals : list Section) : Prop :=
  exists g0 g1 g2 g3,
    globals = [g0; g1; g2; g3]
    /\ title g0 = str "Value Properties of the Global Object"
    /\ title g1 = str "Function Properties of the Global Object"
    /\ title g2 = str "Constructor Properties of the Global Object"
    /\ title g3 = str "Other Properties of the Global Object".

(** What marking the descriptors of the kind [expected] under the names
    [titles] may do to a descriptor. *)
Definition marked (expected : JSGlobal -> bool) (titles : list jstr)
    (o o' : JSGlobal) : Prop :=
  o' = o
  \/ (sameButGlobal o o' /\ globalFlag o' = Some true
      /\ expected o = true /\ In (name o) titles).

Definition globalObject (ctors others : list Section) : Document :=
  {| paragraphs := fun _ => [];
     beyond := fun _ => Ok [];
     typedArrayTypes := [];
     errorTypes := [];
     toc :=
       [ clause "The Global Object"
           [ clause "Value Properties of the Global Object"
               [leaf "NaN" "sec-value-properties-of-the-global-object-nan"];
             clause "Function Properties of the Global Object"
               [leaf "eval ( x )" "sec-eval-x"];
             clause "Constructor Properties of the Global Object" ctors;
             clause "Other Properties of the Global Object" others ] ] |}.

Definition fooClass : JSClass :=
  {| class_name := str "Foo";
     class_global := false;
     class_constructor := None;
     staticProperties := [];
     staticMethods := [];
     prototypeProperties := [];
     instanceMethods := [];
     instanceProperties := 0 |}.

Definition mathNamespace : JSNamespace :=
  {| ns_name := str "Math";
     ns_global := false;
     ns_staticProperties := [];
     ns_staticMethods := [] |}.

Definition threeSections : Document :=
  {| paragraphs := fun _ => [];
     beyond := fun _ => Ok [];
     typedArrayTypes := [];
     errorTypes := [];
     toc :=
       [ clause "The Global Object"
           [ clause "Value Properties of the Global Object" [];
             clause "Function Properties of the Global Object" [];
             clause "Constructor Properties of the Global Object" [] ] ] |}.

(** ** Names of properties, from the document *)

(** The name [makeProperty] gives the property of a section. *)
Definition propertyName (s : Section) : jstr :=
  if isAccessorPair s then removeSpaces (title s)
  else if test accessor_re (title s)
       then removeSpaces (slice_from (title s) 4)
       else removeSpaces (title s).

(** The children of the first subsection whose title matches. *)
Definition subsection (pattern : re) (subs : list Section) : list Section :=
  match find (fun c => test pattern (title c)) subs with
  | Some c => children c
  | None => []
  end.

Definition instanceNames (g : Section) : list jstr :=
  map propertyName
      (subsection (L "Properties of " ;; Star dot ;; L " Instances")
                  (children g)).

Definition staticNames (g : Section) : list jstr :=
  map propertyName
      (filter (fun p => negb (isCall p))
              (subsection (L "Properties of " ;; Star dot ;; L " Constructor")
                          (children g))).

Definition prototypeNames (g : Section) : list jstr :=
  map propertyName
      (filter (fun p => negb (isCall p))
              (subsection
                 (L "Properties of " ;; Star dot ;; L " Prototype Object")
                 (children g))).

(** How the names of the members of the class of a group are rewritten
    in the catalog: once per concrete name for the two templates, not at
    all for any other class. *)
Definition renamings (doc : Document) (g : Section) : list (jstr -> jstr) :=
  if jstr_eqb (className (title g)) (str "_TypedArray_") then
    map (expandName (str "_TypedArray_")) (typedArrayTypes doc)
  else if jstr_eqb (className (title g))
                   (str "_NativeError_ Object Structure") then
    map (expandName (str "_NativeError_")) (errorTypes doc)
  else [fun n => n].

Definition disjointNames (l1 l2 : list jstr) : Prop :=
  forall x, In x l1 -> ~ In x l2.

(** The document keeps the names of the instance properties of the group
    [g] apart from the names of its static and prototype properties. *)
Definition sourceNamesApart (doc : Document) (g : Section) : Prop :=
  forall rename, In rename (renamings doc g) ->
    disjointNames (instanceNames g) (map rename (prototypeNames g))
    /\ disjointNames (instanceNames g) (map rename (staticNames g)).

(** The claim on a class of the catalog. *)
Definition instanceNamesApart (h : heap) (c : JSClass) : Prop :=
  disjointNames (map prop_name (deref h (instanceProperties c)))
                (map prop_name (prototypeProperties c))
  /\ disjointNames (map prop_name (deref h (instanceProperties c)))
                   (map prop_name (staticProperties c)).

(** A document with one class, Foo, with one static property and the
    instance property "length". *)
Definition fooDocument (static : string) : Document :=
  {| paragraphs := fun _ => [];
     beyond := fun _ => Ok [];
     typedArrayTypes := [];
     errorTypes := [];
     toc :=
       [ clause "Fundamental Objects"
           [ clause "Foo Objects"
               [ clause "Properties of the Foo Constructor"
                   [leaf static "sec-foo-static"];
                 clause "Properties of Foo Instances"
                   [leaf "length" "sec-foo-instances-length"] ] ];
         clause "Reflection" [];
         clause "The Global Object"
           [ clause "Value Properties of the Global Object" [];
             clause "Function Properties of the Global Object" [];
             clause "Constructor Properties of the Global Object"
               [leaf "Foo ( . . . )" "sec-constructor-properties-foo"];
             clause "Other Properties of the Global Object" [] ] ] |}.

Definition lengthTwice : Document := fooDocument "length".

(** ** Further reference formulations *)

(** A text has a call shape: an opening parenthesis and, later on the
    same line, a closing one. *)
Definition hasCall (t : jstr) : Prop :=
  exists x y z, t = x ++ "("%char :: y ++ ")"%char :: z /\ no_newline y.

(** Every character of [s], which follows [b], is one that [stripSpaces]
    keeps: a space stands right after a comma. *)
Fixpoint tidy (b : option ascii) (s : jstr) : bool :=
  match s with
  | [] => true
  | a :: t => kept b a && tidy (Some a) t
  end.

(** ** TOC Builder *)

Fixpoint dropWhile {A} (p : A -> bool) (l : list A) : list A :=
  match l with
  | [] => []
  | a :: t => if p a then dropWhile p t else l
  end.

Fixpoint takeWhile {A} (p : A -> bool) (l : list A) : list A :=
  match l with
  | [] => []
  | a :: t => if p a then a :: takeWhile p t else []
  end.

(** [String.prototype.trim]: the white space and the line terminators go
    from both ends. *)
Definition trimStart (s : jstr) : jstr := dropWhile space s.
Definition trimEnd (s : jstr) : jstr := rev (dropWhile space (rev s)).
Definition trim (s : jstr) : jstr := trimEnd (trimStart s).

(** The pattern of [buildTOC]: one or more characters of white space. *)
Definition blank_re : re := Chr space ;; Star space.

(** The title of a clause, from the text of its heading. *)
Definition normalizeTitle (text : jstr) : jstr :=
  trim (replace_all blank_re (fun _ => str " ") text).

(** The document tree: text, and elements with a tag name, maybe an id
    attribute, and children. *)
#[warnings="-register-all"]
Inductive Node : Type :=
| TextNode (s : jstr)
| Element (tag : jstr) (idAttr : option jstr) (kids : list Node).

(** [$(el).text()]: the text of an element and of all it contains. *)
Fixpoint text (n : Node) : jstr :=
  match n with
  | TextNode s => s
  | Element _ _ kids => flat_map text kids
  end.

Definition hasTag (t : string) (n : Node) : bool :=
  match n with
  | Element tag _ _ => jstr_eqb tag (str t)
  | TextNode _ => false
  end.

Definition kidsOf (n : Node) : list Node :=
  match n with
  | Element _ _ kids => kids
  | TextNode _ => []
  end.

Definition idOf (n : Node) : option jstr :=
  match n with
  | Element _ i _ => i
  | TextNode _ => None
  end.

(** The text of the first heading among the children, empty without one. *)
Definition headingText (n : Node) : jstr :=
  match find (hasTag "h1") (kidsOf n) with
  | Some h => text h
  | None => []
  end.

(** [buildTOC]: one section for each clause right under [root], with the
    sections of the clauses right under it as its children. *)
Fixpoint buildTOC (root : Node) : list Section :=
  match root with
  | TextNode _ => []
  | Element _ _ kids =>
      flat_map
        (fun el =>
           if hasTag "emu-clause" el
           then [ mkSection (normalizeTitle (headingText el)) (idOf el)
                            (buildTOC el) ]
           else [])
        kids
  end.

(** What is left of a text when every run of white space is one space;
    [inRun] says that the character before was white space. *)
Fixpoint squeeze (inRun : bool) (s : jstr) : jstr :=
  match s with
  | [] => []
  | a :: t =>
      if space a then
        if inRun then squeeze true t else " "%char :: squeeze true t
      else a :: squeeze false t
  end.

(** The only white space of [s] is single spaces; [afterSpace] says that
    a space stands right before [s]. *)
Fixpoint clean (afterSpace : bool) (s : jstr) : bool :=
  match s with
  | [] => true
  | a :: t =>
      if space a then Ascii.eqb a " " && negb afterSpace && clean true t
      else clean false t
  end.

(** A property of a section and of all the sections under it. *)
Fixpoint everywhere (P : Section -> Prop) (s : Section) : Prop :=
  P s
  /\ (fix all (l : list Section) : Prop :=
        match l with
        | [] => True
        | c :: l' => everywhere P c /\ all l'
        end) (children s).

(** ** Further fixtures *)

Definition typedArrayObjects : Section :=
  clause "TypedArray Objects"
    [ clause "The %TypedArray% Intrinsic Object" [];
      clause "Abstract Operations for TypedArray Objects" [];
      clause "The _TypedArray_ Constructors" [];
      clause "Properties of the _TypedArray_ Constructors" [] ].

(** The children of "Properties of the Object Prototype Object", with the
    legacy accessor methods one level up. *)
Definition liftLegacy (subs : list Section) : list Section :=
  flat_map
    (fun t =>
       if title_is "Legacy Object.prototype Accessor Methods" t
       then children t else [t])
    subs.

Definition objectObjects : Section :=
  clause "Object Objects"
    [ clause "The Object Constructor" [];
      clause "Properties of the Object Prototype Object"
        [ leaf "Object.prototype.constructor" "sec-object.prototype.constructor";
          clause "Legacy Object.prototype Accessor Methods"
            [ leaf "Object.prototype.__defineGetter__ ( P, getter )"
                   "sec-object.prototype.__defineGetter__" ] ];
      clause "Properties of Object Instances" [] ].

Definition iteration : Section :=
  clause "Iteration"
    [ clause "Common Iteration Interfaces" [];
      clause "The %AsyncIteratorPrototype% Object" [];
      clause "The %IteratorPrototype% Object" [] ].

(** The titles [reclassify] rewrites. *)
Definition special (s : Section) : bool :=
  title_is "Error Objects" s || title_is "TypedArray Objects" s
  || title_is "Object Objects" s || title_is "Iteration" s
  || title_is "Module Namespace Objects" s.

Definition smallToc : list Section :=
  [ clause "Introduction" [];
    clause "Fundamental Objects" [clause "Boolean Objects" []];
    clause "Text Processing" [clause "String Objects" []];
    clause "Reflection" [clause "The Reflect Object" []];
    clause "The Global Object" [] ].

(** ** Shapes of titles *)

(** The shape of the title of an abstract operation: a capital, one or
    more letters, maybe white space, an opening parenthesis. *)
Definition operationTitle (t : jstr) : Prop :=
  exists c l w more,
    t = c :: l ++ w ++ "("%char :: more
    /\ upper c = true
    /\ l <> []
    /\ Forall (fun a => letter a = true) l
    /\ Forall (fun a => space a = true) w.

Definition leafTitle (t : jstr) : Prop :=
  operationTitle t
  \/ startsWith (str "`") t = true
  \/ endsWith (str "Record") t = true.

Definition accessorTitle (t : jstr) : bool :=
  startsWith (str "get ") t || startsWith (str "set ") t.

Definition accessorChildren (s : Section) : list Section :=
  filter (fun c => accessorTitle (title c)) (children s).

(** The three alternatives of [leaf_re]. *)
Definition operation_re : re :=
  Bol ;; Chr upper ;; Chr letter ;; Star letter ;; Star space ;;
  Chr (is_char "(").
Definition backquote_re : re := Bol ;; Chr (is_char "`").
Definition record_re : re := L "Record" ;; Eol.

(** A text holds the attributes sentence, for some flags. *)
Definition hasSentence (p : jstr) : Prop :=
  exists pre w e c post, p = pre ++ sentence w e c ++ post.

(** ** Names *)

(** [s] without the prefix [p], when it starts with it. *)
Definition dropPrefix (p s : jstr) : jstr :=
  if startsWith p s then skipn (length p) s else s.

(** [s] without the suffix [p], when it ends with it. *)
Definition dropSuffix (p s : jstr) : jstr :=
  if endsWith p s then firstn (length s - length p) s else s.

(** A dot and an at sign get a backslash before them. *)
Definition escapeChar (a : ascii) : jstr :=
  if Ascii.eqb a "." || Ascii.eqb a "@" then [backslash; a] else [a].

(** ** Expansion *)

(** The concrete names a descriptor is expanded for, when it is one of
    the two templates. *)
Definition templateNames (doc : Document) (s : JSGlobal)
    : option (list jstr) :=
  match s with
  | Class c =>
      if jstr_eqb (class_name c) (str "_TypedArray_") then
        Some (typedArrayTypes doc)
      else if jstr_eqb (class_name c)
                       (str "_NativeError_ Object Structure") then
        Some (errorTypes doc)
      else None
  | _ => None
  end.

(** ** Global descriptors *)

(** The test [/^[A-Z]/] on a title, read off its first character. *)
Definition startsCapital (t : jstr) : bool :=
  match t with
  | a :: _ => upper a
  | [] => false
  end.

(** The sections [globalFunctions] makes functions of: the section
    itself, or for the group of the URI functions its children whose
    title does not start with a capital. *)
Definition functionSections (s : Section) : list Section :=
  if title_is "URI Handling Functions" s
  then filter (fun t => negb (startsCapital (title t))) (children s)
  else [s].

(** The function descriptor [o] is the one of the section [t]. *)
Definition functionOf (t : Section) (o : JSGlobal) : Prop :=
  exists f,
    o = Function f
    /\ fn_global f = true
    /\ parseParameters (title t) = Ok (fn_name f, fn_parameters f).

(** ** Stores *)

Definition emptyStore : heap := [].

(** The store with one array, which is empty. *)
Definition oneEmptyArray : heap := [[]].

(** ** The lists of concrete names *)

(** [$(el).text().replaceAll("%", "")]: the name a [dfn] element gives
    to the list of the typed arrays or of the native errors. *)
Definition dfnName (text : jstr) : jstr :=
  replace_all (L "%") (fun _ => []) text.

(** ** Ids and selectors *)

(** The selector [getAttributes] builds for the id [i]. *)
Definition selectorOf (i : jstr) : jstr :=
  str "#" ++ escapeId i ++ str " > p".

(** A character that the engine reads as part of a name once
    [escapeId] has escaped it: a name character, a dot or an at sign. *)
Definition plainChar (a : ascii) : bool :=
  nameChar a || Ascii.eqb a "." || Ascii.eqb a "@".

(** An id made of such characters, at least one. *)
Definition plainId (i : jstr) : Prop :=
  i <> [] /\ Forall (fun a => plainChar a = true) i.

(** An id made of such characters and percent signs. *)
Definition percentId (i : jstr) : Prop :=
  Forall (fun a => plainChar a || isPercent a = true) i.

(** The longest head of [i] made of plain characters, and the rest. *)
Fixpoint takePlain (i : jstr) : jstr * jstr :=
  match i with
  | [] => ([], [])
  | a :: t =>
      if plainChar a then
        let '(x, r) := takePlain t in (a :: x, r)
      else ([], i)
  end.

(** A percent sign that ends the id or stands right before another
    percent sign. *)
Fixpoint danglingPercent (i : jstr) : bool :=
  match i with
  | [] => false
  | a :: t =>
      (isPercent a
       && match t with
          | [] => true
          | b :: _ => isPercent b
          end)
      || danglingPercent t
  end.

(** A percent sign after the first character. *)
Definition percentInside (i : jstr) : bool :=
  match i with
  | [] => false
  | _ :: t => existsb isPercent t
  end.

(** What [getAttributes] gets for the id [i] from the document: nothing
    but an error for the empty id and for an id with a dangling percent
    sign, no paragraph at all for any other id with a percent sign
    after its first character, and the paragraphs right under the
    elements with the id otherwise. *)
Definition lookup (doc : Document) (i : jstr) : result (list jstr) :=
  if (length i =? 0) || danglingPercent i then Fatal
  else if percentInside i then Ok []
  else Ok (paragraphs doc i).

(** The paragraph [p] holds the marker phrase. *)
Definition holdsMarker (p : jstr) : Prop :=
  exists pre post, p = pre ++ str "has the attributes" ++ post.

(** Two paragraphs of [paras], at different places, hold the marker
    phrase. *)
Definition twoMarkers (paras : list jstr) : Prop :=
  exists a p b q c,
    paras = a ++ p :: b ++ q :: c /\ holdsMarker p /\ holdsMarker q.

(** No paragraph of [paras] holds the marker phrase. *)
Definition noMarker (paras : list jstr) : Prop :=
  Forall (fun p => ~ holdsMarker p) paras.

(** [p] is the one paragraph of [paras] that holds the marker phrase. *)
Definition oneMarker (paras : list jstr) (p : jstr) : Prop :=
  exists a b,
    paras = a ++ p :: b /\ holdsMarker p /\ noMarker a /\ noMarker b.

(** ** A document with a template *)

(** The typed arrays, with two concrete names; Int8Array is among the
    constructor properties of the global object. *)
Definition typedArrayDocument : Document :=
  {| paragraphs := fun _ => [];
     beyond := fun _ => Ok [];
     typedArrayTypes := [str "Int8Array"; str "Uint8Array"];
     errorTypes := [];
     toc :=
       [ clause "Fundamental Objects" [];
         clause "Indexed Collections"
           [ clause "TypedArray Objects"
               [ clause "Abstract Operations for TypedArray Objects" [];
                 clause "The _TypedArray_ Constructors"
                   [ leaf "_TypedArray_ ( ...args )" "sec-typedarray" ];
                 clause "Properties of _TypedArray_ Instances"
                   [ leaf "length" "sec-typedarray-length" ] ] ];
         clause "Reflection" [];
         clause "The Global Object"
           [ clause "Value Properties of the Global Object" [];
             clause "Function Properties of the Global Object" [];
             clause "Constructor Properties of the Global Object"
               [ leaf "Int8Array ( . . . )"
                      "sec-constructor-properties-int8array" ];
             clause "Other Properties of the Global Object" [] ] ] |}.

(** The class the expander makes of the template for [n]. *)
Definition typedArray (n : string) (global : bool) : JSClass :=
  {| class_name := str n;
     class_global := global;
     class_constructor :=
       Some {| ctor_name := str n ++ str "()";
               ctor_parameters := mkParameters 0 0 true |};
     staticProperties := [];
     staticMethods := [];
     prototypeProperties := [];
     instanceMethods := [];
     instanceProperties := 1 |}.

(** The catalog of [typedArrayDocument], with its store of arrays. *)
Definition typedArrayCatalog : list JSGlobal :=
  [ Class {| class_name := str "TypedArray";
             class_global := false;
             class_constructor := None;
             staticProperties := [];
             staticMethods := [];
             prototypeProperties := [];
             instanceMethods := [];
             instanceProperties := 0 |};
    Class (typedArray "Int8Array" true);
    Class (typedArray "Uint8Array" false) ].

Definition typedArrayStore : heap :=
  [ []; [mkProperty DataProperty (str "length") (str "wc")] ].

(** * Properties *)

(** ** Strings *)

Lemma jstr_eqb_eq a b : jstr_eqb a b = true <-> a = b.
Proof.
  unfold jstr_eqb. destruct (jstr_eq_dec a b); split; auto; discriminate.
Qed.

Lemma jstr_eqb_refl a : jstr_eqb a a = true.
Proof. apply jstr_eqb_eq. reflexivity. Qed.

(** ** The matcher *)

Lemma behind_cons b a x : behind b (a :: x) = behind (Some a) x.
Proof.
  unfold behind. revert b a. induction x as [|c x IH]; intros b a.
  - reflexivity.
  - change (map Some (a :: c :: x)) with (Some a :: map Some (c :: x)).
    change (last (Some a :: map Some (c :: x)) b)
      with (last (map Some (c :: x)) b).
    rewrite (IH b c). symmetry. apply (IH (Some a) c).
Qed.

(** A greedy star that may read all of [x] gives what it gives after [x],
    when that is a match. *)
Lemma star_skip {R} p x : forall b y (k : cursor -> option R) r,
  Forall (fun a => p a = true) x ->
  star p (behind b x) y k = Some r ->
  star p b (x ++ y) k = Some r.
Proof.
  induction x as [|a x IH]; intros b y k r Hx Hy.
  - exact Hy.
  - inversion Hx as [|? ? Ha Hx']; subst.
    rewrite behind_cons in Hy.
    cbn [app star]. rewrite Ha, (IH _ _ _ _ Hx' Hy). reflexivity.
Qed.

(** A star over a string in which the continuation can start nowhere. *)
Lemma star_fails {R} p (stop : ascii -> bool) s :
  forall b (k : cursor -> option R),
  Forall (fun a => stop a = false) s ->
  (forall c, match ahead c with
             | a :: _ => stop a = false
             | [] => True
             end -> k c = None) ->
  star p b s k = None.
Proof.
  induction s as [|a s IH]; intros b k Hs Hk.
  - cbn. apply Hk. exact I.
  - inversion Hs as [|? ? Ha Hs']; subst.
    cbn [star]. rewrite (IH _ _ Hs' Hk).
    assert (k (mkCursor b (a :: s)) = None) as -> by (apply Hk; exact Ha).
    destruct (p a); reflexivity.
Qed.

Lemma gsub_cons r f b a t :
  gsub r f 0 b (a :: t) =
  match match_at r (mkCursor b (a :: t)) with
  | Some (c, _) =>
      match length (a :: t) - length (ahead c) with
      | 0 => f [] ++ a :: gsub r f 0 (Some a) t
      | S n => f (firstn (length (a :: t) - length (ahead c)) (a :: t))
               ++ gsub r f n (Some a) t
      end
  | None => a :: gsub r f 0 (Some a) t
  end.
Proof. reflexivity. Qed.

(** ** Stripping the stray spaces *)

Lemma match_at_stray b a t :
  match_at stray_space_re (mkCursor b (a :: t)) =
  if kept b a then None else Some (mkCursor (Some a) t, []).
Proof.
  unfold match_at, stray_space_re, kept, is_char. cbn [run ahead before].
  destruct b as [c|]; [destruct (Ascii.eqb "," c)|];
    destruct (Ascii.eqb " " a); reflexivity.
Qed.

Lemma match_at_stray_nil b :
  match_at stray_space_re (mkCursor b []) = None.
Proof.
  unfold match_at, stray_space_re, is_char. cbn [run ahead before].
  destruct b as [c|]; [destruct (Ascii.eqb "," c)|]; reflexivity.
Qed.

Lemma gsub_strip s : forall b,
  gsub stray_space_re (fun _ => []) 0 b s = strip_from b s.
Proof.
  induction s as [|a t IH]; intros b.
  - cbn [gsub]. rewrite match_at_stray_nil. reflexivity.
  - rewrite gsub_cons, match_at_stray. cbn [strip_from].
    destruct (kept b a).
    + rewrite IH. reflexivity.
    + cbn [ahead]. replace (length (a :: t) - length t) with 1
        by (cbn [length]; lia).
      cbn [app]. apply IH.
Qed.

Lemma stripSpaces_strip_from s : stripSpaces s = strip_from None s.
Proof. apply gsub_strip. Qed.

Lemma strip_from_app x : forall b y,
  strip_from b (x ++ y) = strip_from b x ++ strip_from (behind b x) y.
Proof.
  induction x as [|a x IH]; intros b y.
  - reflexivity.
  - rewrite <- app_comm_cons, behind_cons. cbn [strip_from].
    rewrite IH. destruct (kept b a); reflexivity.
Qed.

Lemma strip_from_Forall (P : ascii -> Prop) s : forall b,
  Forall P s -> Forall P (strip_from b s).
Proof.
  induction s as [|a t IH]; intros b H.
  - constructor.
  - inversion H; subst. cbn [strip_from].
    destruct (kept b a); [constructor; [assumption|]|]; apply IH; assumption.
Qed.

Lemma strip_from_spaces k : forall b,
  b <> Some ","%char -> strip_from b (repeat " "%char k) = [].
Proof.
  induction k as [|k IH]; intros b Hb.
  - reflexivity.
  - cbn [repeat strip_from].
    assert (kept b " " = false) as ->.
    { unfold kept. destruct b as [c|]; [|reflexivity].
      destruct (is_char "," c) eqn:E; [|reflexivity].
      apply Ascii.eqb_eq in E. subst c. contradiction. }
    apply IH. discriminate.
Qed.

(** ** The signature pattern *)
Lemma search_hit r b s m :
  match_at r (mkCursor b s) = Some m -> search r b s = Some m.
Proof. intros H. destruct s; cbn [search]; rewrite H; reflexivity. Qed.

Lemma firstn_length_app {A} (x y : list A) : firstn (length x) (x ++ y) = x.
Proof. induction x; cbn; [destruct y|f_equal]; auto. Qed.

Lemma skipn_length_app {A} (x y : list A) : skipn (length x) (x ++ y) = y.
Proof. induction x; cbn; auto. Qed.

Lemma signature_match nm params :
  no_newline nm -> no_newline params ->
  Forall (fun a => is_char "(" a = false) params ->
  match_at signature_re
           (mkCursor None (nm ++ "("%char :: params ++ [")"%char]))
  = Some (mkCursor (Some ")"%char) [],
          [ (2, (S (length params), 1));
            (1, (length nm + S (S (length params)),
                 S (S (length params)))) ]).
Proof.
  intros Hn Hp Ho. unfold match_at, signature_re. cbn [run before ahead].
  apply star_skip; [exact Hn|].
  cbn [star]. change (dot "(") with true. cbv iota.
  rewrite (star_fails dot (is_char "(")).
  - cbn [ahead]. change (is_char "(" "(") with true. cbv iota.
    apply star_skip; [exact Hp|].
    cbn [star ahead]. change (dot ")") with true. 
    change (is_char ")" ")") with true. cbv iota.
    repeat (rewrite !length_app; cbn [length]).
    replace (length params + 1) with (S (length params)) by lia.
    reflexivity.
  - apply Forall_app. split; [exact Ho|]. repeat constructor.
  - intros c Hc. destruct (ahead c) as [|a t]; [reflexivity|].
    rewrite Hc. reflexivity.
Qed.

Lemma signatureGroups_shape nm params :
  no_newline nm -> no_newline params ->
  Forall (fun a => is_char "(" a = false) params ->
  signatureGroups (nm ++ "("%char :: params ++ [")"%char]) = Some (nm, params).
Proof.
  intros Hn Hp Ho. unfold signatureGroups.
  rewrite (search_hit _ _ _ _ (signature_match _ _ Hn Hp Ho)).
  unfold group. cbn [lookup_group Nat.eqb].
  repeat (rewrite !length_app; cbn [length]).
  replace (length nm + S (S (length params)) - S (S (length params)))
    with (length nm) by lia.
  replace (length nm + S (length params + 1)
           - (length nm + S (S (length params)))) with 0 by lia.
  replace (length nm + S (length params + 1) - S (length params))
    with (length (nm ++ ["("%char])) by (rewrite length_app; cbn; lia).
  replace (S (length params) - 1) with (length params) by lia.
  cbn [skipn]. rewrite firstn_length_app.
  replace (nm ++ "("%char :: params ++ [")"%char])
    with ((nm ++ ["("%char]) ++ params ++ [")"%char])
    by (rewrite <- app_assoc; reflexivity).
  rewrite skipn_length_app, firstn_length_app. reflexivity.
Qed.

(** A title made of a name, an opening parenthesis, a parameter list
    without opening parenthesis and a closing parenthesis, all on one
    line. *)
Lemma parseParameters_shape nm params :
  no_newline nm -> no_newline params ->
  Forall (fun a => is_char "(" a = false) params ->
  parseParameters (nm ++ "("%char :: params ++ [")"%char]) =
  Ok (stripSpaces nm ++ str "()",
      countParameters (strip_from (Some "("%char) params)).
Proof.
  intros Hn Hp Ho. unfold parseParameters.
  rewrite !stripSpaces_strip_from, strip_from_app.
  cbn [strip_from]. change (kept (behind None nm) "(") with true. cbv iota.
  rewrite strip_from_app. cbn [strip_from].
  change (kept (behind (Some "("%char) params) ")") with true. cbv iota.
  rewrite signatureGroups_shape.
  - reflexivity.
  - apply strip_from_Forall, Hn.
  - apply strip_from_Forall, Hp.
  - apply strip_from_Forall, Ho.
Qed.

Lemma split_length c s : length (split c s) = S (occurrences c s).
Proof.
  unfold occurrences. induction s as [|a s IH].
  - reflexivity.
  - cbn [split count_occ].
    destruct (Ascii.eqb a c) eqn:E.
    + apply Ascii.eqb_eq in E. subst a.
      destruct (ascii_dec c c); [|contradiction]. cbn. rewrite IH. reflexivity.
    + apply Ascii.eqb_neq in E.
      destruct (ascii_dec a c); [contradiction|].
      destruct (split c s); cbn in *; [discriminate|exact IH].
Qed.

Lemma strip_from_no_space s : forall b,
  Forall (fun a => a <> " "%char) s -> strip_from b s = s.
Proof.
  induction s as [|a t IH]; intros b H.
  - reflexivity.
  - inversion H as [|? ? Ha Ht]; subst. cbn [strip_from].
    assert (kept b a = true) as ->.
    { unfold kept, is_char. destruct (Ascii.eqb " " a) eqn:E; [|reflexivity].
      apply Ascii.eqb_eq in E. subst a. contradiction. }
    rewrite IH; auto.
Qed.

Lemma parseParameters_groups ttl name params :
  signatureGroups (stripSpaces ttl) = Some (name, params) ->
  parseParameters ttl = Ok (name ++ str "()", countParameters params).
Proof. intros H. unfold parseParameters. rewrite H. reflexivity. Qed.

(** C1. A title [nm(a, b, [c])] parses to required 2, optional 1 and no
    rest; a title [nm(...args)] to required 0, optional 0 and rest. For
    any title on which the signature pattern matches, with groups [name]
    and [params]: the optional count is the number of opening brackets of
    [params], rest says whether [params] has an ellipsis, the required
    count is the number of comma-separated pieces of [params] minus the
    optional count minus one for a rest, and the returned name is [name]
    followed by a pair of parentheses. The name [nm] is any text on one
    line; the stray spaces in it go, so a name without spaces stays. *)
Theorem parseParameters_signature_counts (nm ttl name params : jstr) :
  no_newline nm ->
  signatureGroups (stripSpaces ttl) = Some (name, params) ->
  parseParameters (nm ++ str "(a, b, [c])")
    = Ok (stripSpaces nm ++ str "()", mkParameters 2 1 false)
  /\ parseParameters (nm ++ str "(...args)")
    = Ok (stripSpaces nm ++ str "()", mkParameters 0 0 true)
  /\ (Forall (fun a => a <> " "%char) nm -> stripSpaces nm = nm)
  /\ exists p,
       parseParameters ttl = Ok (name ++ str "()", p)
       /\ optional p = Z.of_nat (occurrences "[" params)
       /\ rest p = includes (str "...") params
       /\ required p = (Z.of_nat (length (split "," params)) - optional p
                        - (if rest p then 1 else 0))%Z.
Proof.
  intros Hn Hg. repeat split.
  - apply (parseParameters_shape nm (str "a, b, [c]")); auto;
      repeat constructor.
  - apply (parseParameters_shape nm (str "...args")); auto;
      repeat constructor.
  - intros Hs. rewrite stripSpaces_strip_from. apply strip_from_no_space, Hs.
  - exists (countParameters params). split.
    + apply parseParameters_groups, Hg.
    + unfold countParameters. cbn [optional rest required].
      rewrite (split_length "[" params). repeat split. lia.
Qed.

Lemma parseParameters_signature_counts_witness :
  parseParameters (str "Name" ++ str "(a, b, [c])")
    = Ok (stripSpaces (str "Name") ++ str "()", mkParameters 2 1 false)
  /\ parseParameters (str "Name" ++ str "(...args)")
    = Ok (stripSpaces (str "Name") ++ str "()", mkParameters 0 0 true)
  /\ (Forall (fun a => a <> " "%char) (str "Name")
      -> stripSpaces (str "Name") = str "Name")
  /\ exists p,
       parseParameters (str "splice ( start, [ count ], ...items )")
         = Ok (str "splice" ++ str "()", p)
       /\ optional p
          = Z.of_nat (occurrences "[" (str "start, [count], ...items"))
       /\ rest p = includes (str "...") (str "start, [count], ...items")
       /\ required p =
            (Z.of_nat (length (split "," (str "start, [count], ...items")))
             - optional p - (if rest p then 1 else 0))%Z.
Proof.
  apply (parseParameters_signature_counts (str "Name")
           (str "splice ( start, [ count ], ...items )")
           (str "splice") (str "start, [count], ...items")).
  - repeat constructor.
  - reflexivity.
Defined.

(** C10. A title whose parenthesised parameter list is empty or holds
    spaces only, after a name [nm] on one line, parses to required 1,
    optional 0 and no rest: splitting the empty parameter text on commas
    gives one piece. The same holds for every title on which the
    signature pattern captures an empty parameter text. *)
Theorem parseParameters_empty_list_is_one (nm ttl name : jstr) (k : nat) :
  no_newline nm ->
  signatureGroups (stripSpaces ttl) = Some (name, []) ->
  parseParameters (nm ++ str "(" ++ repeat " "%char k ++ str ")")
    = Ok (stripSpaces nm ++ str "()", mkParameters 1 0 false)
  /\ parseParameters ttl = Ok (name ++ str "()", mkParameters 1 0 false).
Proof.
  intros Hn Hg. split.
  - change (nm ++ str "(" ++ repeat " "%char k ++ str ")")
      with (nm ++ "("%char :: repeat " "%char k ++ [")"%char]).
    rewrite parseParameters_shape; auto.
    + rewrite strip_from_spaces by discriminate. reflexivity.
    + clear. induction k; constructor; auto.
    + clear. induction k; constructor; auto.
  - rewrite (parseParameters_groups _ _ _ Hg). reflexivity.
Qed.

Lemma parseParameters_empty_list_is_one_witness :
  parseParameters (str "Name" ++ str "(" ++ repeat " "%char 1 ++ str ")")
    = Ok (stripSpaces (str "Name") ++ str "()", mkParameters 1 0 false)
  /\ parseParameters (str "Date.now ( )")
    = Ok (str "Date.now" ++ str "()", mkParameters 1 0 false).
Proof.
  apply (parseParameters_empty_list_is_one (str "Name") (str "Date.now ( )")
           (str "Date.now") 1).
  - repeat constructor.
  - reflexivity.
Defined.

(** ** The attributes sentence *)

Lemma run_seq {R} a b c g (k : cursor -> captures -> option R) :
  run (a ;; b) c g k = run a c g (fun c' g' => run b c' g' k).
Proof. reflexivity. Qed.

Lemma run_Lit {R} l : forall b s g (k : cursor -> captures -> option R),
  run (Lit l) (mkCursor b (l ++ s)) g k = k (mkCursor (behind b l) s) g.
Proof.
  induction l as [|a l IH]; intros b s g k.
  - reflexivity.
  - rewrite behind_cons. cbn [Lit app]. rewrite run_seq. cbn [run ahead].
    unfold is_char. rewrite Ascii.eqb_refl. apply IH.
Qed.

Lemma run_Lit_fail {R} l : forall c g (k : cursor -> captures -> option R),
  startsWith l (ahead c) = false -> run (Lit l) c g k = None.
Proof.
  induction l as [|a l IH]; intros c g k H.
  - discriminate.
  - cbn [Lit]. rewrite run_seq. cbn [run].
    destruct (ahead c) as [|b t]; [reflexivity|].
    cbn [startsWith] in H. unfold is_char.
    destruct (Ascii.eqb a b); [|reflexivity].
    apply IH. exact H.
Qed.

Lemma run_truth {R} i v : forall b s g (k : cursor -> captures -> option R),
  run (Grp i truth) (mkCursor b (truthText v ++ s)) g k =
  k (mkCursor (behind b (truthText v)) s)
    ((i, (length (truthText v ++ s), length s)) :: g).
Proof.
  intros b s g k. unfold truth, L. cbn [run ahead].
  destruct v; cbn [truthText].
  - rewrite run_Lit. cbn [ahead].
    match goal with |- match ?x with _ => _ end = _ => destruct x end;
      [reflexivity|].
    apply run_Lit_fail. reflexivity.
  - rewrite (run_Lit_fail (str "true")) by reflexivity.
    rewrite run_Lit. reflexivity.
Qed.

Lemma match_at_sentence w e c b post :
  match_at attributes_re (mkCursor b (sentence w e c ++ post)) =
  Some (mkCursor (Some "."%char) post,
        [ (3, (length (truthText c ++ str "* }." ++ post),
               length (str "* }." ++ post)));
          (2, (length (truthText e ++ str "*, [[Configurable]]: *"
                       ++ truthText c ++ str "* }." ++ post),
               length (str "*, [[Configurable]]: *"
                       ++ truthText c ++ str "* }." ++ post)));
          (1, (length (truthText w ++ str "*, [[Enumerable]]: *"
                       ++ truthText e ++ str "*, [[Configurable]]: *"
                       ++ truthText c ++ str "* }." ++ post),
               length (str "*, [[Enumerable]]: *"
                       ++ truthText e ++ str "*, [[Configurable]]: *"
                       ++ truthText c ++ str "* }." ++ post))) ]).
Proof.
  unfold match_at, attributes_re, sentence, L.
  rewrite <- !app_assoc.
  rewrite run_seq, run_Lit, run_seq, run_truth.
  rewrite run_seq, run_Lit, run_seq, run_truth.
  rewrite run_seq, run_Lit, run_seq, run_truth.
  rewrite run_Lit. reflexivity.
Qed.







(** ** Attribute Extractor *)





(** ** Arrays *)

Lemma of_nat_not_negative n : (Z.of_nat n <? 0)%Z = false.
Proof. apply Z.ltb_ge. lia. Qed.

Lemma slice_prefix {A} (a b : list A) :
  slice (a ++ b) 0 (Z.of_nat (length a)) = a.
Proof.
  unfold slice, rel_index. rewrite length_app.
  change (0 <? 0)%Z with false. cbv iota.
  rewrite of_nat_not_negative.
  replace (Z.to_nat (Z.min 0 (Z.of_nat (length a + length b)))) with 0 by lia.
  replace (Z.to_nat (Z.min (Z.of_nat (length a))
                            (Z.of_nat (length a + length b))
                     - Z.min 0 (Z.of_nat (length a + length b))))
    with (length a) by lia.
  cbn [skipn]. apply firstn_length_app.
Qed.

Lemma slice_middle {A} (a m : list A) (x : A) :
  slice (a ++ m ++ [x]) (Z.of_nat (length a)) (-1) = m.
Proof.
  unfold slice, rel_index. rewrite !length_app. cbn [length].
  change (-1 <? 0)%Z with true. cbv iota.
  rewrite of_nat_not_negative.
  replace (Z.to_nat (Z.min (Z.of_nat (length a))
                       (Z.of_nat (length a + (length m + 1)))))
    with (length a) by lia.
  replace (Z.to_nat (Z.max (Z.of_nat (length a + (length m + 1)) + -1) 0
                     - Z.min (Z.of_nat (length a))
                         (Z.of_nat (length a + (length m + 1)))))
    with (length m) by lia.
  rewrite skipn_length_app. apply firstn_length_app.
Qed.

Lemma firstn_short_tail {A} (l : list A) n :
  S n = length l -> exists x, l = firstn n l ++ [x].
Proof.
  revert n. induction l as [|a l IH]; intros n H; [discriminate|].
  destruct n as [|n].
  - destruct l; [|discriminate]. exists a. reflexivity.
  - cbn [length] in H. injection H as H. destruct (IH n H) as [x Hx].
    exists x. cbn [firstn app]. rewrite <- Hx. reflexivity.
Qed.

Lemma slice_drop_last {A} (l : list A) (k : nat) :
  slice l (Z.of_nat k) (-1) <> [] ->
  exists x, l = firstn k l ++ slice l (Z.of_nat k) (-1) ++ [x].
Proof.
  unfold slice, rel_index. change (-1 <? 0)%Z with true. cbv iota.
  rewrite of_nat_not_negative.
  set (len := length l).
  intros H.
  assert (k < len - 1) as Hk.
  { destruct (Nat.lt_ge_cases k (len - 1)) as [|Hge]; [assumption|].
    exfalso. apply H.
    replace (Z.to_nat (Z.max (Z.of_nat len + -1) 0
                       - Z.min (Z.of_nat k) (Z.of_nat len))) with 0 by lia.
    reflexivity. }
  revert H.
  replace (Z.to_nat (Z.min (Z.of_nat k) (Z.of_nat len))) with k by lia.
  replace (Z.to_nat (Z.max (Z.of_nat len + -1) 0
                     - Z.min (Z.of_nat k) (Z.of_nat len)))
    with (len - 1 - k) by lia.
  intros _.
  destruct (firstn_short_tail (skipn k l) (len - 1 - k)) as [x Hx].
  { rewrite length_skipn. fold len. lia. }
  exists x. rewrite <- Hx. symmetry. apply firstn_skipn.
Qed.

Lemma findIndex_hit {A} (f : A -> bool) pre a post :
  (forall x, In x pre -> f x = false) -> f a = true ->
  findIndex f (pre ++ a :: post) = Z.of_nat (length pre).
Proof.
  intros Hpre Ha. induction pre as [|b pre IH].
  - cbn. rewrite Ha. reflexivity.
  - cbn [app findIndex]. rewrite (Hpre b (or_introl eq_refl)).
    rewrite IH by (intros x Hx; apply Hpre; right; exact Hx).
    cbv zeta. rewrite of_nat_not_negative.
    cbn [length]. lia.
Qed.

Lemma findIndex_miss {A} (f : A -> bool) l :
  (forall x, In x l -> f x = false) -> findIndex f l = (-1)%Z.
Proof.
  intros H. induction l as [|b l IH]; [reflexivity|].
  cbn [findIndex]. rewrite (H b (or_introl eq_refl)).
  rewrite IH by (intros x Hx; apply H; right; exact Hx). reflexivity.
Qed.

Lemma findIndex_cases {A} (f : A -> bool) l :
  (findIndex f l = (-1)%Z /\ forall x, In x l -> f x = false)
  \/ exists pre a post,
       l = pre ++ a :: post /\ f a = true
       /\ (forall x, In x pre -> f x = false)
       /\ findIndex f l = Z.of_nat (length pre).
Proof.
  induction l as [|b l IH].
  - left. split; [reflexivity|]. intros x [].
  - destruct (f b) eqn:Hb.
    + right. exists [], b, l. cbn. rewrite Hb. repeat split. intros x [].
    + destruct IH as [[Hi Hall]|(pre & a & post & -> & Ha & Hpre & Hi)].
      * left. split.
        -- cbn. rewrite Hb, Hi. reflexivity.
        -- intros x [<-|Hx]; auto.
      * right. exists (b :: pre), a, post. repeat split; auto.
        -- intros x [<-|Hx]; auto.
        -- apply (findIndex_hit f (b :: pre) a post); auto.
           intros x [<-|Hx]; auto.
Qed.

(** ** Section Reclassifier *)

Lemma reclassify_error s :
  title_is "Error Objects" s = true ->
  reclassify s =
  (let endOfError :=
     (findIndex (title_is "Properties of Error Instances") (children s)
      + 1)%Z in
   let subItems := slice (children s) endOfError (-1) in
   nativeErrorTypes <- defined (nth_error subItems 0) ;;;
   _ <- assert (title_is "Native Error Types Used in This Standard"
                         nativeErrorTypes) ;;;
   nativeErrorStructure <- defined (nth_error subItems 1) ;;;
   _ <- assert (title_is "_NativeError_ Object Structure"
                         nativeErrorStructure) ;;;
   Ok (mkSection (title s) (id s) (slice (children s) 0 endOfError)
       :: nativeErrorStructure :: skipn 2 subItems)).
Proof. intros H. unfold reclassify. rewrite H. reflexivity. Qed.

Lemma truncatedAt_index kept rest :
  truncatedAt kept (kept ++ rest) ->
  (findIndex (title_is "Properties of Error Instances") (kept ++ rest) + 1)%Z
  = Z.of_nat (length kept).
Proof.
  intros [[-> H]|(pre & pei & -> & Hp & Hpre)].
  - rewrite findIndex_miss by exact H. reflexivity.
  - rewrite <- app_assoc. cbn [app]. rewrite findIndex_hit by assumption.
    rewrite length_app. cbn [length]. lia.
Qed.

Lemma index_truncatedAt l :
  let e := (findIndex (title_is "Properties of Error Instances") l + 1)%Z in
  exists n, e = Z.of_nat n /\ n <= length l /\ truncatedAt (firstn n l) l.
Proof.
  cbv zeta.
  destruct (findIndex_cases (title_is "Properties of Error Instances") l)
    as [[Hi Hall]|(pre & a & post & -> & Ha & Hpre & Hi)].
  - exists 0. rewrite Hi. split; [reflexivity|]. split; [lia|].
    left. split; [reflexivity|exact Hall].
  - exists (S (length pre)). rewrite Hi. split; [lia|]. split.
    + rewrite length_app. cbn [length]. lia.
    + right. exists pre, a. split; [|split; assumption].
      replace (pre ++ a :: post) with ((pre ++ [a]) ++ post)
        by (rewrite <- app_assoc; reflexivity).
      replace (S (length pre)) with (length (pre ++ [a]))
        by (rewrite length_app; cbn [length]; lia).
      apply firstn_length_app.
Qed.

(** C4, as the script has it. The "Error Objects" group is rewritten
    exactly when its children are: a truncated part [kept] (the children
    up to and including "Properties of Error Instances"), the clause of
    the native error types, the structure clause, any clauses [others],
    and a last child. The result is the group cut down to [kept], the
    structure clause as a group of its own, and [others] unchanged; the
    last child is left out. *)
Theorem reclassify_error_objects (s : Section) (out : list Section) :
  title_is "Error Objects" s = true ->
  (reclassify s = Ok out <->
   exists kept types structure others last,
     children s = kept ++ types :: structure :: others ++ [last]
     /\ truncatedAt kept (children s)
     /\ title_is "Native Error Types Used in This Standard" types = true
     /\ title_is "_NativeError_ Object Structure" structure = true
     /\ out = mkSection (title s) (id s) kept :: structure :: others).
Proof.
  intros Hs. rewrite (reclassify_error _ Hs). cbv zeta. split.
  - destruct (index_truncatedAt (children s)) as (n & -> & Hn & Ht).
    intros H.
    destruct (slice (children s) (Z.of_nat n) (-1))
      as [|types [|structure others]] eqn:Hsub;
      cbn [nth_error defined bind] in H; try discriminate.
    { destruct (title_is _ types); discriminate. }
    destruct (title_is "Native Error Types Used in This Standard" types) eqn:H1;
      [|discriminate].
    destruct (title_is "_NativeError_ Object Structure" structure) eqn:H2;
      [|discriminate].
    cbn [assert bind skipn] in H. injection H as <-.
    destruct (slice_drop_last (children s) n) as [last Hl].
    { rewrite Hsub. discriminate. }
    rewrite Hsub in Hl.
    exists (firstn n (children s)), types, structure, others, last.
    repeat split; auto.
    rewrite Hl at 1.
    replace (Z.of_nat n) with (Z.of_nat (length (firstn n (children s))))
      by (rewrite length_firstn; lia).
    rewrite slice_prefix. reflexivity.
  - intros (kept & types & structure & others & last & Hc & Ht & H1 & H2 & ->).
    rewrite Hc in Ht |- *. rewrite (truncatedAt_index _ _ Ht).
    replace (kept ++ types :: structure :: others ++ [last])
      with (kept ++ (types :: structure :: others) ++ [last]) by reflexivity.
    rewrite slice_middle, slice_prefix.
    cbn [nth_error defined bind]. rewrite H1. cbn [assert bind].
    rewrite H2. reflexivity.
Qed.

Lemma reclassify_error_objects_witness :
  reclassify errorObjects
  = Ok [ clause "Error Objects"
           [ clause "The Error Constructor" [];
             clause "Properties of Error Instances" [] ];
         clause "_NativeError_ Object Structure" [];
         clause "AggregateError Objects" [] ].
Proof.
  apply (reclassify_error_objects errorObjects); [reflexivity|].
  exists [ clause "The Error Constructor" [];
           clause "Properties of Error Instances" [] ],
    (clause "Native Error Types Used in This Standard" []),
    (clause "_NativeError_ Object Structure" []),
    [ clause "AggregateError Objects" [] ],
    (clause "Abstract Operations for Error Objects" []).
  split; [reflexivity|]. split.
  - right. exists [clause "The Error Constructor" []],
      (clause "Properties of Error Instances" []).
    split; [reflexivity|]. split; [reflexivity|].
    intros x [<-|[]]. reflexivity.
  - repeat split.
Defined.

Lemma errorObjects_reclassified :
  reclassify errorObjects
  = Ok [ clause "Error Objects"
           [ clause "The Error Constructor" [];
             clause "Properties of Error Instances" [] ];
         clause "_NativeError_ Object Structure" [];
         clause "AggregateError Objects" [] ].
Proof. vm_compute. reflexivity. Qed.

(** The claim C4 as it is worded fails: the last child of "Error Objects"
    follows the structure clause and is not in the result. *)
Lemma reclassify_error_drops_last_child : ~ keepsAllFollowing errorObjects.
Proof.
  intros H.
  specialize (H _
    [ clause "The Error Constructor" [];
      clause "Properties of Error Instances" [];
      clause "Native Error Types Used in This Standard" [] ]
    (clause "_NativeError_ Object Structure" [])
    [ clause "AggregateError Objects" [];
      clause "Abstract Operations for Error Objects" [] ]
    errorObjects_reclassified eq_refl eq_refl
    (clause "Abstract Operations for Error Objects" [])
    (or_intror (or_introl eq_refl))).
  cbn [In] in H. destruct H as [H|[H|[H|[]]]]; discriminate H.
Qed.

(** ** Global Binding Assembler *)

Lemma bind_Ok {A B} (m : result A) (f : A -> result B) (b : B) :
  bind m f = Ok b -> exists a, m = Ok a /\ f a = Ok b.
Proof. destruct m as [a|]; [|discriminate]. intros H. exists a. auto. Qed.

Tactic Notation "bind_inv" hyp(H) "as" ident(a) ident(E) :=
  apply bind_Ok in H; destruct H as (a & E & H).

Lemma getBareSection_id s s' : getBareSection s = Ok s' -> s' = s.
Proof.
  unfold getBareSection. intros H. bind_inv H as u E.
  injection H as <-. reflexivity.
Qed.

Lemma mapM_getBareSection l :
  mapM getBareSection l = Ok l \/ mapM getBareSection l = Fatal.
Proof.
  induction l as [|s l IH].
  - left. reflexivity.
  - cbn [mapM].
    destruct (getBareSection s) as [s'|] eqn:E; [|right; reflexivity].
    apply getBareSection_id in E. subst s'. cbn [bind].
    destruct IH as [-> | ->]; [left|right]; reflexivity.
Qed.

Lemma filter_eqb_false (l : list Section) :
  filter (fun p => Bool.eqb (isCall p) false) l
  = filter (fun p => negb (isCall p)) l.
Proof.
  apply filter_ext. intros p. destruct (isCall p); reflexivity.
Qed.

Lemma filter_eqb_true (l : list Section) :
  filter (fun p => Bool.eqb (isCall p) true) l = filter isCall l.
Proof.
  apply filter_ext. intros p. destruct (isCall p); reflexivity.
Qed.

Lemma getSubsections_Ok pattern subs l :
  getSubsections pattern subs = Ok l ->
  l = match find (fun c => test pattern (title c)) subs with
      | Some c => children c
      | None => []
      end.
Proof.
  unfold getSubsections. destruct (find _ subs) as [c|].
  - destruct (mapM_getBareSection (children c)) as [-> | ->];
      [intros H; injection H as <-; reflexivity | discriminate].
  - intros H. injection H as <-. reflexivity.
Qed.

(** C3, as the script has it. In a namespace without "Value Properties
    of" and "Function Properties of" subsections every child is checked
    to be bare, and a child is made a static method iff its title ends in
    a closing parenthesis, a static property otherwise. The same test
    splits the sections of the constructor properties and of the
    prototype properties of a class. *)
Theorem title_test_is_closing_parenthesis (doc : Document) (ttl : jstr)
    (subs : list Section) :
  find (fun c => test (L "Value Properties of") (title c)) subs = None ->
  find (fun c => test (L "Function Properties of") (title c)) subs = None ->
  assembleNamespace doc ttl subs
  = (_ <- mapM getBareSection subs ;;;
     staticProperties <-
       mapM (makeProperty doc) (filter (fun p => negb (isCall p)) subs) ;;;
     staticMethods <- mapM (makeMethod doc) (filter isCall subs) ;;;
     Ok (Namespace {| ns_name := namespaceName ttl;
                      ns_global := false;
                      ns_staticProperties := staticProperties;
                      ns_staticMethods := staticMethods |}))
  /\ (forall p, In p (filter isCall subs)
                <-> In p subs /\ endsWith (str ")") (title p) = true)
  /\ (forall sections,
        makeProperties doc sections
        = mapM (makeProperty doc) (filter (fun p => negb (isCall p)) sections)
        /\ makeMethods doc sections
           = mapM (makeMethod doc) (filter isCall sections))
  /\ (forall h cls c h',
        assembleClass doc h ttl cls = Ok (Class c, h') ->
        exists ctorSecs protoSecs,
          getSubsections (L "Properties of " ;; Star dot ;; L " Constructor")
                         cls = Ok ctorSecs
          /\ getSubsections
               (L "Properties of " ;; Star dot ;; L " Prototype Object")
               cls = Ok protoSecs
          /\ mapM (makeProperty doc)
                  (filter (fun p => negb (isCall p)) ctorSecs)
             = Ok (staticProperties c)
          /\ mapM (makeMethod doc) (filter isCall ctorSecs)
             = Ok (staticMethods c)
          /\ mapM (makeProperty doc)
                  (filter (fun p => negb (isCall p)) protoSecs)
             = Ok (prototypeProperties c)
          /\ mapM (makeMethod doc) (filter isCall protoSecs)
             = Ok (instanceMethods c)).
Proof.
  intros Hv Hf. split; [|split; [|split]].
  - unfold assembleNamespace, getSubsections. rewrite Hv, Hf.
    cbn [bind forallb assert length Nat.eqb andb].
    destruct (mapM_getBareSection subs) as [-> | ->]; reflexivity.
  - intros p. apply filter_In.
  - intros sections. unfold makeProperties, makeMethods.
    rewrite filter_eqb_false, filter_eqb_true. split; reflexivity.
  - intros h cls c h' H. unfold assembleClass in H.
    bind_inv H as ctorSecs Ec. bind_inv H as instSecs Ei.
    bind_inv H as protoSecs Ep.
    bind_inv H as u1 E1. bind_inv H as u2 E2.
    bind_inv H as sp Esp. bind_inv H as sm Esm.
    bind_inv H as pp Epp. bind_inv H as im Eim.
    bind_inv H as ip Eip. bind_inv H as ctor Ector.
    cbn [alloc] in H. injection H as <- _.
    exists ctorSecs, protoSecs. cbn [staticProperties staticMethods
      prototypeProperties instanceMethods].
    unfold makeProperties, makeMethods in *.
    rewrite filter_eqb_false in Esp, Epp.
    rewrite filter_eqb_true in Esm, Eim.
    repeat split; assumption.
Qed.

Lemma title_test_is_closing_parenthesis_witness :
  assembleNamespace (page []) (str "The Math Object") mathChildren
  = (_ <- mapM getBareSection mathChildren ;;;
     staticProperties <-
       mapM (makeProperty (page []))
            (filter (fun p => negb (isCall p)) mathChildren) ;;;
     staticMethods <-
       mapM (makeMethod (page [])) (filter isCall mathChildren) ;;;
     Ok (Namespace {| ns_name := namespaceName (str "The Math Object");
                      ns_global := false;
                      ns_staticProperties := staticProperties;
                      ns_staticMethods := staticMethods |})).
Proof.
  exact (proj1 (title_test_is_closing_parenthesis (page [])
                  (str "The Math Object") mathChildren eq_refl eq_refl)).
Defined.

(** The claim C3 as it is worded fails: "Math.abs ( x )" does not end in
    an empty pair of parentheses and is a static method all the same. *)
Lemma namespace_split_not_by_empty_parentheses :
  exists n,
    assembleNamespace (page []) (str "The Math Object") mathChildren
    = Ok (Namespace n)
    /\ ~ splitByEmptyParentheses (page []) mathChildren n.
Proof.
  eexists. split.
  - vm_compute. reflexivity.
  - intros [H _]. vm_compute in H. discriminate H.
Qed.

(** ** Abstract Class Expander *)

Lemma getSubstitution_plain matched pre post r :
  no_dollar r -> getSubstitution matched pre post r = r.
Proof.
  induction 1 as [|a r Ha Hr IH]; [reflexivity|].
  cbn [getSubstitution]. rewrite Ha, IH. reflexivity.
Qed.

Lemma expandName_plain abstractName concrete s :
  no_dollar concrete ->
  expandName abstractName concrete s
  = match indexOf abstractName s with
    | Some i => firstn i s ++ concrete ++ skipn (i + length abstractName) s
    | None => s
    end.
Proof.
  intros H. unfold expandName, replace.
  destruct (indexOf abstractName s); [|reflexivity].
  rewrite getSubstitution_plain by exact H. reflexivity.
Qed.

Lemma expand_each abstractName c names :
  exists sibs,
    mapM (fun t => expandAbstractClass abstractName t (Class c)) names
    = Ok (map Class sibs)
    /\ map class_name sibs = names
    /\ Forall (expandedFrom abstractName c) sibs.
Proof.
  induction names as [|t names (sibs & E & Hn & Hf)].
  - exists []. repeat split. constructor.
  - eexists (_ :: sibs). cbn [mapM]. rewrite E.
    cbn [expandAbstractClass bind map]. split; [reflexivity|]. split.
    + cbn [class_name]. rewrite Hn. reflexivity.
    + constructor; [|exact Hf]. repeat split.
Qed.

(** C2, as the script has it. From the template class named _TypedArray_
    (from the one named "_NativeError_ Object Structure") the expansion
    makes one class per name of the list of typed array types (of native
    error types), in the order of the list and named by it. In each of
    them the class name is the concrete name itself; the constructor and
    every static property, static method, prototype property and
    instance method is the template's with its name rewritten, all else
    kept; the array of instance properties is the template's own, at the
    same address. Rewriting a name by a concrete name without dollar sign
    puts the concrete name in the place of the first occurrence of the
    placeholder and leaves a name without placeholder as it is. *)
Theorem expand_templates (doc : Document) (c : JSClass)
    (abstractName : jstr) (names : list jstr) :
  (class_name c = str "_TypedArray_"
   /\ abstractName = str "_TypedArray_" /\ names = typedArrayTypes doc)
  \/ (class_name c = str "_NativeError_ Object Structure"
      /\ abstractName = str "_NativeError_" /\ names = errorTypes doc) ->
  (exists sibs,
     expand doc (Class c) = Ok (map Class sibs)
     /\ map class_name sibs = names
     /\ Forall (expandedFrom abstractName c) sibs)
  /\ (forall t p, prop_name (expandProperty abstractName t p)
                  = expandName abstractName t (prop_name p)
                  /\ prop_type (expandProperty abstractName t p) = prop_type p
                  /\ prop_attributes (expandProperty abstractName t p)
                     = prop_attributes p)
  /\ (forall t m, method_name (expandMethod abstractName t m)
                  = expandName abstractName t (method_name m)
                  /\ method_parameters (expandMethod abstractName t m)
                     = method_parameters m
                  /\ method_attributes (expandMethod abstractName t m)
                     = method_attributes m)
  /\ (forall t k, expandConstructor abstractName t (Some k)
                  = Some (mkConstructor
                            (expandName abstractName t (ctor_name k))
                            (ctor_parameters k))
                  /\ expandConstructor abstractName t None = None)
  /\ (forall t s, no_dollar t ->
         expandName abstractName t s
         = match indexOf abstractName s with
           | Some i =>
               firstn i s ++ t ++ skipn (i + length abstractName) s
           | None => s
           end).
Proof.
  intros H. split; [|repeat split; auto using expandName_plain].
  destruct (expand_each abstractName c names) as (sibs & E & Hn & Hf).
  exists sibs. split; [|split; assumption].
  unfold expand.
  destruct H as [(Hc & -> & ->)|(Hc & -> & ->)]; rewrite Hc.
  - rewrite jstr_eqb_refl. exact E.
  - change (jstr_eqb (str "_NativeError_ Object Structure")
                     (str "_TypedArray_")) with false.
    cbv iota. rewrite jstr_eqb_refl. exact E.
Qed.

Lemma expand_templates_witness :
  exists sibs,
    expand (errorNames [str "RangeError"; str "TypeError"])
           (Class nativeErrorTemplate) = Ok (map Class sibs)
    /\ map class_name sibs = [str "RangeError"; str "TypeError"]
    /\ Forall (expandedFrom (str "_NativeError_") nativeErrorTemplate) sibs.
Proof.
  exact (proj1 (expand_templates
                  (errorNames [str "RangeError"; str "TypeError"])
                  nativeErrorTemplate (str "_NativeError_")
                  [str "RangeError"; str "TypeError"]
                  (or_intror (conj eq_refl (conj eq_refl eq_refl))))).
Defined.

(** The claim C2 as it is worded fails for the class name: the sibling of
    the native error template for RangeError is named RangeError, which
    is not the template name with the placeholder replaced. *)
Lemma native_error_sibling_is_named_by_the_list :
  exists sib,
    expand (errorNames [str "RangeError"]) (Class nativeErrorTemplate)
    = Ok [Class sib]
    /\ expandName (str "_NativeError_") (str "RangeError")
                  (class_name nativeErrorTemplate)
       = str "RangeError Object Structure"
    /\ class_name sib
       <> expandName (str "_NativeError_") (str "RangeError")
                    (class_name nativeErrorTemplate).
Proof.
  eexists. split; [vm_compute; reflexivity|].
  split; [vm_compute; reflexivity|].
  vm_compute. discriminate.
Qed.

(** ** Global Flag Propagator *)

Lemma sameButGlobal_refl o : sameButGlobal o o.
Proof. destruct o; cbn; repeat split. Qed.

Lemma sameButGlobal_trans o1 o2 o3 :
  sameButGlobal o1 o2 -> sameButGlobal o2 o3 -> sameButGlobal o1 o3.
Proof.
  destruct o1, o2, o3; cbn; try contradiction; try congruence.
  - intros (A & B & C) (A' & B' & C'). repeat split; congruence.
  - intros (A & B & C & D & E & F & G) (A' & B' & C' & D' & E' & F' & G').
    repeat split; congruence.
Qed.

Lemma sameButGlobal_kind o o' :
  sameButGlobal o o' ->
  name o' = name o /\ isClass o' = isClass o
  /\ isNamespace o' = isNamespace o /\ standalone o' = standalone o.
Proof.
  destruct o, o'; cbn; try contradiction.
  - intros (A & _). auto.
  - intros (A & _). auto.
  - intros ->. auto.
  - intros ->. auto.
Qed.

Lemma setGlobal_effect o :
  sameButGlobal o (setGlobal o)
  /\ (standalone o = false -> globalFlag (setGlobal o) = Some true).
Proof. destruct o; cbn; repeat split; discriminate. Qed.

Section Marking.
Variable expected : JSGlobal -> bool.
Variable titleOf : Section -> result jstr.
Hypothesis expected_kind :
  forall o o', sameButGlobal o o' -> expected o' = expected o.
Hypothesis expected_flagged :
  forall o, expected o = true -> standalone o = false.

Lemma marked_more t titles o o' :
  marked expected titles o o' -> marked expected (t :: titles) o o'.
Proof.
  intros [H|(A & B & C & D)]; [left; exact H|right].
  repeat split; auto. right. exact D.
Qed.

Lemma marked_step t titles o1 o2 o3 :
  marked expected [t] o1 o2 -> marked expected titles o2 o3 ->
  marked expected (t :: titles) o1 o3.
Proof.
  intros [->|(A & B & C & D)] H.
  - apply marked_more, H.
  - destruct H as [->|(A' & B' & C' & D')]; right.
    + repeat split; auto. destruct D as [<-|[]]. left. reflexivity.
    + repeat split; auto.
      * eapply sameButGlobal_trans; eauto.
      * destruct D as [<-|[]]. left. reflexivity.
Qed.

Lemma markGlobal_Ok t objs : forall objs',
  markGlobal expected t objs = Ok objs' ->
  Forall2 (marked expected [t]) objs objs'
  /\ exists o, In o objs /\ name o = t /\ expected o = true.
Proof.
  induction objs as [|o more IH]; intros objs' H; [discriminate|].
  cbn [markGlobal] in H. destruct (jstr_eqb (name o) t) eqn:E.
  - apply jstr_eqb_eq in E.
    destruct (expected o) eqn:Ex; [|discriminate].
    cbn [assert bind] in H. injection H as <-. split.
    + constructor.
      * right. destruct (setGlobal_effect o) as [A B].
        repeat split; auto. left. symmetry. exact E.
      * clear. induction more; constructor; auto. left. reflexivity.
    + exists o. repeat split; auto. left. reflexivity.
  - destruct (markGlobal expected t more) as [more'|] eqn:Em; [|discriminate].
    cbn [bind] in H. injection H as <-.
    destruct (IH _ eq_refl) as [F (x & Hx & Hn & He)]. split.
    + constructor; [left; reflexivity|exact F].
    + exists x. repeat split; auto. right. exact Hx.
Qed.

Lemma Forall2_compose {A} (P Q S : A -> A -> Prop) l1 :
  (forall a b c, P a b -> Q b c -> S a c) ->
  forall l2 l3, Forall2 P l1 l2 -> Forall2 Q l2 l3 -> Forall2 S l1 l3.
Proof.
  intros H. induction l1 as [|a l1 IH]; intros l2 l3 H1 H2.
  - inversion H1; subst. inversion H2; subst. constructor.
  - inversion H1; subst. inversion H2; subst. constructor; eauto.
Qed.

Lemma marked_In titles objs objs' o' :
  Forall2 (marked expected titles) objs objs' -> In o' objs' ->
  exists o, In o objs /\ sameButGlobal o o'.
Proof.
  induction 1 as [|a b l l' Hab Hl IH]; intros Hin; [destruct Hin|].
  destruct Hin as [<-|Hin].
  - exists a. split; [left; reflexivity|].
    destruct Hab as [->|(A & _)]; [apply sameButGlobal_refl|exact A].
  - destruct (IH Hin) as (o & Ho & Hs). exists o. split; [right|]; auto.
Qed.

Lemma forEach_marks l : forall objs objs',
  forEachM (fun s objs => t <- titleOf s ;;; markGlobal expected t objs)
           l objs = Ok objs' ->
  exists titles,
    mapM titleOf l = Ok titles
    /\ Forall2 (marked expected titles) objs objs'
    /\ forall t, In t titles ->
         exists o, In o objs /\ name o = t /\ expected o = true.
Proof.
  induction l as [|s l IH]; intros objs objs' H.
  - cbn in H. injection H as <-. exists []. split; [reflexivity|]. split.
    + clear. induction objs; constructor; auto. left. reflexivity.
    + intros t [].
  - cbn [forEachM] in H. apply bind_Ok in H. destruct H as (objs1 & E1 & H).
    apply bind_Ok in E1. destruct E1 as (t & Et & Em).
    destruct (markGlobal_Ok _ _ _ Em) as [F1 (o & Ho & Hn & He)].
    destruct (IH _ _ H) as (titles & Ets & F2 & Hex).
    exists (t :: titles). split; [|split].
    + cbn [mapM]. rewrite Et, Ets. reflexivity.
    + eapply Forall2_compose; [|exact F1|exact F2].
      intros a b c. apply marked_step.
    + intros t' [<-|Ht'].
      * exists o. auto.
      * destruct (Hex _ Ht') as (o1 & Ho1 & Hn1 & He1).
        destruct (marked_In _ _ _ _ F1 Ho1) as (o0 & Ho0 & Hs).
        exists o0. destruct (sameButGlobal_kind _ _ Hs) as (N & _).
        repeat split; auto; [congruence|].
        rewrite <- (expected_kind _ _ Hs). exact He1.
Qed.
End Marking.

Lemma mapM_Forall {A B} (f : A -> result B) (P : B -> Prop) l : forall l',
  (forall a b, f a = Ok b -> P b) -> mapM f l = Ok l' -> Forall P l'.
Proof.
  induction l as [|a l IH]; intros l' Hf H.
  - injection H as <-. constructor.
  - cbn [mapM] in H. bind_inv H as b Eb. bind_inv H as bs Ebs.
    injection H as <-. constructor; eauto.
Qed.

Lemma flatMapM_Forall {A B} (f : A -> result (list B)) (P : B -> Prop) l :
  forall l',
  (forall a bs, f a = Ok bs -> Forall P bs) ->
  flatMapM f l = Ok l' -> Forall P l'.
Proof.
  induction l as [|a l IH]; intros l' Hf H.
  - injection H as <-. constructor.
  - cbn [flatMapM] in H. bind_inv H as b Eb. bind_inv H as bs Ebs.
    injection H as <-. apply Forall_app. split; eauto.
Qed.

Lemma mapM_In {A B} (f : A -> result B) l : forall l' a,
  mapM f l = Ok l' -> In a l -> exists b, f a = Ok b /\ In b l'.
Proof.
  induction l as [|x l IH]; intros l' a H Ha; [destruct Ha|].
  cbn [mapM] in H. bind_inv H as b Eb. bind_inv H as bs Ebs.
  injection H as <-. destruct Ha as [<-|Ha].
  - exists b. split; [exact Eb|left; reflexivity].
  - destruct (IH _ _ Ebs Ha) as (b' & Hb & Hin).
    exists b'. split; [exact Hb|right; exact Hin].
Qed.

Lemma globalProperty_standalone doc s o :
  globalProperty doc s = Ok o -> standalone o = true.
Proof.
  unfold globalProperty. intros H. bind_inv H as b Eb. bind_inv H as a Ea.
  injection H as <-. reflexivity.
Qed.

Lemma globalFunctions_standalone s os :
  globalFunctions s = Ok os -> Forall (fun o => standalone o = true) os.
Proof.
  unfold globalFunctions. apply mapM_Forall. intros t o H.
  bind_inv H as b Eb. bind_inv H as p Ep. destruct p as [n ps].
  injection H as <-. reflexivity.
Qed.

Lemma globalShape_four globals :
  globalShape globals = true <-> fourGlobalSections globals.
Proof.
  unfold fourGlobalSections, globalShape, title_is. split.
  - destruct globals as [|g0 [|g1 [|g2 [|g3 [|]]]]]; try discriminate.
    intros H. repeat (apply andb_true_iff in H; destruct H as [H ?]).
    exists g0, g1, g2, g3. repeat split; apply jstr_eqb_eq; assumption.
  - intros (g0 & g1 & g2 & g3 & -> & H0 & H1 & H2 & H3).
    rewrite H0, H1, H2, H3. reflexivity.
Qed.

Lemma touched_of_marks ctors others a b c :
  marked isClass ctors a b -> marked isNamespace others b c ->
  touched ctors others a c.
Proof.
  intros [->|(A & B & C & D)] [->|(A' & B' & C' & D')].
  - left. reflexivity.
  - right. repeat split; auto.
  - right. repeat split; auto.
  - exfalso. destruct (sameButGlobal_kind _ _ A) as (_ & K & N & _).
    destruct a, b; cbn in *; try discriminate; contradiction.
Qed.

Lemma touched_standalone ctors others l : forall l',
  Forall (fun o => standalone o = true) l ->
  Forall2 (touched ctors others) l l' -> l' = l.
Proof.
  induction l as [|o l IH]; intros l' Hs H; inversion H; subst;
    [reflexivity|].
  inversion Hs; subst. f_equal; [|apply IH; assumption].
  match goal with H : touched _ _ o _ |- _ =>
    destruct H as [->|(_ & _ & [[K _]|[K _]])] end;
    [reflexivity|destruct o; discriminate..].
Qed.

Lemma constructorTitle_Ok s t :
  constructorTitle s = Ok t -> t = replace (str " ( . . . )") [] (title s).
Proof.
  unfold constructorTitle. intros H. bind_inv H as b Eb.
  apply getBareSection_id in Eb. subst b. injection H as <-. reflexivity.
Qed.

Lemma otherTitle_Ok s t : otherTitle s = Ok t -> t = title s.
Proof.
  unfold otherTitle. intros H. bind_inv H as b Eb.
  apply getBareSection_id in Eb. subst b. injection H as <-. reflexivity.
Qed.

Lemma isClass_kind o o' : sameButGlobal o o' -> isClass o' = isClass o.
Proof. intros H. apply (sameButGlobal_kind _ _ H). Qed.

Lemma isNamespace_kind o o' :
  sameButGlobal o o' -> isNamespace o' = isNamespace o.
Proof. intros H. apply (sameButGlobal_kind _ _ H). Qed.

Lemma isClass_flagged o : isClass o = true -> standalone o = false.
Proof. destruct o; auto; discriminate. Qed.

Lemma isNamespace_flagged o : isNamespace o = true -> standalone o = false.
Proof. destruct o; auto; discriminate. Qed.

(** What a run of the propagator that does not die has seen and done. *)
Lemma propagate_Ok doc objects final :
  propagate doc objects = Ok final ->
  exists g g2 g3 ctors others kept added,
    find (title_is "The Global Object") (toc doc) = Some g
    /\ fourGlobalSections (children g)
    /\ nth_error (children g) 2 = Some g2
    /\ nth_error (children g) 3 = Some g3
    /\ mapM constructorTitle (children g2) = Ok ctors
    /\ mapM otherTitle (children g3) = Ok others
    /\ final = kept ++ added
    /\ Forall2 (touched ctors others) objects kept
    /\ Forall (fun o => standalone o = true) added
    /\ (forall t, In t ctors ->
          exists c, In (Class c) objects /\ class_name c = t)
    /\ (forall t, In t others ->
          exists n, In (Namespace n) objects /\ ns_name n = t).
Proof.
  unfold propagate. intros H.
  bind_inv H as g Eg. bind_inv H as u Eshape.
  bind_inv H as g0 E0. bind_inv H as g1 E1.
  bind_inv H as g2 E2. bind_inv H as g3 E3.
  bind_inv H as properties Ep. bind_inv H as functions Ef.
  bind_inv H as flagged Ec.
  destruct (find _ (toc doc)) as [g'|]; [|discriminate].
  injection Eg as ->.
  assert (globalShape (children g) = true) as Hshape
    by (destruct (globalShape (children g)); [reflexivity|discriminate]).
  assert (Forall (fun o => standalone o = true) (properties ++ functions))
    as Hadded.
  { apply Forall_app. split.
    - eapply mapM_Forall; [|exact Ep]. intros a b.
      apply globalProperty_standalone.
    - eapply flatMapM_Forall; [|exact Ef]. intros a b.
      apply globalFunctions_standalone. }
  destruct (forEach_marks isClass constructorTitle isClass_kind
              isClass_flagged _ _ _ Ec)
    as (ctors & Ectors & F1 & X1).
  destruct (forEach_marks isNamespace otherTitle isNamespace_kind
              isNamespace_flagged _ _ _ H)
    as (others & Eothers & F2 & X2).
  pose proof (Forall2_compose _ _ _ _
                (touched_of_marks ctors others) _ _ F1 F2) as F.
  apply Forall2_app_inv_l in F.
  destruct F as (kept & added & Fk & Fa & ->).
  apply touched_standalone in Fa; [|exact Hadded]. subst added.
  exists g, g2, g3, ctors, others, kept, (properties ++ functions).
  destruct (nth_error (children g) 2); [|discriminate]. injection E2 as ->.
  destruct (nth_error (children g) 3); [|discriminate]. injection E3 as ->.
  repeat split; auto.
  - apply globalShape_four, Hshape.
  - intros t Ht. destruct (X1 _ Ht) as (o & Ho & Hn & Hc).
    destruct o as [| c | |]; try discriminate. exists c. split; [|exact Hn].
    apply in_app_or in Ho. destruct Ho as [Ho|Ho]; [exact Ho|].
    rewrite Forall_forall in Hadded. apply Hadded in Ho. discriminate.
  - intros t Ht. destruct (X2 _ Ht) as (o & Ho & Hn & Hc).
    destruct (marked_In _ _ _ _ _ F1 Ho) as (o0 & Ho0 & Hs).
    destruct (sameButGlobal_kind _ _ Hs) as (N & _ & K & _).
    rewrite K in Hc. destruct o0 as [n | | |]; try discriminate.
    exists n. split; [|cbn in N; congruence].
    apply in_app_or in Ho0. destruct Ho0 as [Ho0|Ho0]; [exact Ho0|].
    rewrite Forall_forall in Hadded. apply Hadded in Ho0. discriminate.
Qed.

(** C7. The propagator dies when there is no "The Global Object" clause,
    when that clause does not have exactly the four children titled
    "Value Properties of the Global Object", "Function Properties of the
    Global Object", "Constructor Properties of the Global Object" and
    "Other Properties of the Global Object" in this order, when a child
    of the constructor properties names no class of the catalog, and
    when a child of the other properties names no namespace of the
    catalog. *)
Theorem propagate_dies_on_mismatch (doc : Document) (objects : list JSGlobal) :
  (find (title_is "The Global Object") (toc doc) = None ->
   propagate doc objects = Fatal)
  /\ (forall g,
        find (title_is "The Global Object") (toc doc) = Some g ->
        ~ fourGlobalSections (children g) ->
        propagate doc objects = Fatal)
  /\ (forall g g2 s,
        find (title_is "The Global Object") (toc doc) = Some g ->
        nth_error (children g) 2 = Some g2 ->
        In s (children g2) ->
        (forall c, In (Class c) objects ->
                   class_name c <> replace (str " ( . . . )") [] (title s)) ->
        propagate doc objects = Fatal)
  /\ (forall g g3 s,
        find (title_is "The Global Object") (toc doc) = Some g ->
        nth_error (children g) 3 = Some g3 ->
        In s (children g3) ->
        (forall n, In (Namespace n) objects -> ns_name n <> title s) ->
        propagate doc objects = Fatal).
Proof.
  destruct (propagate doc objects) as [final|] eqn:E;
    [|repeat split; reflexivity].
  destruct (propagate_Ok _ _ _ E)
    as (g & g2 & g3 & ctors & others & kept & added & Eg & Hs & E2 & E3
        & Ec & Eo & _ & _ & _ & Xc & Xo).
  split; [|split; [|split]].
  - intros Hnone. rewrite Eg in Hnone. discriminate.
  - intros g' Eg' Hn. rewrite Eg in Eg'. injection Eg' as <-.
    contradiction.
  - intros g' g2' s Eg' E2' Hin Hno. rewrite Eg in Eg'. injection Eg' as <-.
    rewrite E2 in E2'. injection E2' as <-.
    destruct (mapM_In _ _ _ _ Ec Hin) as (t & Et & Ht).
    apply constructorTitle_Ok in Et. subst t.
    destruct (Xc _ Ht) as (c & Hc & Hn). destruct (Hno c Hc Hn).
  - intros g' g3' s Eg' E3' Hin Hno. rewrite Eg in Eg'. injection Eg' as <-.
    rewrite E3 in E3'. injection E3' as <-.
    destruct (mapM_In _ _ _ _ Eo Hin) as (t & Et & Ht).
    apply otherTitle_Ok in Et. subst t.
    destruct (Xo _ Ht) as (n & Hn & Hm). destruct (Hno n Hn Hm).
Qed.

Lemma propagate_dies_on_mismatch_witness :
  propagate threeSections [] = Fatal
  /\ propagate (globalObject [leaf "Foo ( . . . )" "sec-foo"] [])
               [Namespace mathNamespace] = Fatal
  /\ propagate (globalObject [] [leaf "Math" "sec-math-object"])
               [Class fooClass] = Fatal.
Proof.
  split; [|split].
  - refine (proj1 (proj2 (propagate_dies_on_mismatch threeSections []))
              _ eq_refl _).
    intros (g0 & g1 & g2 & g3 & H & _). discriminate H.
  - refine (proj1 (proj2 (proj2 (propagate_dies_on_mismatch
              (globalObject [leaf "Foo ( . . . )" "sec-foo"] [])
              [Namespace mathNamespace])))
              _ _ (leaf "Foo ( . . . )" "sec-foo") eq_refl eq_refl
              (or_introl eq_refl) _).
    intros c [H|[]]. discriminate H.
  - refine (proj2 (proj2 (proj2 (propagate_dies_on_mismatch
              (globalObject [] [leaf "Math" "sec-math-object"])
              [Class fooClass])))
              _ _ (leaf "Math" "sec-math-object") eq_refl eq_refl
              (or_introl eq_refl) _).
    intros n [H|[]]. discriminate H.
Defined.

(** C8. When the propagator runs to the end, the catalog it leaves is the
    catalog it was given, descriptor by descriptor, followed by appended
    descriptors. An appended descriptor is a global property or a
    function. A descriptor of the given catalog is left as it was, or it
    is a class named by a child of the constructor properties, or a
    namespace named by a child of the other properties, whose global flag
    is now true and whose other fields are as they were. *)
Theorem propagate_only_flags (doc : Document) (objects final : list JSGlobal) :
  propagate doc objects = Ok final ->
  exists ctors others kept added,
    constructorNames doc = Ok ctors
    /\ otherNames doc = Ok others
    /\ final = kept ++ added
    /\ Forall2 (touched ctors others) objects kept
    /\ Forall (fun o => standalone o = true) added.
Proof.
  intros H.
  destruct (propagate_Ok _ _ _ H)
    as (g & g2 & g3 & ctors & others & kept & added & Eg & Hs & E2 & E3
        & Ec & Eo & Ef & F & Ha & _).
  exists ctors, others, kept, added.
  unfold constructorNames, otherNames. rewrite Eg. cbn [defined bind].
  rewrite E2, E3. cbn [defined bind]. auto.
Qed.

Lemma propagate_only_flags_witness :
  exists ctors others kept added,
    constructorNames
      (globalObject [leaf "Foo ( . . . )" "sec-foo"]
                    [leaf "Math" "sec-math-object"]) = Ok ctors
    /\ otherNames
         (globalObject [leaf "Foo ( . . . )" "sec-foo"]
                       [leaf "Math" "sec-math-object"]) = Ok others
    /\ [ Class (mkClass (str "Foo") true None [] [] [] [] 0);
         Namespace (mkNamespace (str "Math") true [] []);
         GlobalProperty (mkGlobalProperty (str "NaN") None);
         Function (mkFunction (str "eval()") (mkParameters 1 0 false) true) ]
       = kept ++ added
    /\ Forall2 (touched ctors others)
               [Class fooClass; Namespace mathNamespace] kept
    /\ Forall (fun o => standalone o = true) added.
Proof.
  apply (propagate_only_flags
           (globalObject [leaf "Foo ( . . . )" "sec-foo"]
                         [leaf "Math" "sec-math-object"])
           [Class fooClass; Namespace mathNamespace]).
  vm_compute. reflexivity.
Defined.

(** ** Names of instance properties *)

(** The claim C9 as it is worded fails: the document decides the names,
    and nothing in the script keeps them apart. *)
Lemma instance_and_static_property_can_share_a_name :
  exists final h c,
    catalog lengthTwice = Ok (final, h)
    /\ In (Class c) final
    /\ ~ instanceNamesApart h c.
Proof.
  eexists. eexists. eexists. split; [vm_compute; reflexivity|].
  split; [left; reflexivity|].
  intros [_ H]. apply (H (str "length")); left; reflexivity.
Qed.

Lemma makeProperty_name doc s p :
  makeProperty doc s = Ok p -> prop_name p = propertyName s.
Proof.
  unfold makeProperty, propertyName.
  destruct (isAccessorPair s).
  - intros H. injection H as <-. reflexivity.
  - destruct (test accessor_re (title s)).
    + intros H. injection H as <-. reflexivity.
    + intros H. bind_inv H as a Ea. injection H as <-. reflexivity.
Qed.

Lemma makeProperty_names doc l : forall ps,
  mapM (makeProperty doc) l = Ok ps ->
  map prop_name ps = map propertyName l.
Proof.
  induction l as [|s l IH]; intros ps H.
  - injection H as <-. reflexivity.
  - cbn [mapM] in H. bind_inv H as p Ep. bind_inv H as ps' Eps.
    injection H as <-. cbn [map].
    rewrite (makeProperty_name _ _ _ Ep), (IH _ Eps). reflexivity.
Qed.

Lemma getSubsections_subsection pattern subs l :
  getSubsections pattern subs = Ok l -> l = subsection pattern subs.
Proof. apply getSubsections_Ok. Qed.

Lemma assembleClass_names doc h ttl subs o h' :
  assembleClass doc h ttl subs = Ok (o, h') ->
  exists c ip,
    o = Class c
    /\ h' = h ++ [ip]
    /\ instanceProperties c = length h
    /\ class_name c = className ttl
    /\ map prop_name ip
       = map propertyName
           (subsection (L "Properties of " ;; Star dot ;; L " Instances") subs)
    /\ map prop_name (staticProperties c)
       = map propertyName
           (filter (fun p => negb (isCall p))
              (subsection (L "Properties of " ;; Star dot ;; L " Constructor")
                          subs))
    /\ map prop_name (prototypeProperties c)
       = map propertyName
           (filter (fun p => negb (isCall p))
              (subsection
                 (L "Properties of " ;; Star dot ;; L " Prototype Object")
                 subs)).
Proof.
  intros H. unfold assembleClass in H.
  bind_inv H as ctorSecs Ec. bind_inv H as instSecs Ei.
  bind_inv H as protoSecs Ep.
  bind_inv H as u1 E1. bind_inv H as u2 E2.
  bind_inv H as sp Esp. bind_inv H as sm Esm.
  bind_inv H as pp Epp. bind_inv H as im Eim.
  bind_inv H as ip Eip. bind_inv H as ctor Ector.
  cbn [alloc] in H. injection H as <- <-.
  apply getSubsections_subsection in Ec, Ei, Ep. subst.
  unfold makeProperties in Esp, Epp. rewrite filter_eqb_false in Esp, Epp.
  eexists. exists ip. split; [reflexivity|].
  cbn [instanceProperties class_name staticProperties prototypeProperties].
  repeat split.
  - apply (makeProperty_names _ _ _ Eip).
  - apply (makeProperty_names _ _ _ Esp).
  - apply (makeProperty_names _ _ _ Epp).
Qed.

Lemma assemble_grows doc h s o h' :
  assemble doc h s = Ok (o, h') -> exists more, h' = h ++ more.
Proof.
  unfold assemble. destruct (endsWith _ _).
  - intros H. bind_inv H as n En. injection H as <- <-.
    exists []. symmetry. apply app_nil_r.
  - intros H. destruct (assembleClass_names _ _ _ _ _ _ H)
      as (c & ip & _ & -> & _). exists [ip]. reflexivity.
Qed.

Lemma assembleAll_grows doc l : forall h os h',
  assembleAll doc h l = Ok (os, h') -> exists more, h' = h ++ more.
Proof.
  induction l as [|s l IH]; intros h os h' H.
  - injection H as <- <-. exists []. symmetry. apply app_nil_r.
  - cbn [assembleAll] in H. bind_inv H as p1 E1. destruct p1 as [o h1].
    bind_inv H as p2 E2. destruct p2 as [os' h2]. injection H as <- <-.
    destruct (assemble_grows _ _ _ _ _ E1) as (m1 & ->).
    destruct (IH _ _ _ E2) as (m2 & ->).
    exists (m1 ++ m2). symmetry. apply app_assoc.
Qed.

Lemma assembleAll_In doc l : forall h os h' o,
  assembleAll doc h l = Ok (os, h') -> In o os ->
  exists g ha hb more,
    In g l /\ assemble doc ha g = Ok (o, hb) /\ h' = hb ++ more.
Proof.
  induction l as [|s l IH]; intros h os h' o H Ho.
  - injection H as <- <-. destruct Ho.
  - cbn [assembleAll] in H. bind_inv H as p1 E1. destruct p1 as [o1 h1].
    bind_inv H as p2 E2. destruct p2 as [os' h2]. injection H as <- <-.
    destruct Ho as [<-|Ho].
    + destruct (assembleAll_grows _ _ _ _ _ E2) as (m & ->).
      exists s, h, h1, m. split; [left; reflexivity|]. split; auto.
    + destruct (IH _ _ _ _ E2 Ho) as (g & ha & hb & m & Hg & Ha & ->).
      exists g, ha, hb, m. split; [right; exact Hg|]. split; auto.
Qed.

Lemma flatMapM_In {A B} (f : A -> result (list B)) l : forall out x,
  flatMapM f l = Ok out -> In x out ->
  exists a bs, In a l /\ f a = Ok bs /\ In x bs.
Proof.
  induction l as [|a l IH]; intros out x H Hx.
  - injection H as <-. destruct Hx.
  - cbn [flatMapM] in H. bind_inv H as bs Eb. bind_inv H as more Em.
    injection H as <-. apply in_app_or in Hx. destruct Hx as [Hx|Hx].
    + exists a, bs. split; [left; reflexivity|]. split; auto.
    + destruct (IH _ _ Em Hx) as (a' & bs' & Ha & Hf & Hin).
      exists a', bs'. split; [right; exact Ha|]. split; auto.
Qed.

(** Where a class of the expanded catalog comes from. *)
Lemma expand_In doc d l c0 :
  expand doc d = Ok l -> In (Class c0) l ->
  exists c1 rename,
    d = Class c1
    /\ instanceProperties c0 = instanceProperties c1
    /\ map prop_name (staticProperties c0)
       = map rename (map prop_name (staticProperties c1))
    /\ map prop_name (prototypeProperties c0)
       = map rename (map prop_name (prototypeProperties c1))
    /\ In rename
          (if jstr_eqb (class_name c1) (str "_TypedArray_") then
             map (expandName (str "_TypedArray_")) (typedArrayTypes doc)
           else if jstr_eqb (class_name c1)
                            (str "_NativeError_ Object Structure") then
             map (expandName (str "_NativeError_")) (errorTypes doc)
           else [fun n => n]).
Proof.
  assert (forall a names,
            mapM (fun t => expandAbstractClass a t d) names = Ok l ->
            In (Class c0) l ->
            exists c1 rename,
              d = Class c1
              /\ instanceProperties c0 = instanceProperties c1
              /\ map prop_name (staticProperties c0)
                 = map rename (map prop_name (staticProperties c1))
              /\ map prop_name (prototypeProperties c0)
                 = map rename (map prop_name (prototypeProperties c1))
              /\ In rename (map (expandName a) names)) as Htemplate.
  { intros a names. revert l. induction names as [|t names IH]; intros l H Hin.
    - injection H as <-. destruct Hin.
    - cbn [mapM] in H. bind_inv H as o Eo. bind_inv H as os Eos.
      injection H as <-. destruct Hin as [->|Hin].
      + destruct d as [|c1| |]; try discriminate.
        cbn [expandAbstractClass] in Eo. injection Eo as <-.
        exists c1, (expandName a t).
        cbn [instanceProperties staticProperties prototypeProperties].
        rewrite !map_map. repeat split. left. reflexivity.
      + destruct (IH _ Eos Hin) as (c1 & rn & Hd & Hi & Hs & Hp & Hr).
        exists c1, rn. repeat split; auto. right. exact Hr. }
  unfold expand. destruct d as [n|c1|p|f];
    try (intros H; injection H as <-; intros [H|[]]; discriminate H).
  destruct (jstr_eqb (class_name c1) (str "_TypedArray_")) eqn:T1.
  { intros H Hin. destruct (Htemplate _ _ H Hin)
      as (c & rn & Hd & Hrest). injection Hd as <-. exists c1, rn.
    rewrite T1. split; [reflexivity|exact Hrest]. }
  destruct (jstr_eqb (class_name c1) (str "_NativeError_ Object Structure"))
    eqn:T2.
  { intros H Hin. destruct (Htemplate _ _ H Hin)
      as (c & rn & Hd & Hrest). injection Hd as <-. exists c1, rn.
    rewrite T1, T2. split; [reflexivity|exact Hrest]. }
  intros H. injection H as <-. intros [H|[]]. injection H as ->.
  exists c0, (fun n => n). rewrite T1, T2, !map_id. repeat split.
  left. reflexivity.
Qed.

Lemma Forall2_In_r {A B} (R : A -> B -> Prop) l l' y :
  Forall2 R l l' -> In y l' -> exists x, In x l /\ R x y.
Proof.
  induction 1 as [|a b l l' Hab Hl IH]; intros Hin; [destruct Hin|].
  destruct Hin as [<-|Hin].
  - exists a. split; [left; reflexivity|exact Hab].
  - destruct (IH Hin) as (x & Hx & Hr). exists x. split; [right|]; auto.
Qed.

Lemma assembleNamespace_kind doc ttl subs o :
  assembleNamespace doc ttl subs = Ok o -> isNamespace o = true.
Proof.
  unfold assembleNamespace. intros H.
  bind_inv H as vs Ev. bind_inv H as fs Ef.
  bind_inv H as u1 E1. bind_inv H as u2 E2.
  bind_inv H as secs Es. destruct secs as [ps ms].
  bind_inv H as sp Esp. bind_inv H as sm Esm.
  injection H as <-. reflexivity.
Qed.

(** C9, as the script has it. The names of the properties of a class of
    the catalog are the names the document gives: the instance properties
    under "Properties of ... Instances", the static and the prototype
    properties under "Properties of ... Constructor" and "Properties of
    ... Prototype Object", rewritten for the classes made from a
    template. So when the document keeps these names apart in every group
    that becomes a class, the instance properties of every class of the
    catalog are disjoint in name from its prototype properties and from
    its static properties. *)
Theorem instance_names_apart_when_document_keeps_them_apart
    (doc : Document) (final : list JSGlobal) (h : heap)
    (groups : list Section) :
  catalog doc = Ok (final, h) ->
  builtinGroups (toc doc) = Ok groups ->
  (forall g, In g groups -> endsWith (str "Object") (title g) = false ->
             sourceNamesApart doc g) ->
  forall c, In (Class c) final -> instanceNamesApart h c.
Proof.
  intros Hcat Hgroups Hdoc c Hc.
  unfold catalog in Hcat. bind_inv Hcat as p Eb. destruct p as [objects h0].
  bind_inv Hcat as final' Ep. injection Hcat as -> ->.
  unfold buildObjects in Eb. rewrite Hgroups in Eb. cbn [bind] in Eb.
  bind_inv Eb as p Ea. destruct p as [descriptors h1].
  bind_inv Eb as objects' Ex. injection Eb as -> ->.
  destruct (propagate_Ok _ _ _ Ep)
    as (_ & _ & _ & ctors & others & kept & added & _ & _ & _ & _ & _ & _
        & -> & F & Hadded & _).
  apply in_app_or in Hc. destruct Hc as [Hc|Hc].
  2:{ rewrite Forall_forall in Hadded. apply Hadded in Hc. discriminate. }
  destruct (Forall2_In_r _ _ _ _ F Hc) as (o & Ho & Ht).
  assert (exists c0, o = Class c0
                     /\ instanceProperties c = instanceProperties c0
                     /\ staticProperties c = staticProperties c0
                     /\ prototypeProperties c = prototypeProperties c0)
    as (c0 & -> & Ei & Es & Epp).
  { destruct Ht as [<-|(S & _)]; [exists c; auto|].
    destruct o as [|c0| |]; try contradiction. exists c0.
    destruct S as (_ & _ & S1 & _ & S2 & _ & S3). auto. }
  destruct (flatMapM_In _ _ _ _ Ex Ho) as (d & l & Hd & He & Hl).
  destruct (expand_In _ _ _ _ He Hl) as (c1 & rn & -> & Ei1 & Es1 & Ep1 & Hrn).
  destruct (assembleAll_In _ _ _ _ _ _ Ea Hd)
    as (g & ha & hb & more & Hg & Hasm & ->).
  unfold assemble in Hasm.
  destruct (endsWith (str "Object") (title g)) eqn:Hkind.
  { bind_inv Hasm as o En. injection Hasm as -> _.
    apply assembleNamespace_kind in En. discriminate. }
  destruct (assembleClass_names _ _ _ _ _ _ Hasm)
    as (c1' & ip & Hc1 & -> & Ha & Hn & Ni & Ns & Np).
  injection Hc1 as <-.
  specialize (Hdoc g Hg Hkind rn).
  unfold renamings in Hdoc. rewrite <- Hn in Hdoc.
  destruct (Hdoc Hrn) as [D1 D2].
  unfold instanceNamesApart.
  assert (deref ((ha ++ [ip]) ++ more) (instanceProperties c) = ip) as ->.
  { rewrite Ei, Ei1, Ha. unfold deref. rewrite <- app_assoc.
    apply nth_middle. }
  rewrite Es, Epp, Es1, Ep1, Ni, Ns, Np. split; assumption.
Qed.

Lemma instance_names_apart_when_document_keeps_them_apart_witness :
  instanceNamesApart
    [[mkProperty DataProperty (str "length") (str "wc")]]
    (mkClass (str "Foo") true None
       [mkProperty DataProperty (str "Foo.count") (str "wc")] [] [] [] 0).
Proof.
  apply (instance_names_apart_when_document_keeps_them_apart
           (fooDocument "Foo.count")
           [ Class (mkClass (str "Foo") true None
                      [mkProperty DataProperty (str "Foo.count") (str "wc")]
                      [] [] [] 0) ]
           _
           [ clause "Foo Objects"
               [ clause "Properties of the Foo Constructor"
                   [leaf "Foo.count" "sec-foo-static"];
                 clause "Properties of Foo Instances"
                   [leaf "length" "sec-foo-instances-length"] ] ]).
  - vm_compute. reflexivity.
  - vm_compute. reflexivity.
  - intros g [<-|[]] _ rename [<-|[]].
    split; intros x Hx Hy; vm_compute in Hx, Hy;
      destruct Hx as [<-|[]]; try contradiction;
      destruct Hy as [Hy|[]]; discriminate Hy.
  - left. reflexivity.
Defined.

(** * Further properties *)

(** ** The matcher, in both directions *)

Lemma star_sound {R} p s : forall b (k : cursor -> option R) r,
  star p b s k = Some r ->
  exists x y, s = x ++ y /\ Forall (fun a => p a = true) x
              /\ k (mkCursor (behind b x) y) = Some r.
Proof.
  induction s as [|a t IH]; intros b k r H.
  - exists [], []. repeat split; [constructor|exact H].
  - cbn [star] in H. destruct (p a) eqn:Ha.
    + destruct (star p (Some a) t k) as [r'|] eqn:E.
      * injection H as <-. destruct (IH _ _ _ E) as (x & y & -> & Hx & Hk).
        exists (a :: x), y. rewrite behind_cons.
        repeat split; [constructor; assumption|exact Hk].
      * exists [], (a :: t). repeat split; [constructor|exact H].
    + exists [], (a :: t). repeat split; [constructor|exact H].
Qed.

Lemma star_complete {R} p x : forall b y (k : cursor -> option R) r,
  Forall (fun a => p a = true) x ->
  k (mkCursor (behind b x) y) = Some r ->
  exists r', star p b (x ++ y) k = Some r'.
Proof.
  induction x as [|a x IH]; intros b y k r Hx Hk.
  - destruct y as [|c y]; cbn [app star].
    + exists r. exact Hk.
    + destruct (p c); [|exists r; exact Hk].
      destruct (star p (Some c) y k) as [r'|]; [exists r'|exists r]; auto.
  - inversion Hx as [|? ? Ha Hx']; subst. rewrite behind_cons in Hk.
    destruct (IH _ _ _ _ Hx' Hk) as (r' & E).
    exists r'. cbn [app star]. rewrite Ha, E. reflexivity.
Qed.

Lemma search_sound r s : forall b m,
  search r b s = Some m ->
  exists x y, s = x ++ y /\ match_at r (mkCursor (behind b x) y) = Some m.
Proof.
  induction s as [|a t IH]; intros b m H.
  - cbn [search] in H. exists [], []. split; [reflexivity|].
    cbn [behind map last]. destruct (match_at r (mkCursor b []));
      [exact H|discriminate].
  - cbn [search] in H.
    destruct (match_at r (mkCursor b (a :: t))) as [m'|] eqn:E.
    + exists [], (a :: t). split; [reflexivity|]. rewrite <- H. exact E.
    + destruct (IH _ _ H) as (x & y & -> & Hm).
      exists (a :: x), y. rewrite behind_cons. auto.
Qed.

Lemma search_complete r x : forall b y m,
  match_at r (mkCursor (behind b x) y) = Some m ->
  exists m', search r b (x ++ y) = Some m'.
Proof.
  induction x as [|a x IH]; intros b y m H.
  - exists m. apply search_hit. exact H.
  - rewrite behind_cons in H. destruct (IH _ _ _ H) as (m' & E).
    cbn [app search].
    destruct (match_at r (mkCursor b (a :: x ++ y))) as [m0|];
      [exists m0|exists m']; [reflexivity|exact E].
Qed.

(** ** The signature parser, on any title *)

Lemma signature_at_sound c m :
  match_at signature_re c = Some m ->
  (exists x y z, ahead c = x ++ "("%char :: y ++ ")"%char :: z
                 /\ no_newline y)
  /\ exists a1 a2 b1 b2, snd m = [(2, (a1, a2)); (1, (b1, b2))].
Proof.
  unfold match_at, signature_re. cbn [run]. intros H.
  apply star_sound in H. destruct H as (x & s1 & E1 & _ & H).
  cbn [ahead] in H. destruct s1 as [|a s1]; [discriminate|].
  unfold is_char in H. destruct (Ascii.eqb "(" a) eqn:Ea; [|discriminate].
  apply Ascii.eqb_eq in Ea. subst a.
  apply star_sound in H. destruct H as (y & s2 & E2 & Hy & H).
  cbn [ahead] in H. destruct s2 as [|b s2]; [discriminate|].
  destruct (Ascii.eqb ")" b) eqn:Eb; [|discriminate].
  apply Ascii.eqb_eq in Eb. subst b. injection H as <-. split.
  - exists x, y, s2. rewrite E1, E2. split; [reflexivity|exact Hy].
  - cbn [snd]. eauto.
Qed.

Lemma signature_at_complete b y z :
  no_newline y ->
  exists m, match_at signature_re
              (mkCursor b ("("%char :: y ++ ")"%char :: z)) = Some m.
Proof.
  intros Hy. unfold match_at, signature_re. cbn [run before ahead].
  assert (exists r,
            star dot (Some "("%char) (y ++ ")"%char :: z)
              (fun c'0 =>
                 match ahead c'0 with
                 | [] => None
                 | a0 :: t0 =>
                     if is_char ")" a0
                     then Some (mkCursor (Some a0) t0,
                                [(2, (length (y ++ ")"%char :: z),
                                      length (ahead c'0)));
                                 (1, (length ("("%char :: y ++ ")"%char :: z),
                                      length ("("%char :: y ++ ")"%char :: z)))])
                     else None
                 end) = Some r) as (r & Hr).
  { eapply star_complete; [exact Hy|]. cbn [ahead].
    change (is_char ")" ")") with true. reflexivity. }
  eapply (star_complete dot [] b); [constructor|].
  cbn [behind map last ahead]. change (is_char "(" "(") with true.
  cbv iota. exact Hr.
Qed.

Lemma signatureGroups_None t : signatureGroups t = None <-> ~ hasCall t.
Proof.
  unfold signatureGroups, hasCall. split.
  - intros H (x & y & z & -> & Hy).
    destruct (signature_at_complete (behind None x) y z Hy) as (m & Hm).
    destruct (search_complete _ _ _ _ _ Hm) as ([c g] & Hs).
    rewrite Hs in H.
    destruct (search_sound _ _ _ _ Hs) as (x' & y' & _ & Hm').
    destruct (signature_at_sound _ _ Hm') as [_ (a1 & a2 & b1 & b2 & Hg)].
    cbn [snd] in Hg. subst g. unfold group in H.
    cbn [lookup_group Nat.eqb] in H. discriminate.
  - intros H. destruct (search signature_re None t) as [[c g]|] eqn:Hs;
      [|reflexivity].
    exfalso. apply H.
    destruct (search_sound _ _ _ _ Hs) as (x' & y' & -> & Hm').
    destruct (signature_at_sound _ _ Hm') as [(x & y & z & E & Hy) _].
    cbn [ahead] in E. subst y'. exists (x' ++ x), y, z.
    rewrite <- app_assoc. auto.
Qed.

(** X1. [parseParameters] dies exactly on the titles that, once the
    stray spaces are stripped, have no opening parenthesis followed on
    the same line by a closing one; on every other title it returns a
    name that ends in a pair of parentheses. *)
Theorem parseParameters_dies_without_call (ttl : jstr) :
  (parseParameters ttl = Fatal <-> ~ hasCall (stripSpaces ttl))
  /\ (forall name p, parseParameters ttl = Ok (name, p) ->
        hasCall (stripSpaces ttl) /\ endsWith (str "()") name = true).
Proof.
  unfold parseParameters. split.
  - rewrite <- signatureGroups_None.
    destruct (signatureGroups (stripSpaces ttl)) as [[n ps]|]; cbn.
    + split; discriminate.
    + split; reflexivity.
  - intros name p H.
    destruct (signatureGroups (stripSpaces ttl)) as [[n ps]|] eqn:E;
      [|discriminate].
    cbn in H. injection H as <- <-. split.
    + destruct (signatureGroups_None (stripSpaces ttl)) as [_ Hn].
      assert (~ ~ hasCall (stripSpaces ttl)) as Hnn.
      { intros Hc. rewrite (Hn Hc) in E. discriminate. }
      destruct (search signature_re None (stripSpaces ttl)) as [[c g]|] eqn:Hs.
      * destruct (search_sound _ _ _ _ Hs) as (x' & y' & Ex & Hm').
        destruct (signature_at_sound _ _ Hm') as [(x & y & z & Ey & Hy) _].
        cbn [ahead] in Ey. subst y'. exists (x' ++ x), y, z.
        rewrite <- app_assoc. auto.
      * unfold signatureGroups in E. rewrite Hs in E. discriminate.
    + unfold endsWith. rewrite rev_app_distr. reflexivity.
Qed.

(** ** Stray spaces *)

Lemma tidy_strip_from s : forall b, tidy b (strip_from b s) = true.
Proof.
  induction s as [|a t IH]; intros b; [reflexivity|].
  cbn [strip_from]. destruct (kept b a) eqn:E.
  - cbn [tidy]. rewrite E, IH. reflexivity.
  - unfold kept in E. apply orb_false_iff in E. destruct E as [Ea Eb].
    apply negb_false_iff in Ea. unfold is_char in Ea.
    apply Ascii.eqb_eq in Ea. subst a.
    specialize (IH (Some " "%char)).
    destruct (strip_from (Some " "%char) t) as [|c u] eqn:Eu; [reflexivity|].
    cbn [tidy] in IH |- *. apply andb_true_iff in IH. destruct IH as [Hk Ht].
    rewrite Ht, andb_true_r. unfold kept in Hk |- *.
    change (is_char "," " ") with false in Hk. rewrite orb_false_r in Hk.
    rewrite Hk. reflexivity.
Qed.

Lemma strip_from_tidy s : forall b, tidy b s = true -> strip_from b s = s.
Proof.
  induction s as [|a t IH]; intros b H; [reflexivity|].
  cbn [tidy] in H. apply andb_true_iff in H. destruct H as [Hk Ht].
  cbn [strip_from]. rewrite Hk, (IH _ Ht). reflexivity.
Qed.

Lemma removeSpaces_strip_from s : forall b,
  removeSpaces (strip_from b s) = removeSpaces s.
Proof.
  unfold removeSpaces. induction s as [|a t IH]; intros b; [reflexivity|].
  cbn [strip_from]. destruct (kept b a) eqn:E.
  - cbn [filter]. rewrite IH. reflexivity.
  - unfold kept in E. apply orb_false_iff in E. destruct E as [Ea _].
    apply negb_false_iff in Ea. unfold is_char in Ea.
    apply Ascii.eqb_eq in Ea. subst a. cbn [filter]. apply IH.
Qed.

Lemma tidy_space b x : forall y,
  tidy b (x ++ " "%char :: y) = true ->
  behind b x = Some ","%char.
Proof.
  revert b. induction x as [|a x IH]; intros b y H.
  - cbn [app tidy] in H. apply andb_true_iff in H. destruct H as [H _].
    unfold kept, is_char in H.
    change (Ascii.eqb " " " ") with true in H. cbn [negb orb] in H.
    destruct b as [c|]; [|discriminate].
    apply Ascii.eqb_eq in H. subst c. reflexivity.
  - rewrite behind_cons. cbn [app tidy] in H.
    apply andb_true_iff in H. destruct H as [_ H]. exact (IH _ _ H).
Qed.

(** X2. What [parseParameters] strips from a title: in the result every
    space stands right after a comma; the characters other than spaces
    are all there, in order; and a text in which every space stands right
    after a comma is left as it is, so stripping twice is stripping
    once. *)
Theorem stripSpaces_leaves_spaces_after_commas (s : jstr) :
  (forall x y, stripSpaces s = x ++ " "%char :: y ->
               exists x', x = x' ++ [","%char])
  /\ removeSpaces (stripSpaces s) = removeSpaces s
  /\ stripSpaces (stripSpaces s) = stripSpaces s.
Proof.
  rewrite !stripSpaces_strip_from. split; [|split].
  - intros x y E. pose proof (tidy_strip_from s None) as H.
    rewrite E in H. apply tidy_space in H.
    destruct (exists_last (l := x)) as (x' & c & ->).
    { intros ->. discriminate H. }
    exists x'. unfold behind in H. rewrite map_app in H. cbn [map] in H.
    rewrite last_last in H.
    injection H as ->. reflexivity.
  - apply removeSpaces_strip_from.
  - apply strip_from_tidy, tidy_strip_from.
Qed.

(** ** Titles *)

Lemma star_greedy {R} p s : forall b (f : cursor -> R),
  star p b s (fun c => Some (f c))
  = Some (f (mkCursor (behind b (takeWhile p s)) (dropWhile p s))).
Proof.
  induction s as [|a t IH]; intros b f; [reflexivity|].
  cbn [star takeWhile dropWhile]. destruct (p a); [|reflexivity].
  rewrite IH, behind_cons. reflexivity.
Qed.

Lemma take_drop_length {A} (p : A -> bool) l :
  length l = length (takeWhile p l) + length (dropWhile p l).
Proof.
  induction l as [|a t IH]; [reflexivity|].
  cbn [takeWhile dropWhile]. destruct (p a); cbn [length]; lia.
Qed.

Lemma match_at_blank b a t :
  match_at blank_re (mkCursor b (a :: t))
  = if space a
    then Some (mkCursor (behind (Some a) (takeWhile space t))
                        (dropWhile space t), [])
    else None.
Proof.
  unfold match_at, blank_re. cbn [run ahead before].
  destruct (space a); [|reflexivity].
  apply (star_greedy space t (Some a) (fun c => (c, []))).
Qed.

Lemma gsub_blank s :
  (forall b, gsub blank_re (fun _ => str " ") 0 b s = squeeze false s)
  /\ (forall b, gsub blank_re (fun _ => str " ")
                     (length (takeWhile space s)) b s = squeeze true s).
Proof.
  induction s as [|a t [IH0 IH1]].
  - split; intros b; reflexivity.
  - assert (forall b, gsub blank_re (fun _ => str " ") 0 b (a :: t)
                      = squeeze false (a :: t)) as H0.
    { intros b. rewrite gsub_cons, match_at_blank. cbn [squeeze].
      destruct (space a).
      - cbn [ahead].
        replace (length (a :: t) - length (dropWhile space t))
          with (S (length (takeWhile space t)))
          by (cbn [length]; rewrite (take_drop_length space t); lia).
        rewrite IH1. reflexivity.
      - rewrite IH0. reflexivity. }
    split; [exact H0|]. intros b. cbn [takeWhile squeeze].
    destruct (space a) eqn:Ea.
    + cbn [length gsub]. apply IH1.
    + cbn [length]. rewrite H0. cbn [squeeze]. rewrite Ea. reflexivity.
Qed.

Lemma clean_squeeze s : forall i, clean i (squeeze i s) = true.
Proof.
  induction s as [|a t IH]; intros i; [reflexivity|].
  cbn [squeeze]. destruct (space a) eqn:Ea.
  - destruct i; [apply IH|].
    cbn [clean]. change (space " ") with true. cbv iota.
    rewrite IH. reflexivity.
  - cbn [clean]. rewrite Ea. apply IH.
Qed.

Lemma squeeze_clean s : forall i, clean i s = true -> squeeze i s = s.
Proof.
  induction s as [|a t IH]; intros i H; [reflexivity|].
  cbn [clean] in H. cbn [squeeze]. destruct (space a).
  - apply andb_true_iff in H. destruct H as [H Ht].
    apply andb_true_iff in H. destruct H as [Ha Hi].
    apply Ascii.eqb_eq in Ha. subst a.
    destruct i; [discriminate|]. rewrite (IH _ Ht). reflexivity.
  - rewrite (IH _ H). reflexivity.
Qed.

Lemma clean_weaken s : clean true s = true -> clean false s = true.
Proof.
  destruct s as [|a t]; [reflexivity|]. cbn [clean].
  destruct (space a); [|auto].
  rewrite andb_false_r. discriminate.
Qed.

Lemma clean_app_l x : forall i y, clean i (x ++ y) = true -> clean i x = true.
Proof.
  induction x as [|a x IH]; intros i y H; [reflexivity|].
  cbn [app clean] in H |- *. destruct (space a).
  - apply andb_true_iff in H. destruct H as [H Ht].
    rewrite H. exact (IH _ _ Ht).
  - exact (IH _ _ H).
Qed.

Lemma clean_trimStart s :
  clean false s = true -> clean false (trimStart s) = true.
Proof.
  unfold trimStart. destruct s as [|a t]; [reflexivity|].
  cbn [clean dropWhile]. destruct (space a) eqn:Ea.
  - intros H. apply andb_true_iff in H. destruct H as [_ Ht].
    destruct t as [|c u]; [reflexivity|].
    cbn [clean dropWhile] in Ht |- *. destruct (space c) eqn:Ec.
    + rewrite andb_false_r in Ht. discriminate.
    + cbn [clean]. rewrite Ec. exact Ht.
  - intros H. cbn [clean]. rewrite Ea. exact H.
Qed.

Lemma dropWhile_head {A} (p : A -> bool) l a t :
  dropWhile p l = a :: t -> p a = false.
Proof.
  induction l as [|c l IH]; [discriminate|].
  cbn [dropWhile]. destruct (p c) eqn:E; [exact IH|].
  intros H. injection H as <- _. exact E.
Qed.

Lemma dropWhile_fixed {A} (p : A -> bool) l :
  match l with a :: _ => p a = false | [] => True end -> dropWhile p l = l.
Proof. destruct l as [|a t]; [reflexivity|]. cbn. intros ->. reflexivity. Qed.

Lemma trimEnd_prefix s : exists w, s = trimEnd s ++ w.
Proof.
  unfold trimEnd. exists (rev (takeWhile space (rev s))).
  rewrite <- rev_app_distr.
  assert (forall l : jstr, takeWhile space l ++ dropWhile space l = l) as H.
  { induction l as [|a t IH]; [reflexivity|].
    cbn [takeWhile dropWhile]. destruct (space a); [|reflexivity].
    cbn [app]. rewrite IH. reflexivity. }
  rewrite H. symmetry. apply rev_involutive.
Qed.

Lemma trimEnd_last s x a : trimEnd s = x ++ [a] -> space a = false.
Proof.
  unfold trimEnd. intros H. apply (f_equal (@rev ascii)) in H.
  rewrite rev_involutive, rev_app_distr in H. cbn [rev app] in H.
  exact (dropWhile_head _ _ _ _ H).
Qed.

Lemma trimEnd_fixed s :
  (forall x a, s = x ++ [a] -> space a = false) -> trimEnd s = s.
Proof.
  intros H. unfold trimEnd. rewrite dropWhile_fixed; [apply rev_involutive|].
  destruct (rev s) as [|a t] eqn:E; [exact I|].
  apply (H (rev t) a). rewrite <- (rev_involutive s), E. reflexivity.
Qed.

Lemma trim_head s a t : trim s = a :: t -> space a = false.
Proof.
  unfold trim. intros H.
  destruct (trimEnd_prefix (trimStart s)) as (w & E).
  rewrite H in E. cbn [app] in E. unfold trimStart in E.
  exact (dropWhile_head _ _ _ _ E).
Qed.

(** The shape of a title: its white space is single spaces, none at the
    start and none at the end. *)
Lemma normalizeTitle_shape t :
  clean false (normalizeTitle t) = true
  /\ (forall a u, normalizeTitle t = a :: u -> space a = false)
  /\ (forall x a, normalizeTitle t = x ++ [a] -> space a = false).
Proof.
  unfold normalizeTitle, replace_all.
  rewrite (proj1 (gsub_blank t) None). split; [|split].
  - unfold trim.
    destruct (trimEnd_prefix (trimStart (squeeze false t))) as (w & E).
    apply (clean_app_l _ false w). rewrite <- E.
    apply clean_trimStart, clean_squeeze.
  - apply trim_head.
  - unfold trim. apply trimEnd_last.
Qed.

Lemma normalizeTitle_fixed r :
  clean false r = true ->
  (forall a u, r = a :: u -> space a = false) ->
  (forall x a, r = x ++ [a] -> space a = false) ->
  normalizeTitle r = r.
Proof.
  intros Hc Hh Hl. unfold normalizeTitle, replace_all.
  rewrite (proj1 (gsub_blank r) None), (squeeze_clean _ _ Hc).
  unfold trim, trimStart. rewrite dropWhile_fixed.
  - apply trimEnd_fixed, Hl.
  - destruct r as [|a u]; [exact I|]. apply (Hh a u eq_refl).
Qed.

Lemma clean_spaces s : forall i, clean i s = true ->
  Forall (fun a => space a = true -> a = " "%char) s
  /\ forall x y, s <> x ++ " "%char :: " "%char :: y.
Proof.
  induction s as [|a t IH]; intros i H.
  - split; [constructor|]. intros [|? ?] y E; discriminate E.
  - cbn [clean] in H. destruct (space a) eqn:Ea.
    + apply andb_true_iff in H. destruct H as [H Ht].
      apply andb_true_iff in H. destruct H as [Ha _].
      apply Ascii.eqb_eq in Ha. subst a.
      destruct (IH _ Ht) as [F N]. split; [constructor; auto|].
      intros [|c x] y E.
      * injection E as ->. cbn [clean] in Ht.
        change (space " ") with true in Ht. cbv iota in Ht.
        rewrite andb_false_r in Ht. discriminate.
      * injection E as _ E. exact (N _ _ E).
    + destruct (IH _ H) as [F N]. split.
      * constructor; [|exact F]. intros Hs. congruence.
      * intros [|c x] y E.
        -- injection E as -> _. vm_compute in Ea. discriminate Ea.
        -- injection E as _ E. exact (N _ _ E).
Qed.

Lemma clean_no_newline s i : clean i s = true -> no_newline s.
Proof.
  intros H. destruct (clean_spaces _ _ H) as [F _].
  unfold no_newline. rewrite Forall_forall in *. intros a Ha.
  specialize (F a Ha). unfold dot.
  destruct (line_terminator a) eqn:E; [|reflexivity].
  assert (space a = true) as Hs.
  { unfold line_terminator in E. apply orb_true_iff in E.
    destruct E as [E|E]; apply Ascii.eqb_eq in E; subst a; reflexivity. }
  rewrite (F Hs) in E. discriminate.
Qed.

(** X3. The title [buildTOC] makes of the text of a heading: its only
    white space is single spaces (no tab, no line break, no two spaces in
    a row), it neither starts nor ends with white space, it has no line
    terminator, and making a title of a title changes nothing. *)
Theorem normalizeTitle_is_normal (t : jstr) :
  Forall (fun a => space a = true -> a = " "%char) (normalizeTitle t)
  /\ (forall x y, normalizeTitle t <> x ++ " "%char :: " "%char :: y)
  /\ (forall a u, normalizeTitle t = a :: u -> space a = false)
  /\ (forall x a, normalizeTitle t = x ++ [a] -> space a = false)
  /\ no_newline (normalizeTitle t)
  /\ normalizeTitle (normalizeTitle t) = normalizeTitle t.
Proof.
  destruct (normalizeTitle_shape t) as (Hc & Hh & Hl).
  destruct (clean_spaces _ _ Hc) as [F N].
  repeat split; auto.
  - exact (clean_no_newline _ _ Hc).
  - apply normalizeTitle_fixed; assumption.
Qed.

(** ** The table of contents *)

Lemma Node_nested_ind (P : Node -> Prop) :
  (forall s, P (TextNode s)) ->
  (forall tag i kids, Forall P kids -> P (Element tag i kids)) ->
  forall n, P n.
Proof.
  intros Ht He. fix IH 1. intros [s|tag i kids]; [apply Ht|].
  apply He. induction kids as [|k kids IHk]; constructor; [apply IH|exact IHk].
Qed.

Lemma everywhere_Forall P s :
  everywhere P s <-> P s /\ Forall (everywhere P) (children s).
Proof.
  destruct s as [t i cs]. cbn [everywhere children].
  assert ((fix all (l : list Section) : Prop :=
             match l with
             | [] => True
             | c :: l' => everywhere P c /\ all l'
             end) cs <-> Forall (everywhere P) cs) as H.
  { induction cs as [|c cs IH]; split; intros H.
    - constructor.
    - exact I.
    - destruct H as [Hc Hcs]. constructor; [exact Hc|apply IH, Hcs].
    - inversion H; subst. split; [assumption|apply IH; assumption]. }
  rewrite H. reflexivity.
Qed.

Lemma buildTOC_Element tag i kids :
  buildTOC (Element tag i kids)
  = flat_map
      (fun el =>
         if hasTag "emu-clause" el
         then [ mkSection (normalizeTitle (headingText el)) (idOf el)
                          (buildTOC el) ]
         else [])
      kids.
Proof. reflexivity. Qed.

(** X4. The table of contents [buildTOC] makes of a document tree has
    one section for each clause element right under the root, in order
    and with the id of the clause, whatever else stands between them;
    and everywhere in it, at every depth, the title of a section is a
    normal title: making a title of it changes nothing, and it has no
    line terminator. *)
Theorem buildTOC_sections_and_titles (root : Node) :
  map id (buildTOC root)
  = map idOf (filter (hasTag "emu-clause") (kidsOf root))
  /\ map children (buildTOC root)
     = map buildTOC (filter (hasTag "emu-clause") (kidsOf root))
  /\ Forall (everywhere (fun s => normalizeTitle (title s) = title s
                                  /\ no_newline (title s)))
            (buildTOC root).
Proof.
  split; [|split].
  - destruct root as [s|tag i kids]; [reflexivity|].
    rewrite buildTOC_Element. cbn [kidsOf].
    induction kids as [|k kids IH]; [reflexivity|].
    cbn [flat_map filter]. destruct (hasTag "emu-clause" k); [|exact IH].
    cbn [app map id]. rewrite IH. reflexivity.
  - destruct root as [s|tag i kids]; [reflexivity|].
    rewrite buildTOC_Element. cbn [kidsOf].
    induction kids as [|k kids IH]; [reflexivity|].
    cbn [flat_map filter]. destruct (hasTag "emu-clause" k); [|exact IH].
    cbn [app map children]. rewrite IH. reflexivity.
  - induction root as [s|tag i kids IH] using Node_nested_ind.
    + constructor.
    + rewrite buildTOC_Element.
      induction IH as [|k kids Hk _ IHkids]; [constructor|].
      cbn [flat_map]. apply Forall_app. split; [|exact IHkids].
      destruct (hasTag "emu-clause" k); [|constructor].
      constructor; [|constructor].
      apply everywhere_Forall. cbn [title children]. split; [|exact Hk].
      destruct (normalizeTitle_shape (headingText k)) as (Hc & Hh & Hl).
      split.
      * apply normalizeTitle_fixed; assumption.
      * exact (clean_no_newline _ _ Hc).
Qed.

(** ** The other branches of the reclassifier *)

Lemma title_is_eq t s : title_is t s = true <-> title s = str t.
Proof. apply jstr_eqb_eq. Qed.

Lemma slice_inner {A} (a m c : list A) :
  slice (a ++ m ++ c) (Z.of_nat (length a))
        (Z.of_nat (length a + length m)) = m.
Proof.
  unfold slice, rel_index. rewrite !length_app, !of_nat_not_negative.
  replace (Z.to_nat (Z.min (Z.of_nat (length a))
                       (Z.of_nat (length a + (length m + length c)))))
    with (length a) by lia.
  replace (Z.to_nat (Z.min (Z.of_nat (length a + length m))
                       (Z.of_nat (length a + (length m + length c)))
                     - Z.min (Z.of_nat (length a))
                         (Z.of_nat (length a + (length m + length c)))))
    with (length m) by lia.
  rewrite skipn_length_app. apply firstn_length_app.
Qed.

Lemma slice_from_suffix {A} (a b : list A) :
  slice_from (a ++ b) (Z.of_nat (length a)) = b.
Proof.
  unfold slice_from. rewrite length_app.
  rewrite <- (app_nil_r b) at 1. rewrite (slice_inner a b []).
  reflexivity.
Qed.

Lemma slice_from_zero {A} (l : list A) : slice_from l 0 = l.
Proof. apply (slice_from_suffix [] l). Qed.

Lemma slice_empty_prefix {A} (l : list A) : slice l 0 0 = [].
Proof. apply (slice_prefix [] l). Qed.

Lemma slice_to_zero {A} (l : list A) k : slice l k 0 = [].
Proof.
  unfold slice, rel_index. change (0 <? 0)%Z with false. cbv iota.
  replace (Z.to_nat (Z.min 0 (Z.of_nat (length l))
                     - (if (k <? 0)%Z
                        then Z.max (Z.of_nat (length l) + k) 0
                        else Z.min k (Z.of_nat (length l)))))
    with 0 by (destruct (Z.ltb_spec k 0); lia).
  reflexivity.
Qed.

Lemma app_same_length {A} (a : list A) : forall a' b b',
  length a = length a' -> a ++ b = a' ++ b' -> a = a' /\ b = b'.
Proof.
  induction a as [|x a IH]; intros [|y a'] b b' Hl E; try discriminate.
  - auto.
  - injection Hl as Hl. injection E as -> E.
    destruct (IH _ _ _ Hl E) as [-> ->]. auto.
Qed.

Lemma reclassify_typed s :
  title_is "TypedArray Objects" s = true ->
  reclassify s =
  (let endOfTA :=
     (findIndex (title_is "Abstract Operations for TypedArray Objects")
                (children s) + 1)%Z in
   Ok [ mkSection (title s) (id s) (slice (children s) 0 endOfTA);
        mkSection (str "_TypedArray_") (id s)
                  (slice_from (children s) endOfTA) ]).
Proof.
  intros H. unfold reclassify. rewrite H.
  apply title_is_eq in H. unfold title_is at 1. rewrite H. reflexivity.
Qed.

(** X5. The "TypedArray Objects" group is split in two groups with the
    id of the group: one with its title and its children up to and
    including the first "Abstract Operations for TypedArray Objects", and
    the template _TypedArray_ with the children after it. No child is
    lost and none is in both; the split never dies, and without the
    boundary clause all children go to the template. *)
Theorem reclassify_typed_array_splits (s : Section) :
  title_is "TypedArray Objects" s = true ->
  exists before after,
    reclassify s = Ok [ mkSection (title s) (id s) before;
                        mkSection (str "_TypedArray_") (id s) after ]
    /\ before ++ after = children s
    /\ ((forall x, In x (children s) ->
           title_is "Abstract Operations for TypedArray Objects" x = false)
        -> before = [])
    /\ (forall pre b post,
          children s = pre ++ b :: post ->
          title_is "Abstract Operations for TypedArray Objects" b = true ->
          (forall x, In x pre ->
             title_is "Abstract Operations for TypedArray Objects" x = false)
          -> before = pre ++ [b] /\ after = post).
Proof.
  intros H. rewrite (reclassify_typed _ H). cbv zeta.
  eexists. eexists. split; [reflexivity|].
  destruct (findIndex_cases
              (title_is "Abstract Operations for TypedArray Objects")
              (children s))
    as [[Hi Hall]|(pre & b & post & Hc & Hb & Hpre & Hi)].
  - rewrite Hi. change (-1 + 1)%Z with 0%Z.
    rewrite slice_empty_prefix, slice_from_zero.
    split; [reflexivity|]. split; [reflexivity|].
    intros pre b post Hc Hb _. exfalso.
    rewrite (Hall b) in Hb; [discriminate|].
    rewrite Hc. apply in_or_app. right. left. reflexivity.
  - rewrite Hi, Hc.
    replace (pre ++ b :: post) with ((pre ++ [b]) ++ post)
      by (rewrite <- app_assoc; reflexivity).
    replace (Z.of_nat (length pre) + 1)%Z
      with (Z.of_nat (length (pre ++ [b])))
      by (rewrite length_app; cbn [length]; lia).
    rewrite slice_prefix, slice_from_suffix.
    split; [reflexivity|]. split.
    + intros Hall. rewrite (Hall b) in Hb; [discriminate|].
      apply in_or_app. left. apply in_or_app. right. left. reflexivity.
    + intros pre' b' post' Hc' Hb' Hpre'.
      assert (Z.of_nat (length pre') = Z.of_nat (length pre)) as Hlen.
      { rewrite <- (findIndex_hit _ pre' b' post' Hpre' Hb'), <- Hc'.
        replace ((pre ++ [b]) ++ post) with (pre ++ b :: post)
          by (rewrite <- app_assoc; reflexivity).
        apply findIndex_hit; assumption. }
      rewrite <- app_assoc in Hc'. cbn [app] in Hc'.
      apply Nat2Z.inj in Hlen.
      assert (pre = pre' /\ b :: post = b' :: post') as [-> E].
      { apply app_same_length; [symmetry; exact Hlen|exact Hc']. }
      injection E as -> ->. split; reflexivity.
Qed.

Lemma reclassify_typed_array_splits_witness :
  exists before after,
    reclassify typedArrayObjects
    = Ok [ mkSection (title typedArrayObjects) (id typedArrayObjects) before;
           mkSection (str "_TypedArray_") (id typedArrayObjects) after ]
    /\ before ++ after = children typedArrayObjects
    /\ ((forall x, In x (children typedArrayObjects) ->
           title_is "Abstract Operations for TypedArray Objects" x = false)
        -> before = [])
    /\ (forall pre b post,
          children typedArrayObjects = pre ++ b :: post ->
          title_is "Abstract Operations for TypedArray Objects" b = true ->
          (forall x, In x pre ->
             title_is "Abstract Operations for TypedArray Objects" x = false)
          -> before = pre ++ [b] /\ after = post).
Proof. exact (reclassify_typed_array_splits typedArrayObjects eq_refl). Defined.

Lemma title_is_other a b s :
  title_is a s = true -> jstr_eqb (str a) (str b) = false ->
  title_is b s = false.
Proof.
  intros H E. apply title_is_eq in H. unfold title_is. rewrite H. exact E.
Qed.

Lemma reclassify_object s :
  title_is "Object Objects" s = true ->
  reclassify s =
  (let prototypeProps :=
     findIndex (title_is "Properties of the Object Prototype Object")
               (children s) in
   prototypePropsSection <-
     defined (if (prototypeProps <? 0)%Z then None
              else nth_error (children s) (Z.to_nat prototypeProps)) ;;;
   Ok [ mkSection (title s) None
          (toSpliced1 (children s) (Z.to_nat prototypeProps)
             (mkSection (title prototypePropsSection)
                (id prototypePropsSection)
                (liftLegacy (children prototypePropsSection)))) ]).
Proof.
  intros H. unfold reclassify.
  rewrite (title_is_other _ "Error Objects" _ H eq_refl).
  rewrite (title_is_other _ "TypedArray Objects" _ H eq_refl).
  rewrite H. reflexivity.
Qed.

(** X6. The "Object Objects" group dies when it has no child titled
    "Properties of the Object Prototype Object". Otherwise it becomes one
    group with the same title and no id, whose children are those of the
    group, in place, but for the first child with that title: this one
    keeps title and id, and among its children each "Legacy
    Object.prototype Accessor Methods" clause is replaced by its own
    children. *)
Theorem reclassify_object_objects (s : Section) :
  title_is "Object Objects" s = true ->
  ((forall x, In x (children s) ->
      title_is "Properties of the Object Prototype Object" x = false) ->
   reclassify s = Fatal)
  /\ (forall pre p post,
        children s = pre ++ p :: post ->
        title_is "Properties of the Object Prototype Object" p = true ->
        (forall x, In x pre ->
           title_is "Properties of the Object Prototype Object" x = false) ->
        reclassify s
        = Ok [ mkSection (title s) None
                 (pre ++ mkSection (title p) (id p) (liftLegacy (children p))
                      :: post) ]).
Proof.
  intros H. rewrite (reclassify_object _ H). cbv zeta. split.
  - intros Hall. rewrite (findIndex_miss _ _ Hall). reflexivity.
  - intros pre p post Hc Hp Hpre.
    rewrite Hc, (findIndex_hit _ pre p post Hpre Hp).
    rewrite of_nat_not_negative, Nat2Z.id.
    rewrite nth_error_app2 by lia. rewrite Nat.sub_diag.
    cbn [nth_error defined bind]. unfold toSpliced1.
    rewrite firstn_length_app.
    replace (S (length pre)) with (length (pre ++ [p]))
      by (rewrite length_app; cbn [length]; lia).
    replace (pre ++ p :: post) with ((pre ++ [p]) ++ post)
      by (rewrite <- app_assoc; reflexivity).
    rewrite skipn_length_app. reflexivity.
Qed.

Lemma reclassify_object_objects_witness :
  reclassify objectObjects
  = Ok [ mkSection (str "Object Objects") None
           [ clause "The Object Constructor" [];
             clause "Properties of the Object Prototype Object"
               [ leaf "Object.prototype.constructor"
                      "sec-object.prototype.constructor";
                 leaf "Object.prototype.__defineGetter__ ( P, getter )"
                      "sec-object.prototype.__defineGetter__" ];
             clause "Properties of Object Instances" [] ] ].
Proof.
  apply (proj2 (reclassify_object_objects objectObjects eq_refl)
           [clause "The Object Constructor" []] _
           [clause "Properties of Object Instances" []] eq_refl eq_refl).
  intros x [<-|[]]. reflexivity.
Defined.

Lemma find_none_iff {A} (f : A -> bool) l :
  find f l = None <-> forall x, In x l -> f x = false.
Proof.
  split.
  - apply find_none.
  - induction l as [|a l IH]; intros H; [reflexivity|].
    cbn [find]. rewrite (H a (or_introl eq_refl)).
    apply IH. intros x Hx. apply H. right. exact Hx.
Qed.

Lemma reclassify_iteration s :
  title_is "Iteration" s = true ->
  reclassify s =
  (a <- defined (find (title_is "The %IteratorPrototype% Object")
                      (children s)) ;;;
   b <- defined (find (title_is "The %AsyncIteratorPrototype% Object")
                      (children s)) ;;;
   Ok [a; b]).
Proof.
  intros H. unfold reclassify.
  rewrite (title_is_other _ "Error Objects" _ H eq_refl).
  rewrite (title_is_other _ "TypedArray Objects" _ H eq_refl).
  rewrite (title_is_other _ "Object Objects" _ H eq_refl).
  rewrite H. reflexivity.
Qed.

Lemma find_first {A} (f : A -> bool) l a :
  find f l = Some a ->
  exists pre post,
    l = pre ++ a :: post /\ f a = true
    /\ forall x, In x pre -> f x = false.
Proof.
  induction l as [|x l IH]; [discriminate|]. cbn [find].
  destruct (f x) eqn:E.
  - intros H. injection H as <-. exists [], l.
    split; [reflexivity|]. split; [exact E|]. intros y [].
  - intros H. destruct (IH H) as (pre & post & -> & Ha & Hpre).
    exists (x :: pre), post. split; [reflexivity|]. split; [exact Ha|].
    intros y [<-|Hy]; [exact E|apply Hpre, Hy].
Qed.

(** X7. The "Iteration" group itself is dropped: what is left of it are
    two groups, its first child titled "The %IteratorPrototype% Object"
    and its first child titled "The %AsyncIteratorPrototype% Object", in
    this order wherever they stand in the document; the other children
    are dropped. The script dies exactly when one of the two is
    missing. *)
Theorem reclassify_iteration_keeps_two (s : Section) :
  title_is "Iteration" s = true ->
  (reclassify s = Fatal <->
   (forall x, In x (children s) ->
      title_is "The %IteratorPrototype% Object" x = false)
   \/ (forall x, In x (children s) ->
         title_is "The %AsyncIteratorPrototype% Object" x = false))
  /\ (forall out, reclassify s = Ok out ->
        exists a b,
          out = [a; b]
          /\ title a = str "The %IteratorPrototype% Object"
          /\ title b = str "The %AsyncIteratorPrototype% Object"
          /\ (exists pre post,
                children s = pre ++ a :: post
                /\ forall x, In x pre ->
                     title_is "The %IteratorPrototype% Object" x = false)
          /\ (exists pre post,
                children s = pre ++ b :: post
                /\ forall x, In x pre ->
                     title_is "The %AsyncIteratorPrototype% Object" x
                     = false)).
Proof.
  intros H. rewrite (reclassify_iteration _ H).
  rewrite <- !find_none_iff.
  destruct (find (title_is "The %IteratorPrototype% Object") (children s))
    as [a|] eqn:Ea;
    destruct (find (title_is "The %AsyncIteratorPrototype% Object")
                   (children s)) as [b|] eqn:Eb; cbn [defined bind].
  - split; [split; [discriminate|intros [K|K]; discriminate K]|].
    intros out E. injection E as <-. exists a, b.
    apply find_first in Ea, Eb.
    destruct Ea as (pa & qa & Ca & Ta & Fa), Eb as (pb & qb & Cb & Tb & Fb).
    apply title_is_eq in Ta, Tb.
    split; [reflexivity|]. split; [exact Ta|]. split; [exact Tb|].
    split; [exists pa, qa|exists pb, qb]; split; assumption.
  - split; [split; auto|discriminate].
  - split; [split; auto|discriminate].
  - split; [split; auto|discriminate].
Qed.

Lemma reclassify_iteration_keeps_two_witness :
  (reclassify iteration = Fatal <->
   (forall x, In x (children iteration) ->
      title_is "The %IteratorPrototype% Object" x = false)
   \/ (forall x, In x (children iteration) ->
         title_is "The %AsyncIteratorPrototype% Object" x = false))
  /\ (forall out, reclassify iteration = Ok out ->
        exists a b,
          out = [a; b]
          /\ title a = str "The %IteratorPrototype% Object"
          /\ title b = str "The %AsyncIteratorPrototype% Object"
          /\ (exists pre post,
                children iteration = pre ++ a :: post
                /\ forall x, In x pre ->
                     title_is "The %IteratorPrototype% Object" x = false)
          /\ (exists pre post,
                children iteration = pre ++ b :: post
                /\ forall x, In x pre ->
                     title_is "The %AsyncIteratorPrototype% Object" x
                     = false)).
Proof. exact (reclassify_iteration_keeps_two iteration eq_refl). Defined.

(** X8. Every group whose title is none of the five that the
    reclassifier knows passes through as it is, and a "Module Namespace
    Objects" group leaves nothing. So a list of groups without the five
    titles is left as it is by the reclassifier. *)
Theorem reclassify_passes_other_groups (groups : list Section) :
  (forall s, special s = false -> reclassify s = Ok [s])
  /\ (forall s, title_is "Module Namespace Objects" s = true ->
                reclassify s = Ok [])
  /\ (forallb (fun s => negb (special s)) groups = true ->
      flatMapM reclassify groups = Ok groups).
Proof.
  assert (forall s, special s = false -> reclassify s = Ok [s]) as Hother.
  { intros s H. unfold special in H.
    repeat (apply orb_false_iff in H; destruct H as [H ?]).
    unfold reclassify.
    repeat match goal with E : title_is _ s = false |- _ =>
             rewrite E; clear E end.
    reflexivity. }
  split; [exact Hother|]. split.
  - intros s H. unfold reclassify.
    rewrite (title_is_other _ "Error Objects" _ H eq_refl).
    rewrite (title_is_other _ "TypedArray Objects" _ H eq_refl).
    rewrite (title_is_other _ "Object Objects" _ H eq_refl).
    rewrite (title_is_other _ "Iteration" _ H eq_refl).
    rewrite H. reflexivity.
  - induction groups as [|s groups IH]; [reflexivity|].
    cbn [forallb]. intros H. apply andb_true_iff in H. destruct H as [Hs Hg].
    apply negb_true_iff in Hs. cbn [flatMapM].
    rewrite (Hother _ Hs), (IH Hg). reflexivity.
Qed.

(** ** The range of the built-in objects *)

Lemma slice_backwards {A} (l : list A) start stop :
  (rel_index (Z.of_nat (length l)) stop
   <= rel_index (Z.of_nat (length l)) start)%Z ->
  slice l start stop = [].
Proof.
  intros H. unfold slice. cbv zeta.
  replace (Z.to_nat (rel_index (Z.of_nat (length l)) stop
                     - rel_index (Z.of_nat (length l)) start))
    with 0 by lia.
  reflexivity.
Qed.

Lemma slice_last {A} (pre : list A) (x : A) :
  slice (pre ++ [x]) (-1) (Z.of_nat (length pre) + 1) = [x].
Proof.
  unfold slice, rel_index. cbv zeta. rewrite length_app. cbn [length].
  change (-1 <? 0)%Z with true. cbv iota.
  destruct (Z.ltb_spec (Z.of_nat (length pre) + 1) 0) as [H|_]; [lia|].
  replace (Z.to_nat (Z.max (Z.of_nat (length pre + 1) + -1) 0))
    with (length pre) by lia.
  replace (Z.to_nat
             (Z.min (Z.of_nat (length pre) + 1) (Z.of_nat (length pre + 1))
              - Z.max (Z.of_nat (length pre + 1) + -1) 0))
    with 1 by lia.
  rewrite skipn_length_app. reflexivity.
Qed.

(** X9. The groups of the built-in objects are the children of the top
    clauses from the first "Fundamental Objects" to the first
    "Reflection", both included, reclassified; the clauses before and
    after are left out. The script does not die when one of the two is
    missing or when they stand in the other order. Without a
    "Reflection" clause there is no group at all. Without a
    "Fundamental Objects" clause the range starts at the last clause:
    the groups are the children of "Reflection" when it is the last
    clause, and there is none when another clause follows it. When the
    first "Reflection" stands before the first "Fundamental Objects"
    there is no group either. *)
Theorem builtinGroups_range (t : list Section) :
  ((forall x, In x t -> title_is "Reflection" x = false) ->
   builtinGroups t = Ok [])
  /\ (forall pre fo mid refl post,
        t = pre ++ fo :: mid ++ refl :: post ->
        title_is "Fundamental Objects" fo = true ->
        title_is "Reflection" refl = true ->
        (forall x, In x pre -> title_is "Fundamental Objects" x = false) ->
        (forall x, In x (pre ++ fo :: mid) ->
                   title_is "Reflection" x = false) ->
        builtinGroups t
        = flatMapM reclassify (flat_map children (fo :: mid ++ [refl])))
  /\ (forall pre refl post,
        t = pre ++ refl :: post ->
        title_is "Reflection" refl = true ->
        (forall x, In x pre -> title_is "Reflection" x = false) ->
        (forall x, In x t -> title_is "Fundamental Objects" x = false) ->
        builtinGroups t
        = match post with
          | [] => flatMapM reclassify (children refl)
          | _ :: _ => Ok []
          end)
  /\ (forall pre refl mid fo post,
        t = pre ++ refl :: mid ++ fo :: post ->
        title_is "Reflection" refl = true ->
        title_is "Fundamental Objects" fo = true ->
        (forall x, In x pre -> title_is "Reflection" x = false) ->
        (forall x, In x (pre ++ refl :: mid) ->
                   title_is "Fundamental Objects" x = false) ->
        builtinGroups t = Ok []).
Proof.
  unfold builtinGroups. split; [|split; [|split]].
  - intros H. rewrite (findIndex_miss _ _ H). change (-1 + 1)%Z with 0%Z.
    rewrite slice_to_zero. reflexivity.
  - intros pre fo mid refl post -> Hfo Hrefl Hpre Hmid.
    rewrite (findIndex_hit _ pre fo (mid ++ refl :: post) Hpre Hfo).
    replace (pre ++ fo :: mid ++ refl :: post)
      with ((pre ++ fo :: mid) ++ refl :: post) at 2
      by (rewrite <- app_assoc; reflexivity).
    rewrite (findIndex_hit _ (pre ++ fo :: mid) refl post Hmid Hrefl).
    replace (pre ++ fo :: mid ++ refl :: post)
      with (pre ++ (fo :: mid ++ [refl]) ++ post)
      by (cbn [app]; rewrite <- app_assoc; reflexivity).
    replace (Z.of_nat (length (pre ++ fo :: mid)) + 1)%Z
      with (Z.of_nat (length pre + length (fo :: mid ++ [refl])))
      by (rewrite length_app; cbn [length]; rewrite length_app;
          cbn [length]; lia).
    rewrite slice_inner. reflexivity.
  - intros pre refl post -> Hrefl Hpre Hfo.
    rewrite (findIndex_miss _ _ Hfo).
    rewrite (findIndex_hit _ pre refl post Hpre Hrefl).
    destruct post as [|x post].
    + rewrite slice_last. cbn [flat_map]. rewrite app_nil_r. reflexivity.
    + rewrite slice_backwards; [reflexivity|].
      unfold rel_index. rewrite length_app. cbn [length].
      change (-1 <? 0)%Z with true. cbv iota.
      destruct (Z.ltb_spec (Z.of_nat (length pre) + 1) 0); lia.
  - intros pre refl mid fo post -> Hrefl Hfo Hpre Hmid.
    rewrite (findIndex_hit _ pre refl (mid ++ fo :: post) Hpre Hrefl).
    replace (pre ++ refl :: mid ++ fo :: post)
      with ((pre ++ refl :: mid) ++ fo :: post)
      by (rewrite <- app_assoc; reflexivity).
    rewrite (findIndex_hit _ (pre ++ refl :: mid) fo post Hmid Hfo).
    rewrite slice_backwards; [reflexivity|].
    unfold rel_index. rewrite !length_app. cbn [length].
    rewrite ?length_app. cbn [length].
    repeat match goal with
           | |- context [Z.ltb ?a ?b] => destruct (Z.ltb_spec a b)
           end; lia.
Qed.

Lemma builtinGroups_range_witness :
  builtinGroups smallToc
  = flatMapM reclassify
      (flat_map children
         ( clause "Fundamental Objects" [clause "Boolean Objects" []]
           :: [clause "Text Processing" [clause "String Objects" []]]
           ++ [clause "Reflection" [clause "The Reflect Object" []]] ))
  /\ builtinGroups
       [ clause "Introduction" [];
         clause "Reflection" [clause "The Reflect Object" []] ]
     = flatMapM reclassify
         (children (clause "Reflection" [clause "The Reflect Object" []]))
  /\ builtinGroups
       [ clause "Reflection" [clause "The Reflect Object" []];
         clause "The Global Object" [] ]
     = Ok []
  /\ builtinGroups
       [ clause "Reflection" [clause "The Reflect Object" []];
         clause "Fundamental Objects" [clause "Boolean Objects" []] ]
     = Ok [].
Proof.
  split; [|split; [|split]].
  - apply (proj1 (proj2 (builtinGroups_range smallToc))
             [clause "Introduction" []]
             (clause "Fundamental Objects" [clause "Boolean Objects" []])
             [clause "Text Processing" [clause "String Objects" []]]
             (clause "Reflection" [clause "The Reflect Object" []])
             [clause "The Global Object" []] eq_refl eq_refl eq_refl).
    + intros x [<-|[]]. reflexivity.
    + intros x [<-|[<-|[<-|[]]]]; reflexivity.
  - apply (proj1 (proj2 (proj2 (builtinGroups_range _)))
             [clause "Introduction" []]
             (clause "Reflection" [clause "The Reflect Object" []])
             [] eq_refl eq_refl).
    + intros x [<-|[]]. reflexivity.
    + intros x [<-|[<-|[]]]; reflexivity.
  - apply (proj1 (proj2 (proj2 (builtinGroups_range _)))
             []
             (clause "Reflection" [clause "The Reflect Object" []])
             [clause "The Global Object" []] eq_refl eq_refl).
    + intros x [].
    + intros x [<-|[<-|[]]]; reflexivity.
  - apply (proj2 (proj2 (proj2 (builtinGroups_range _)))
             []
             (clause "Reflection" [clause "The Reflect Object" []])
             []
             (clause "Fundamental Objects" [clause "Boolean Objects" []])
             [] eq_refl eq_refl eq_refl).
    + intros x [].
    + intros x [<-|[]]. reflexivity.
Defined.

(** ** Patterns as tests on strings *)

Lemma startsWith_app l s : startsWith l (l ++ s) = true.
Proof.
  induction l as [|a l IH]; [reflexivity|].
  cbn [app startsWith]. rewrite Ascii.eqb_refl. exact IH.
Qed.

Lemma startsWith_split l : forall s,
  startsWith l s = true -> exists more, s = l ++ more.
Proof.
  induction l as [|a l IH]; intros s H.
  - exists s. reflexivity.
  - destruct s as [|b s]; [discriminate|]. cbn [startsWith] in H.
    apply andb_true_iff in H. destruct H as [Hab H].
    apply Ascii.eqb_eq in Hab. subst b.
    destruct (IH _ H) as (more & ->). exists more. reflexivity.
Qed.

Lemma indexOf_split p s : forall i,
  indexOf p s = Some i ->
  s = firstn i s ++ p ++ skipn (i + length p) s.
Proof.
  induction s as [|a t IH]; intros i H.
  - cbn [indexOf] in H. destruct (startsWith p []) eqn:E; [|discriminate].
    injection H as <-. apply startsWith_split in E. destruct E as (more & E).
    destruct p; [reflexivity|discriminate].
  - cbn [indexOf] in H. destruct (startsWith p (a :: t)) eqn:E.
    + injection H as <-. apply startsWith_split in E.
      destruct E as (more & E). rewrite E at 1. cbn [firstn plus app].
      rewrite E, skipn_length_app. reflexivity.
    + destruct (indexOf p t) as [j|]; [|discriminate].
      injection H as <-. cbn [firstn plus skipn app]. f_equal. apply IH.
      reflexivity.
Qed.

Lemma match_at_Lit l b s :
  match_at (Lit l) (mkCursor b s)
  = if startsWith l s
    then Some (mkCursor (behind b l) (skipn (length l) s), [])
    else None.
Proof.
  unfold match_at. destruct (startsWith l s) eqn:E.
  - destruct (startsWith_split _ _ E) as (more & ->).
    rewrite run_Lit, skipn_length_app. reflexivity.
  - apply run_Lit_fail. exact E.
Qed.

Lemma test_Lit l s : test (Lit l) s = includes l s.
Proof.
  unfold test, includes. generalize (@None ascii) as b.
  induction s as [|a t IH]; intros b.
  - cbn [search indexOf]. rewrite match_at_Lit.
    destruct (startsWith l []); reflexivity.
  - cbn [search indexOf]. rewrite match_at_Lit.
    destruct (startsWith l (a :: t)); [reflexivity|].
    rewrite IH. destruct (indexOf l t); reflexivity.
Qed.

Lemma search_behind r s : forall a,
  (forall c s', match_at r (mkCursor (Some c) s') = None) ->
  search r (Some a) s = None.
Proof.
  induction s as [|c t IH]; intros a H; cbn [search]; rewrite H;
    [reflexivity|apply IH, H].
Qed.

Lemma search_anchored r s :
  (forall c s', match_at r (mkCursor (Some c) s') = None) ->
  search r None s = match_at r (mkCursor None s).
Proof.
  intros H. destruct s as [|a t]; cbn [search];
    destruct (match_at r _); try reflexivity.
  apply search_behind, H.
Qed.

Lemma test_accessor t : test accessor_re t = accessorTitle t.
Proof.
  unfold test. rewrite search_anchored by reflexivity.
  unfold match_at, accessor_re, accessorTitle, L. cbn [run before].
  fold (match_at (Lit (str "get ")) (mkCursor None t)).
  fold (match_at (Lit (str "set ")) (mkCursor None t)).
  rewrite !match_at_Lit.
  destruct (startsWith (str "get ") t), (startsWith (str "set ") t);
    reflexivity.
Qed.

Lemma test_getter t : test getter_re t = startsWith (str "get ") t.
Proof.
  unfold test. rewrite search_anchored by reflexivity.
  unfold getter_re, L, match_at. cbn [run before].
  fold (match_at (Lit (str "get ")) (mkCursor None t)).
  rewrite match_at_Lit. destruct (startsWith _ t); reflexivity.
Qed.

Lemma test_setter t : test setter_re t = startsWith (str "set ") t.
Proof.
  unfold test. rewrite search_anchored by reflexivity.
  unfold setter_re, L, match_at. cbn [run before].
  fold (match_at (Lit (str "set ")) (mkCursor None t)).
  rewrite match_at_Lit. destruct (startsWith _ t); reflexivity.
Qed.

Lemma behind_Some x : forall a, exists c, behind (Some a) x = Some c.
Proof.
  induction x as [|b x IH]; intros a; [exists a; reflexivity|].
  rewrite behind_cons. apply IH.
Qed.

Lemma behind_None x : behind None x = None -> x = [].
Proof.
  destruct x as [|a x]; [reflexivity|]. rewrite behind_cons.
  destruct (behind_Some x a) as (c & ->). discriminate.
Qed.

Lemma endsWith_split p s :
  endsWith p s = true <-> exists x, s = x ++ p.
Proof.
  unfold endsWith. split.
  - intros H. apply startsWith_split in H. destruct H as (more & H).
    exists (rev more). apply (f_equal (@rev ascii)) in H.
    rewrite rev_involutive, rev_app_distr, rev_involutive in H. exact H.
  - intros (x & ->). rewrite rev_app_distr. apply startsWith_app.
Qed.

Lemma leaf_re_alternatives :
  leaf_re = Alt operation_re (Alt backquote_re record_re).
Proof. reflexivity. Qed.

Lemma operation_at c m :
  match_at operation_re c = Some m ->
  before c = None /\ operationTitle (ahead c).
Proof.
  unfold match_at, operation_re. destruct c as [[b|] s]; cbn [run before ahead];
    [discriminate|].
  intros H. split; [reflexivity|].
  destruct s as [|c1 s]; [discriminate|].
  destruct (upper c1) eqn:U; [|discriminate].
  destruct s as [|c2 s]; [discriminate|].
  destruct (letter c2) eqn:Lc; [|discriminate].
  apply star_sound in H. destruct H as (l & s1 & -> & Hl & H).
  cbn [before ahead] in H.
  apply star_sound in H. destruct H as (w & s2 & -> & Hw & H).
  cbn [ahead] in H. destruct s2 as [|p more]; [discriminate|].
  unfold is_char in H. destruct (Ascii.eqb "(" p) eqn:P; [|discriminate].
  apply Ascii.eqb_eq in P. subst p.
  exists c1, (c2 :: l), w, more.
  split; [reflexivity|]. split; [exact U|]. split; [discriminate|].
  split; [constructor; assumption|exact Hw].
Qed.

Lemma operation_at_complete t :
  operationTitle t -> exists m, match_at operation_re (mkCursor None t) = Some m.
Proof.
  intros (c & l & w & more & -> & U & Hne & Hl & Hw).
  destruct l as [|c2 l]; [contradiction|].
  inversion Hl as [|? ? Hc2 Hl']; subst.
  set (K := fun c' : cursor =>
              match ahead c' with
              | [] => None
              | a :: t =>
                  if is_char "(" a
                  then Some (mkCursor (Some a) t, @nil (nat * (nat * nat)))
                  else None
              end).
  assert (exists r, star space (behind (Some c2) l)
                         (w ++ "("%char :: more) K = Some r) as (r & Hr).
  { eapply star_complete; [exact Hw|]. unfold K. cbn [ahead].
    change (is_char "(" "(") with true. reflexivity. }
  unfold match_at, operation_re. cbn [run before ahead app].
  rewrite U, Hc2.
  eapply star_complete; [exact Hl'|]. cbn [before ahead]. exact Hr.
Qed.

Lemma backquote_at c :
  match_at backquote_re c
  = match before c with
    | None => if startsWith (str "`") (ahead c)
              then Some (mkCursor (Some "`"%char) (skipn 1 (ahead c)), [])
              else None
    | Some _ => None
    end.
Proof.
  unfold match_at, backquote_re. destruct c as [[b|] s];
    cbn [run before ahead]; [reflexivity|].
  destruct s as [|a s]; [reflexivity|].
  cbn [startsWith str list_ascii_of_string]. unfold is_char.
  destruct (Ascii.eqb "`" a) eqn:E; [|reflexivity].
  apply Ascii.eqb_eq in E. subst a. reflexivity.
Qed.

Lemma record_at c m :
  match_at record_re c = Some m -> ahead c = str "Record".
Proof.
  unfold match_at, record_re, L. rewrite run_seq. intros H.
  destruct (startsWith (str "Record") (ahead c)) eqn:E.
  - destruct (startsWith_split _ _ E) as (more & Em).
    destruct c as [b s]. cbn [ahead] in *. subst s.
    rewrite run_Lit in H. cbn [run ahead] in H.
    destruct more; [reflexivity|discriminate].
  - rewrite run_Lit_fail in H by exact E. discriminate.
Qed.

Lemma record_at_complete b :
  exists m, match_at record_re (mkCursor b (str "Record")) = Some m.
Proof.
  unfold match_at, record_re, L. rewrite run_seq.
  rewrite <- (app_nil_r (str "Record")). rewrite run_Lit.
  cbn [run ahead]. eauto.
Qed.

Lemma alt_at a b c :
  match_at (Alt a b) c
  = match match_at a c with
    | Some m => Some m
    | None => match_at b c
    end.
Proof. reflexivity. Qed.

Lemma test_leaf t : test leaf_re t = true <-> leafTitle t.
Proof.
  unfold test, leafTitle. rewrite leaf_re_alternatives. split.
  - destruct (search _ None t) as [m|] eqn:E; [intros _|discriminate].
    destruct (search_sound _ _ _ _ E) as (x & y & -> & H).
    rewrite !alt_at in H.
    destruct (match_at operation_re _) as [m1|] eqn:E1.
    { destruct (operation_at _ _ E1) as [Hb Ho]. cbn [before ahead] in *.
      apply behind_None in Hb. subst x. left. exact Ho. }
    rewrite backquote_at in H. cbn [before ahead] in H.
    destruct (behind None x) eqn:Hb.
    { right. right. apply record_at in H. cbn [ahead] in H. subst y.
      apply endsWith_split. eauto. }
    apply behind_None in Hb. subst x.
    destruct (startsWith (str "`") y) eqn:Eq; [right; left; exact Eq|].
    right. right. apply record_at in H. cbn [ahead] in H. subst y.
    reflexivity.
  - intros [Ho|[Hq|Hr]].
    + destruct (operation_at_complete _ Ho) as (m & Hm).
      rewrite (search_hit _ _ _ m); [reflexivity|].
      rewrite alt_at, Hm. reflexivity.
    + assert (exists m, match_at (Alt operation_re
                                      (Alt backquote_re record_re))
                                 (mkCursor None t) = Some m) as (m & Hm).
      { rewrite !alt_at. destruct (match_at operation_re _); [eauto|].
        rewrite backquote_at. cbn [before ahead]. rewrite Hq. eauto. }
      rewrite (search_hit _ _ _ m Hm). reflexivity.
    + apply endsWith_split in Hr. destruct Hr as (x & ->).
      assert (exists m, match_at (Alt operation_re
                                      (Alt backquote_re record_re))
                                 (mkCursor (behind None x) (str "Record"))
                        = Some m) as (m & Hm).
      { rewrite !alt_at. destruct (match_at operation_re _); [eauto|].
        destruct (match_at backquote_re _); [eauto|].
        apply record_at_complete. }
      destruct (search_complete _ _ _ _ _ Hm) as (m' & ->). reflexivity.
Qed.

(** ** Bare sections *)

Lemma isAccessorPair_count s :
  isAccessorPair s = (length (accessorChildren s) =? 2).
Proof.
  unfold isAccessorPair, accessorChildren. f_equal. f_equal.
  apply filter_ext. intros c. apply test_accessor.
Qed.

(** X10. [getBareSection] returns the section it is given or dies. It
    returns it exactly when every child has no children of its own and a
    leaf title (the title of an operation: a capital, letters, maybe
    white space, an opening parenthesis; or a title that starts with a
    backquote; or one that ends in Record), or when exactly two children
    have a title that starts with "get " or "set ", whatever the other
    children are. A section without children always passes. *)
Theorem getBareSection_passes (s : Section) :
  (getBareSection s = Ok s \/ getBareSection s = Fatal)
  /\ (getBareSection s = Ok s <->
      (forall c, In c (children s) ->
                 leafTitle (title c) /\ children c = [])
      \/ length (accessorChildren s) = 2)
  /\ (children s = [] -> getBareSection s = Ok s).
Proof.
  unfold getBareSection. rewrite isAccessorPair_count.
  assert (forallb (fun c => test leaf_re (title c)
                            && (length (children c) =? 0)) (children s)
          = true
          <-> forall c, In c (children s) ->
                        leafTitle (title c) /\ children c = []) as Hall.
  { rewrite forallb_forall. split; intros H c Hc; specialize (H c Hc).
    - apply andb_true_iff in H. destruct H as [Ht Hn].
      apply test_leaf in Ht. apply Nat.eqb_eq in Hn.
      split; [exact Ht|]. destruct (children c); [reflexivity|discriminate].
    - destruct H as [Ht Hn]. apply test_leaf in Ht. rewrite Ht, Hn.
      reflexivity. }
  split; [|split].
  - destruct (_ || _); [left|right]; reflexivity.
  - rewrite <- Hall, <- Nat.eqb_eq, <- orb_true_iff.
    destruct (_ || _); cbn [assert bind]; split; auto; discriminate.
  - intros E. rewrite E. reflexivity.
Qed.

(** ** The selector of an id *)

Lemma escapeId_chars i : escapeId i = flat_map escapeChar i.
Proof.
  unfold escapeId, replace_all. generalize (@None ascii) as b.
  induction i as [|a t IH]; intros b; [reflexivity|].
  rewrite gsub_cons. unfold match_at. cbn [run ahead flat_map].
  unfold escapeChar at 1.
  destruct (Ascii.eqb a "." || Ascii.eqb a "@").
  - cbn [ahead].
    replace (length (a :: t) - length t) with 1 by (cbn [length]; lia).
    cbn [firstn app]. rewrite IH. reflexivity.
  - cbn [app]. rewrite IH. reflexivity.
Qed.

Lemma indexOf_head p s : startsWith p s = true -> indexOf p s = Some 0.
Proof. intros H. destruct s; cbn [indexOf]; rewrite H; reflexivity. Qed.

Lemma includes_app p pre post : includes p (pre ++ p ++ post) = true.
Proof.
  unfold includes. induction pre as [|a pre IH].
  - cbn [app]. rewrite indexOf_head by apply startsWith_app. reflexivity.
  - cbn [app indexOf]. destruct (startsWith _ _); [reflexivity|].
    destruct (indexOf _ _); [reflexivity|discriminate IH].
Qed.

Lemma includes_holds p :
  includes (str "has the attributes") p = true <-> holdsMarker p.
Proof.
  unfold holdsMarker. split.
  - unfold includes. destruct (indexOf _ p) as [n|] eqn:E; [|discriminate].
    intros _. apply indexOf_split in E. eexists. eexists. exact E.
  - intros (pre & post & ->). apply includes_app.
Qed.

Lemma nameChar_plain a :
  nameChar a = true -> Ascii.eqb a "." || Ascii.eqb a "@" = false.
Proof.
  intros H. destruct (Ascii.eqb a ".") eqn:E1.
  - apply Ascii.eqb_eq in E1. subst a. discriminate H.
  - destruct (Ascii.eqb a "@") eqn:E2; [|reflexivity].
    apply Ascii.eqb_eq in E2. subst a. discriminate H.
Qed.

Lemma nameChar_not_backslash a :
  nameChar a = true -> Ascii.eqb a backslash = false.
Proof.
  intros H. destruct (Ascii.eqb a backslash) eqn:E; [|reflexivity].
  apply Ascii.eqb_eq in E. subst a. discriminate H.
Qed.

Lemma isPercent_not_plain a : isPercent a = true -> plainChar a = false.
Proof.
  intros H. apply Ascii.eqb_eq in H. subst a. reflexivity.
Qed.

(** What the engine reads at the head of an escaped plain character. *)
Lemma nameRun_plainChar a s :
  plainChar a = true ->
  nameRun (escapeChar a ++ s)
  = match nameRun s with
    | Some (n, r) => Some (a :: n, r)
    | None => None
    end.
Proof.
  unfold plainChar, escapeChar. intros H.
  destruct (nameChar a) eqn:N.
  - rewrite (nameChar_plain _ N). cbn [app nameRun]. rewrite N. reflexivity.
  - cbn [orb] in H. rewrite H. cbn [app nameRun]. rewrite N.
    assert (Ascii.eqb a backslash = false) as B.
    { destruct (Ascii.eqb a backslash) eqn:E; [|reflexivity].
      apply Ascii.eqb_eq in E. subst a. discriminate H. }
    rewrite Ascii.eqb_refl. unfold is_char.
    rewrite (Ascii.eqb_sym "." a), (Ascii.eqb_sym "@" a), H.
    cbn [nameRun]. reflexivity.
Qed.

Lemma plain_not_percent a : plainChar a = true -> isPercent a = false.
Proof.
  intros H. destruct (isPercent a) eqn:E; [|reflexivity].
  rewrite (isPercent_not_plain _ E) in H. discriminate.
Qed.

Lemma escapeChar_percent a : isPercent a = true -> escapeChar a = [a].
Proof. intros H. apply Ascii.eqb_eq in H. subst a. reflexivity. Qed.

Lemma nameRun_percent a s :
  isPercent a = true -> nameRun (a :: s) = Some ([], a :: s).
Proof. intros H. apply Ascii.eqb_eq in H. subst a. reflexivity. Qed.

Lemma percentId_inv a t :
  percentId (a :: t) ->
  (plainChar a = true \/ (plainChar a = false /\ isPercent a = true))
  /\ percentId t.
Proof.
  intros H. inversion H as [|? ? Ha Ht]; subst. split; [|exact Ht].
  destruct (plainChar a); [left; reflexivity|right]. split; [reflexivity|].
  exact Ha.
Qed.

(** The head of an escaped id that the engine reads as one name. *)
Lemma nameRun_escaped i :
  percentId i ->
  nameRun (flat_map escapeChar i ++ str " > p")
  = Some (fst (takePlain i),
          flat_map escapeChar (snd (takePlain i)) ++ str " > p").
Proof.
  induction i as [|a t IH]; intros H; [reflexivity|].
  destruct (percentId_inv _ _ H) as [[P|[P Q]] Ht].
  - cbn [flat_map takePlain]. rewrite P, <- app_assoc.
    rewrite (nameRun_plainChar _ _ P), (IH Ht).
    destruct (takePlain t) as [x r]. reflexivity.
  - cbn [takePlain]. rewrite P. cbn [fst snd flat_map].
    rewrite (escapeChar_percent _ Q). cbn [app].
    apply nameRun_percent, Q.
Qed.

Definition headPercent (i : jstr) : Prop :=
  match i with
  | [] => True
  | a :: _ => isPercent a = true
  end.

Lemma takePlain_rest i :
  percentId i ->
  headPercent (snd (takePlain i))
  /\ percentId (snd (takePlain i))
  /\ length (snd (takePlain i)) <= length i
  /\ danglingPercent i = danglingPercent (snd (takePlain i))
  /\ i = fst (takePlain i) ++ snd (takePlain i)
  /\ existsb isPercent (fst (takePlain i)) = false.
Proof.
  induction i as [|a t IH]; intros H.
  - cbn. repeat split; auto.
  - destruct (percentId_inv _ _ H) as [[P|[P Q]] Ht].
    + destruct (IH Ht) as (A & B & C & D & E & F).
      cbn [takePlain]. rewrite P. destruct (takePlain t) as [x r].
      cbn [fst snd] in *. repeat split; auto.
      * cbn [length]. lia.
      * cbn [danglingPercent]. rewrite (plain_not_percent _ P). exact D.
      * cbn [app]. rewrite <- E. reflexivity.
      * cbn [existsb]. rewrite (plain_not_percent _ P). exact F.
    + cbn [takePlain]. rewrite P. cbn [fst snd]. repeat split; auto.
Qed.

Lemma takePlain_none t a :
  isPercent a = true -> percentId t -> fst (takePlain t) = [] ->
  danglingPercent (a :: t) = true.
Proof.
  intros Q Ht E. cbn [danglingPercent]. rewrite Q. destruct t as [|b t].
  - reflexivity.
  - destruct (percentId_inv _ _ Ht) as [[P|[P Q']] _].
    + cbn [takePlain] in E. rewrite P in E.
      destruct (takePlain t). discriminate E.
    + rewrite Q'. reflexivity.
Qed.

Lemma takePlain_some t a :
  isPercent a = true -> percentId t -> fst (takePlain t) <> [] ->
  danglingPercent (a :: t) = danglingPercent (snd (takePlain t)).
Proof.
  intros Q Ht E. destruct (takePlain_rest _ Ht) as (_ & _ & _ & D & _).
  rewrite <- D. cbn [danglingPercent]. destruct t as [|b t].
  - cbn in E. contradiction.
  - destruct (percentId_inv _ _ Ht) as [[P|[P Q']] _].
    + rewrite (plain_not_percent _ P), andb_false_r. reflexivity.
    + cbn [takePlain] in E. rewrite P in E. cbn in E. contradiction.
Qed.

(** What stands for the id after its name in the escaped selector. *)
Lemma readTags_escaped n : forall i fuel,
  length i <= n -> percentId i -> headPercent i -> length i < fuel ->
  match i with
  | [] => readTags fuel (flat_map escapeChar i ++ str " > p") = Tags []
  | _ :: _ =>
      if danglingPercent i then
        readTags fuel (flat_map escapeChar i ++ str " > p") = Unmatched
      else
        exists name names,
          readTags fuel (flat_map escapeChar i ++ str " > p")
          = Tags (name :: names)
  end.
Proof.
  induction n as [|n IH]; intros i fuel Hn Hi Hh Hf.
  - destruct i as [|a t]; [|cbn [length] in Hn; lia].
    destruct fuel as [|fuel]; [lia|]. reflexivity.
  - destruct i as [|a t].
    { destruct fuel as [|fuel]; [lia|]. reflexivity. }
    cbn [headPercent] in Hh.
    destruct (percentId_inv _ _ Hi) as [_ Ht].
    destruct fuel as [|fuel]; [lia|].
    cbn [flat_map]. rewrite (escapeChar_percent _ Hh). cbn [app readTags].
    destruct (jstr_eqb _ (str " > p")) eqn:E.
    { apply jstr_eqb_eq in E. injection E as -> _. discriminate Hh. }
    rewrite Hh. cbn [readName].
    assert (nameChar a || Ascii.eqb a backslash = false) as ->.
    { apply Ascii.eqb_eq in Hh. subst a. reflexivity. }
    assert (is_char "#" a = false) as ->.
    { apply Ascii.eqb_eq in Hh. subst a. reflexivity. }
    rewrite (nameRun_escaped _ Ht).
    destruct (takePlain_rest _ Ht) as (A & B & C & _).
    destruct (fst (takePlain t)) as [|x0 x] eqn:Ex.
    + rewrite (takePlain_none _ _ Hh Ht Ex). reflexivity.
    + rewrite (takePlain_some _ _ Hh Ht) by (rewrite Ex; discriminate).
      cbn [length] in Hn, Hf.
      specialize (IH (snd (takePlain t)) fuel ltac:(lia) B A ltac:(lia)).
      destruct (snd (takePlain t)) as [|b r].
      * rewrite IH. cbn [danglingPercent]. eauto.
      * destruct (danglingPercent (b :: r)).
        -- rewrite IH. reflexivity.
        -- destruct IH as (name & names & ->). eauto.
Qed.

Lemma length_escaped i : length i <= length (flat_map escapeChar i).
Proof.
  induction i as [|a t IH]; [reflexivity|].
  cbn [flat_map]. rewrite length_app. unfold escapeChar at 1.
  destruct (_ || _); cbn [length]; lia.
Qed.

Lemma readTags_rest r :
  percentId r -> headPercent r ->
  match r with
  | [] =>
      readTags (length (flat_map escapeChar r ++ str " > p"))
               (flat_map escapeChar r ++ str " > p") = Tags []
  | _ :: _ =>
      if danglingPercent r then
        readTags (length (flat_map escapeChar r ++ str " > p"))
                 (flat_map escapeChar r ++ str " > p") = Unmatched
      else
        exists name names,
          readTags (length (flat_map escapeChar r ++ str " > p"))
                   (flat_map escapeChar r ++ str " > p")
          = Tags (name :: names)
  end.
Proof.
  intros B A. apply (readTags_escaped (length r)); auto.
  rewrite length_app. change (length (str " > p")) with 4.
  pose proof (length_escaped r). lia.
Qed.

(** The whole lookup, for an id of plain characters and percent signs. *)
Lemma query_lookup doc i :
  percentId i -> query doc (selectorOf i) = lookup doc i.
Proof.
  intros Hi. unfold selectorOf, lookup. rewrite escapeId_chars.
  change (str "#") with ["#"%char]. cbn [app query].
  change (is_char "#" "#") with true. cbv iota.
  destruct i as [|a t]; [reflexivity|].
  cbn [length Nat.eqb orb].
  destruct (percentId_inv _ _ Hi) as [[P|[P Q]] Ht].
  - (* the id starts with a plain character *)
    assert (exists c more, flat_map escapeChar (a :: t) ++ str " > p"
                           = c :: more
                           /\ nameChar c || Ascii.eqb c backslash = true)
      as (c & more & Ec & Hc).
    { cbn [flat_map]. unfold plainChar in P. unfold escapeChar at 1.
      destruct (nameChar a) eqn:N.
      - rewrite (nameChar_plain _ N). eexists. eexists.
        split; [reflexivity|]. rewrite N. reflexivity.
      - cbn [orb] in P. rewrite P. eexists. eexists.
        split; [reflexivity|]. rewrite Ascii.eqb_refl. apply orb_true_r. }
    unfold readName. rewrite Ec, Hc, <- Ec. clear c more Ec Hc.
    rewrite (nameRun_escaped _ Hi).
    destruct (takePlain_rest _ Hi) as (A & B & C & D & E & F).
    cbn [takePlain] in *. rewrite P in *.
    destruct (takePlain t) as [x r] eqn:Et. cbn [fst snd] in *.
    pose proof (readTags_rest r B A) as R.
    rewrite D. destruct r as [|b r].
    + rewrite R. cbn [danglingPercent]. rewrite app_nil_r in E.
      injection E as ->. cbn [percentInside].
      cbn [existsb] in F. rewrite (plain_not_percent _ P) in F.
      cbn [orb] in F. rewrite F. reflexivity.
    + destruct (danglingPercent (b :: r)).
      * rewrite R. reflexivity.
      * destruct R as (name & names & ->). cbn [percentInside].
        injection E as ->. rewrite existsb_app. cbn [existsb headPercent] in *.
        rewrite A, orb_true_r. reflexivity.
  - (* the id starts with a percent sign *)
    cbn [flat_map]. rewrite (escapeChar_percent _ Q). cbn [app readName].
    assert (nameChar a || Ascii.eqb a backslash = false) as ->.
    { apply Ascii.eqb_eq in Q. subst a. reflexivity. }
    assert (is_char "#" a = false) as ->.
    { apply Ascii.eqb_eq in Q. subst a. reflexivity. }
    rewrite (nameRun_escaped _ Ht).
    destruct (takePlain_rest _ Ht) as (A & B & C & D & E & F).
    assert (existsb isPercent t = existsb isPercent (snd (takePlain t)))
      as Hex.
    { rewrite E at 1. rewrite existsb_app, F. reflexivity. }
    destruct (fst (takePlain t)) as [|x0 x] eqn:Ex.
    + rewrite (takePlain_none _ _ Q Ht Ex). reflexivity.
    + rewrite (takePlain_some _ _ Q Ht) by (rewrite Ex; discriminate).
      pose proof (readTags_rest (snd (takePlain t)) B A) as R.
      cbn [percentInside]. rewrite Hex.
      destruct (snd (takePlain t)) as [|b r].
      * rewrite R. cbn [danglingPercent existsb]. rewrite app_nil_r in E.
        rewrite <- E. reflexivity.
      * cbn [existsb headPercent] in *. rewrite A. cbn [orb].
        destruct (danglingPercent (b :: r)).
        -- rewrite R. reflexivity.
        -- destruct R as (name & names & ->). reflexivity.
Qed.

Lemma plainId_lookup doc i :
  plainId i -> query doc (selectorOf i) = Ok (paragraphs doc i).
Proof.
  intros [Hne Hi].
  assert (existsb isPercent i = false) as Hp.
  { clear Hne. induction Hi as [|a t Ha Ht IH]; [reflexivity|].
    cbn [existsb]. rewrite (plain_not_percent _ Ha). apply IH. }
  assert (forall t, existsb isPercent t = false -> danglingPercent t = false)
    as Hd.
  { induction t as [|a t IH]; [reflexivity|]. cbn [existsb danglingPercent].
    intros H. apply orb_false_iff in H. destruct H as [-> H].
    cbn [andb orb]. apply IH, H. }
  rewrite query_lookup.
  - unfold lookup. rewrite (Hd _ Hp). destruct i as [|a t]; [contradiction|].
    cbn [length Nat.eqb orb percentInside]. cbn [existsb] in Hp.
    apply orb_false_iff in Hp. destruct Hp as [_ ->]. reflexivity.
  - unfold percentId. eapply Forall_impl; [|exact Hi].
    intros a Ha. cbn beta in Ha. rewrite Ha. reflexivity.
Qed.

(** ** Paragraphs with the marker phrase *)

Lemma not_holds p :
  includes (str "has the attributes") p = false <-> ~ holdsMarker p.
Proof.
  rewrite <- includes_holds. destruct (includes _ p); split.
  - discriminate.
  - intros H. exfalso. apply H. reflexivity.
  - intros _ H. discriminate H.
  - reflexivity.
Qed.

Lemma filter_none found :
  filter (includes (str "has the attributes")) found = []
  <-> noMarker found.
Proof.
  unfold noMarker. induction found as [|p l IH].
  - split; [constructor|reflexivity].
  - cbn [filter]. destruct (includes _ p) eqn:E.
    + split; [discriminate|]. intros H. inversion H as [|? ? Hp _]; subst.
      apply not_holds in Hp. rewrite Hp in E. discriminate.
    + rewrite IH. split.
      * intros H. constructor; [apply not_holds, E|exact H].
      * intros H. inversion H; assumption.
Qed.

Lemma filter_one found p :
  filter (includes (str "has the attributes")) found = [p]
  <-> oneMarker found p.
Proof.
  unfold oneMarker. revert p. induction found as [|q l IH]; intros p.
  - split; [discriminate|]. intros (a & b & E & _).
    destruct a; discriminate E.
  - cbn [filter]. destruct (includes _ q) eqn:E.
    + split.
      * intros H. injection H as -> H. apply filter_none in H.
        exists [], l. repeat split; auto.
        -- apply includes_holds, E.
        -- constructor.
      * intros (a & b & El & Hp & Ha & Hb). destruct a as [|a0 a].
        -- injection El as -> ->. f_equal. apply filter_none, Hb.
        -- injection El as -> ->. inversion Ha as [|? ? Hq _]; subst.
           apply not_holds in Hq. rewrite Hq in E. discriminate.
    + rewrite IH. split.
      * intros (a & b & -> & Hp & Ha & Hb). exists (q :: a), b.
        repeat split; auto. constructor; [apply not_holds, E|exact Ha].
      * intros (a & b & El & Hp & Ha & Hb). destruct a as [|a0 a].
        -- injection El as -> ->. apply includes_holds in Hp.
           rewrite Hp in E. discriminate.
        -- injection El as -> ->. exists a, b.
           inversion Ha; subst. repeat split; auto.
Qed.

Lemma filter_two found :
  1 < length (filter (includes (str "has the attributes")) found)
  <-> twoMarkers found.
Proof.
  unfold twoMarkers. induction found as [|x l IH].
  - cbn. split; [lia|]. intros (a & p & b & q & c & E & _).
    destruct a; discriminate E.
  - cbn [filter]. destruct (includes _ x) eqn:E.
    + cbn [length]. split.
      * intros H.
        destruct (filter (includes (str "has the attributes")) l)
          as [|q more] eqn:F; [cbn [length] in H; lia|].
        assert (In q (filter (includes (str "has the attributes")) l))
          as Hq by (rewrite F; left; reflexivity).
        apply filter_In in Hq. destruct Hq as [Hq Hm].
        apply in_split in Hq. destruct Hq as (b & c & ->).
        exists [], x, b, q, c. repeat split; apply includes_holds; auto.
      * intros (a & p & b & q & c & El & Hp & Hq).
        assert (In q l) as Hin.
        { destruct a as [|a0 a]; injection El as -> ->.
          - apply in_or_app. right. left. reflexivity.
          - apply in_or_app. right. right. apply in_or_app. right.
            left. reflexivity. }
        apply includes_holds in Hq.
        assert (In q (filter (includes (str "has the attributes")) l))
          as Hf by (apply filter_In; auto).
        destruct (filter _ l); [destruct Hf|cbn [length]; lia].
    + rewrite IH. split.
      * intros (a & p & b & q & c & -> & Hp & Hq).
        exists (x :: a), p, b, q, c. repeat split; auto.
      * intros (a & p & b & q & c & El & Hp & Hq). destruct a as [|a0 a].
        -- injection El as -> ->. apply includes_holds in Hp.
           rewrite Hp in E. discriminate.
        -- injection El as -> ->. exists a, p, b, q, c.
           repeat split; auto.
Qed.

(** [getAttributes] in terms of what the selector finds. *)
Lemma getAttributes_found doc s i found :
  id s = Some i -> query doc (selectorOf i) = Ok found ->
  getAttributes doc s
  = match filter (includes (str "has the attributes")) found with
    | [] => Ok None
    | [p] =>
        match attributeGroups p with
        | Some (w, e, c) => Ok (Some (flag "w" w ++ flag "e" e ++ flag "c" c))
        | None => Fatal
        end
    | _ :: _ :: _ => Fatal
    end.
Proof.
  intros Hi Hq. unfold getAttributes, attributeParagraphs.
  rewrite Hi. cbn [defined bind]. fold (selectorOf i). rewrite Hq.
  cbn [bind]. destruct (filter _ found) as [|p [|q more]].
  - reflexivity.
  - cbn [length Nat.eqb assert bind].
    destruct (attributeGroups p) as [[[w e] c]|]; reflexivity.
  - reflexivity.
Qed.

Lemma getAttributes_rejected doc s i :
  id s = Some i -> query doc (selectorOf i) = Fatal ->
  getAttributes doc s = Fatal.
Proof.
  intros Hi Hq. unfold getAttributes, attributeParagraphs.
  rewrite Hi. cbn [defined bind]. fold (selectorOf i). rewrite Hq.
  reflexivity.
Qed.

(** ** No paragraph, one, or more *)

(** X27. For a section whose id is made of name characters, dots and at
    signs, which the selector reads as this very id: the extractor
    returns null exactly when none of the paragraphs right under the
    element with the id holds the marker phrase "has the attributes";
    it dies when two of them do; and when it returns null for a data
    property (a section that is no accessor pair and whose title is no
    accessor title), [makeProperty] gives the attribute code wc. *)
Theorem getAttributes_none_many_default (doc : Document) (s : Section)
    (i : jstr) :
  id s = Some i ->
  plainId i ->
  (noMarker (paragraphs doc i) <-> getAttributes doc s = Ok None)
  /\ (twoMarkers (paragraphs doc i) -> getAttributes doc s = Fatal)
  /\ (getAttributes doc s = Ok None ->
      isAccessorPair s = false ->
      test accessor_re (title s) = false ->
      makeProperty doc s
      = Ok (mkProperty DataProperty (removeSpaces (title s)) (str "wc"))).
Proof.
  intros Hi Hp.
  rewrite (getAttributes_found _ _ _ _ Hi (plainId_lookup doc i Hp)).
  rewrite <- filter_none, <- filter_two.
  split; [|split].
  - destruct (filter _ (paragraphs doc i)) as [|p [|q more]].
    + split; reflexivity.
    + split; [discriminate|].
      destruct (attributeGroups p) as [[[w e] c]|]; discriminate.
    + split; discriminate.
  - destruct (filter _ (paragraphs doc i)) as [|p [|q more]];
      cbn [length]; try lia. reflexivity.
  - intros H Ha Ht. unfold makeProperty. rewrite Ha, Ht.
    rewrite (getAttributes_found _ _ _ _ Hi (plainId_lookup doc i Hp)), H.
    reflexivity.
Qed.

Lemma getAttributes_none_many_default_witness :
  getAttributes (page [str "It is frozen."]) (leaf "Foo.bar" "sec-foo.bar")
  = Ok None
  /\ getAttributes
       (page [str "It has the attributes A."; str "An aside.";
              str "It has the attributes B."])
       (leaf "Foo.bar" "sec-foo.bar") = Fatal
  /\ makeProperty (page [str "It is frozen."]) (leaf "Foo.bar" "sec-foo.bar")
     = Ok (mkProperty DataProperty (str "Foo.bar") (str "wc")).
Proof.
  assert (plainId (str "sec-foo.bar")) as Hp.
  { split; [discriminate|]. repeat constructor. }
  pose proof (getAttributes_none_many_default (page [str "It is frozen."])
                (leaf "Foo.bar" "sec-foo.bar") (str "sec-foo.bar")
                eq_refl Hp) as [H0 [_ H2]].
  pose proof (getAttributes_none_many_default
                (page [str "It has the attributes A."; str "An aside.";
                       str "It has the attributes B."])
                (leaf "Foo.bar" "sec-foo.bar") (str "sec-foo.bar")
                eq_refl Hp) as [_ [H1 _]].
  assert (noMarker [str "It is frozen."]) as Hn.
  { constructor; [|constructor]. apply not_holds. reflexivity. }
  split; [apply H0, Hn|].
  split.
  - apply H1. exists [], (str "It has the attributes A."), [str "An aside."],
      (str "It has the attributes B."), [].
    split; [reflexivity|].
    split; [exists (str "It "), (str " A.")|exists (str "It "), (str " B.")];
      reflexivity.
  - apply H2; [apply H0, Hn|reflexivity|reflexivity].
Defined.

(** C6. Where the script parts from the claim. [getAttributes] escapes the
    dots and the at signs of an id and leaves a percent sign as it is.
    When a percent sign ends the id or stands right before another one,
    the selector is rejected and the extractor dies, whatever the
    paragraphs are, also when none holds the marker phrase. When there
    is a percent sign after the first character and none is dangling,
    the selector names an element that does not exist and the
    extractor returns null, whatever the paragraphs are, also when two
    of them hold the marker phrase. *)
Theorem getAttributes_percent_ids (doc : Document) (s : Section)
    (i : jstr) :
  id s = Some i ->
  percentId i ->
  (danglingPercent i = true -> getAttributes doc s = Fatal)
  /\ (danglingPercent i = false -> percentInside i = true ->
      getAttributes doc s = Ok None).
Proof.
  intros Hi Hp. pose proof (query_lookup doc i Hp) as Hq.
  unfold lookup in Hq. split.
  - intros Hd. rewrite Hd, orb_true_r in Hq.
    apply (getAttributes_rejected _ _ _ Hi Hq).
  - intros Hd Hin. rewrite Hd, Hin, orb_false_r in Hq.
    destruct i as [|a t]; [discriminate Hin|].
    cbn [length Nat.eqb] in Hq.
    rewrite (getAttributes_found _ _ _ _ Hi Hq). reflexivity.
Qed.

Lemma getAttributes_percent_ids_witness :
  getAttributes (page [str "It is frozen."]) (leaf "%Foo%" "sec-%foo%")
  = Fatal
  /\ getAttributes
       (page [str "It has the attributes A."; str "It has the attributes B."])
       (leaf "%Foo%.bar" "sec-%foo%.bar")
     = Ok None.
Proof.
  split.
  - apply (proj1 (getAttributes_percent_ids (page [str "It is frozen."])
                    (leaf "%Foo%" "sec-%foo%") (str "sec-%foo%") eq_refl
                    ltac:(repeat constructor))).
    reflexivity.
  - apply (proj2 (getAttributes_percent_ids
                    (page [str "It has the attributes A.";
                           str "It has the attributes B."])
                    (leaf "%Foo%.bar" "sec-%foo%.bar")
                    (str "sec-%foo%.bar") eq_refl
                    ltac:(repeat constructor))); reflexivity.
Defined.
(** ** The attributes sentence, in both directions *)

Lemma run_Lit_inv {R} l c g (k : cursor -> captures -> option R) r :
  run (Lit l) c g k = Some r ->
  exists more, ahead c = l ++ more
               /\ k (mkCursor (behind (before c) l) more) g = Some r.
Proof.
  intros H. destruct (startsWith l (ahead c)) eqn:E.
  - destruct (startsWith_split _ _ E) as (more & Em). exists more.
    split; [exact Em|]. destruct c as [b s]. cbn [ahead before] in *.
    subst s. rewrite run_Lit in H. exact H.
  - rewrite run_Lit_fail in H by exact E. discriminate.
Qed.

Lemma run_truth_inv {R} i c g (k : cursor -> captures -> option R) r :
  run (Grp i truth) c g k = Some r ->
  exists v more c',
    ahead c = truthText v ++ more /\ ahead c' = more
    /\ k c' ((i, (length (ahead c), length more)) :: g) = Some r.
Proof.
  unfold truth, L. cbn [run]. intros H.
  match type of H with
  | match ?x with _ => _ end = _ => destruct x as [r1|] eqn:E1
  end.
  - injection H as <-. apply run_Lit_inv in E1.
    destruct E1 as (more & Em & Hk). exists true, more. eexists.
    split; [exact Em|]. split; [|exact Hk]. reflexivity.
  - apply run_Lit_inv in H. destruct H as (more & Em & Hk).
    exists false, more. eexists.
    split; [exact Em|]. split; [|exact Hk]. reflexivity.
Qed.

Lemma attributes_at_sound c m :
  match_at attributes_re c = Some m ->
  (exists w e f post, ahead c = sentence w e f ++ post)
  /\ exists p1 p2 p3, snd m = [(3, p3); (2, p2); (1, p1)].
Proof.
  unfold match_at, attributes_re, L. intros H.
  rewrite run_seq in H. apply run_Lit_inv in H.
  destruct H as (s1 & E1 & H).
  rewrite run_seq in H. apply run_truth_inv in H.
  destruct H as (w & s2 & c2 & E2 & A2 & H). cbn [ahead] in E2.
  rewrite run_seq in H. apply run_Lit_inv in H.
  destruct H as (s3 & E3 & H). rewrite A2 in E3.
  rewrite run_seq in H. apply run_truth_inv in H.
  destruct H as (e & s4 & c4 & E4 & A4 & H). cbn [ahead] in E4.
  rewrite run_seq in H. apply run_Lit_inv in H.
  destruct H as (s5 & E5 & H). rewrite A4 in E5.
  rewrite run_seq in H. apply run_truth_inv in H.
  destruct H as (f & s6 & c6 & E6 & A6 & H). cbn [ahead] in E6.
  apply run_Lit_inv in H. destruct H as (post & E7 & H). rewrite A6 in E7.
  injection H as <-. split.
  - exists w, e, f, post. unfold sentence. rewrite <- !app_assoc.
    rewrite E1, E2, E3, E4, E5, E6, E7. reflexivity.
  - cbn [snd]. eauto.
Qed.

Lemma attributeGroups_None p : attributeGroups p = None <-> ~ hasSentence p.
Proof.
  unfold hasSentence, attributeGroups. split.
  - intros H (pre & w & e & c & post & ->).
    pose proof (match_at_sentence w e c (behind None pre) post) as Hm.
    destruct (search_complete _ _ _ _ _ Hm) as ([c' g] & Hs).
    rewrite Hs in H.
    destruct (search_sound _ _ _ _ Hs) as (x & y & E & Hm').
    destruct (attributes_at_sound _ _ Hm') as [_ (p1 & p2 & p3 & Hg)].
    cbn [snd] in Hg. subst g. destruct p1, p2, p3. unfold group in H.
    cbn [lookup_group Nat.eqb] in H. discriminate H.
  - intros H.
    destruct (search attributes_re None p) as [[c g]|] eqn:Hs;
      [|reflexivity].
    exfalso. apply H.
    destruct (search_sound _ _ _ _ Hs) as (x & y & -> & Hm).
    destruct (attributes_at_sound _ _ Hm) as [(w & e & f & post & Ey) _].
    cbn [ahead] in Ey. subst y. exists x, w, e, f, post. reflexivity.
Qed.

Lemma flags_subsequence w e c :
  subsequence (flag "w" w ++ flag "e" e ++ flag "c" c) (str "wec") = true.
Proof.
  unfold flag.
  destruct (jstr_eqb w _), (jstr_eqb e _), (jstr_eqb c _); reflexivity.
Qed.

Lemma getAttributes_code doc s a :
  getAttributes doc s = Ok (Some a) -> subsequence a (str "wec") = true.
Proof.
  unfold getAttributes. intros H. bind_inv H as i Ei.
  bind_inv H as paras Ep. destruct paras as [|p more]; [discriminate|].
  bind_inv H as u Eu. bind_inv H as g Eg. destruct g as [[w e] c].
  injection H as <-. apply flags_subsequence.
Qed.

(** X11. [getAttributes] dies exactly when the section has no id, when
    the selector engine rejects the selector made of the id, when two of
    the paragraphs the selector finds hold the marker phrase, or when
    the one that holds it does not hold the whole attributes sentence.
    For an id of name characters, dots, at signs and percent signs the
    selector is rejected exactly when the id is empty or a percent sign
    ends it or stands right before another one; it finds nothing when
    a percent sign stands after the first character; otherwise it finds
    the paragraphs right under the elements with this id. Whenever the
    extractor returns a code, the code is w, e and c in this order with
    some of them left out. *)
Theorem getAttributes_dies_or_codes (doc : Document) (s : Section) :
  (getAttributes doc s = Fatal <->
   id s = None
   \/ exists i, id s = Some i
       /\ (query doc (selectorOf i) = Fatal
           \/ exists found,
                query doc (selectorOf i) = Ok found
                /\ (twoMarkers found
                    \/ exists p, oneMarker found p /\ ~ hasSentence p)))
  /\ (forall i, percentId i ->
        query doc (selectorOf i)
        = if (length i =? 0) || danglingPercent i then Fatal
          else if percentInside i then Ok []
          else Ok (paragraphs doc i))
  /\ (forall a, getAttributes doc s = Ok (Some a) ->
                subsequence a (str "wec") = true).
Proof.
  split; [|split; [intros i; apply query_lookup
                  |intros a; apply getAttributes_code]].
  destruct (id s) as [i|] eqn:Hi.
  2:{ unfold getAttributes. rewrite Hi.
      split; [intros _; left|]; reflexivity. }
  destruct (query doc (selectorOf i)) as [found|] eqn:Hq.
  2:{ rewrite (getAttributes_rejected _ _ _ Hi Hq).
      split; [intros _|reflexivity]. right. exists i.
      split; [reflexivity|]. left. exact Hq. }
  rewrite (getAttributes_found _ _ _ _ Hi Hq).
  assert (forall P : Prop,
            (twoMarkers found \/ exists p, oneMarker found p
                                            /\ ~ hasSentence p) <-> P ->
            (Some i = None
             \/ exists j, Some i = Some j
                 /\ (query doc (selectorOf j) = Fatal
                     \/ exists found',
                          query doc (selectorOf j) = Ok found'
                          /\ (twoMarkers found'
                              \/ exists p, oneMarker found' p
                                           /\ ~ hasSentence p))) <-> P)
    as Hshape.
  { intros P HP. rewrite <- HP. split.
    - intros [H|(j & Hj & [H|(found' & Hf & H)])]; [discriminate| |].
      + injection Hj as <-. rewrite Hq in H. discriminate.
      + injection Hj as <-. rewrite Hq in Hf. injection Hf as <-. exact H.
    - intros H. right. exists i. split; [reflexivity|]. right.
      exists found. split; [exact Hq|exact H]. }
  symmetry. apply Hshape.
  rewrite <- filter_two.
  destruct (filter (includes (str "has the attributes")) found)
    as [|p [|q more]] eqn:F.
  - split; [|discriminate]. intros [H|(p & H & _)].
    + cbn [length] in H. lia.
    + apply filter_one in H. rewrite F in H. discriminate.
  - destruct (attributeGroups p) as [[[w e] c]|] eqn:Eg.
    + split; [|discriminate]. intros [H|(p' & H & Hn)].
      * cbn [length] in H. lia.
      * apply filter_one in H. rewrite F in H. injection H as <-.
        apply attributeGroups_None in Hn. rewrite Hn in Eg. discriminate.
    + split; [reflexivity|]. intros _. right. exists p.
      split; [apply filter_one, F|apply attributeGroups_None, Eg].
  - split; [reflexivity|]. intros _. left. cbn [length]. lia.
Qed.

(** ** Properties and methods *)

Lemma slice_from_skipn {A} (l : list A) n :
  slice_from l (Z.of_nat n) = skipn n l.
Proof.
  unfold slice_from, slice, rel_index. rewrite !of_nat_not_negative.
  destruct (Nat.le_gt_cases n (length l)) as [H|H].
  - replace (Z.to_nat (Z.min (Z.of_nat n) (Z.of_nat (length l))))
      with n by lia.
    apply firstn_all2. rewrite length_skipn. lia.
  - replace (Z.to_nat (Z.min (Z.of_nat n) (Z.of_nat (length l))))
      with (length l) by lia.
    rewrite (skipn_all l), (skipn_all2 l) by lia. apply firstn_nil.
Qed.

Lemma get_set_exclusive t :
  startsWith (str "get ") t = true -> startsWith (str "set ") t = false.
Proof.
  destruct t as [|a t]; [discriminate|]. cbn [str list_ascii_of_string startsWith].
  destruct (Ascii.eqb "g" a) eqn:E; [|discriminate].
  apply Ascii.eqb_eq in E. subst a. reflexivity.
Qed.

(** X12. What [makeProperty] makes of a section. With exactly two
    children titled "get ..." or "set ..." it is an accessor property
    with the code gsc and the title without spaces as its name. Otherwise,
    with a title that starts with "get " (with "set ") it is an accessor
    property with the code gc (sc), named by the title after its first
    four characters, without spaces. In both cases the document is not
    read and the script cannot die. Otherwise it is a data property
    named by the title without spaces, and its code is the very code
    [getAttributes] returns, wc when [getAttributes] returns null; the
    script dies exactly when [getAttributes] dies; and the code is w, e
    and c in this order with some left out. *)
Theorem makeProperty_kinds (doc : Document) (s : Section) :
  (length (accessorChildren s) = 2 ->
   makeProperty doc s
   = Ok (mkProperty AccessorProperty (removeSpaces (title s)) (str "gsc")))
  /\ (length (accessorChildren s) <> 2 ->
      startsWith (str "get ") (title s) = true ->
      makeProperty doc s
      = Ok (mkProperty AccessorProperty
              (removeSpaces (skipn 4 (title s))) (str "gc")))
  /\ (length (accessorChildren s) <> 2 ->
      startsWith (str "set ") (title s) = true ->
      makeProperty doc s
      = Ok (mkProperty AccessorProperty
              (removeSpaces (skipn 4 (title s))) (str "sc")))
  /\ (length (accessorChildren s) <> 2 ->
      accessorTitle (title s) = false ->
      (forall a, getAttributes doc s = Ok (Some a) ->
         makeProperty doc s
         = Ok (mkProperty DataProperty (removeSpaces (title s)) a))
      /\ (getAttributes doc s = Ok None ->
          makeProperty doc s
          = Ok (mkProperty DataProperty (removeSpaces (title s)) (str "wc")))
      /\ (makeProperty doc s = Fatal <-> getAttributes doc s = Fatal)
      /\ (forall p, makeProperty doc s = Ok p ->
            prop_type p = DataProperty
            /\ prop_name p = removeSpaces (title s)
            /\ subsequence (prop_attributes p) (str "wec") = true)).
Proof.
  unfold makeProperty.
  rewrite isAccessorPair_count, test_accessor, test_getter, test_setter.
  change 4%Z with (Z.of_nat 4). rewrite slice_from_skipn.
  split; [|split; [|split]].
  - intros ->. reflexivity.
  - intros Hn Hg. apply Nat.eqb_neq in Hn. rewrite Hn.
    unfold accessorTitle. rewrite Hg, (get_set_exclusive _ Hg). reflexivity.
  - intros Hn Hs. apply Nat.eqb_neq in Hn. rewrite Hn.
    unfold accessorTitle. rewrite Hs.
    destruct (startsWith (str "get ") (title s)) eqn:Hg.
    + rewrite (get_set_exclusive _ Hg) in Hs. discriminate.
    + reflexivity.
  - intros Hn Ha. apply Nat.eqb_neq in Hn. rewrite Hn, Ha.
    destruct (getAttributes doc s) as [[a|]|] eqn:Ea; cbn [bind].
    + split; [intros a' E; injection E as <-; reflexivity|].
      split; [discriminate|]. split; [split; discriminate|].
      intros p E. injection E as <-.
      cbn [prop_type prop_name prop_attributes].
      repeat split. exact (getAttributes_code _ _ _ Ea).
    + split; [discriminate|]. split; [reflexivity|].
      split; [split; discriminate|].
      intros p E. injection E as <-. repeat split.
    + split; [discriminate|]. split; [discriminate|].
      split; [split; reflexivity|discriminate].
Qed.

Lemma makeProperty_kinds_witness :
  makeProperty (page [])
    (leaf "get RegExp.prototype.flags" "sec-get-regexp.prototype.flags")
  = Ok (mkProperty AccessorProperty
          (removeSpaces
             (skipn 4 (title (leaf "get RegExp.prototype.flags"
                                   "sec-get-regexp.prototype.flags"))))
          (str "gc"))
  /\ makeProperty (page [str "It " ++ sentence false false true])
       (leaf "Math.PI" "sec-math.pi")
     = Ok (mkProperty DataProperty
             (removeSpaces (title (leaf "Math.PI" "sec-math.pi")))
             (str "c")).
Proof.
  split.
  - apply (proj1 (proj2 (makeProperty_kinds (page [])
                           (leaf "get RegExp.prototype.flags"
                                 "sec-get-regexp.prototype.flags"))));
      [discriminate|reflexivity].
  - apply (proj1 (proj2 (proj2 (proj2
             (makeProperty_kinds (page [str "It " ++ sentence false false true])
                (leaf "Math.PI" "sec-math.pi")))) ltac:(discriminate)
             eq_refl)).
    reflexivity.
Defined.

(** X13. A method has no attributes key exactly when [getAttributes]
    returns null or the empty code (all three flags false); otherwise its
    attributes are the code that [getAttributes] returns, which is not
    empty. Its name and parameters are those [parseParameters] makes of
    the title, and [makeMethod] dies exactly when one of the two dies. *)
Theorem makeMethod_attributes (doc : Document) (s : Section) :
  (makeMethod doc s = Fatal <->
   getAttributes doc s = Fatal \/ parseParameters (title s) = Fatal)
  /\ (forall m, makeMethod doc s = Ok m ->
        parseParameters (title s) = Ok (method_name m, method_parameters m)
        /\ (method_attributes m = None <->
            getAttributes doc s = Ok None
            \/ getAttributes doc s = Ok (Some []))
        /\ (forall a, method_attributes m = Some a ->
              a <> [] /\ getAttributes doc s = Ok (Some a)
              /\ subsequence a (str "wec") = true)).
Proof.
  unfold makeMethod.
  destruct (getAttributes doc s) as [a|] eqn:Ea; cbn [bind].
  - destruct (parseParameters (title s)) as [[n ps]|]; cbn [bind].
    + split; [split; [discriminate|intros [H|H]; discriminate H]|].
      intros m H. injection H as <-.
      cbn [method_name method_parameters method_attributes].
      split; [reflexivity|].
      destruct a as [[|c a]|].
      * split; [split; auto|discriminate].
      * split.
        -- split; [discriminate|intros [H|H]; discriminate H].
        -- intros a' H. injection H as <-.
           split; [discriminate|]. split; [reflexivity|].
           exact (getAttributes_code _ _ _ Ea).
      * split; [split; auto|discriminate].
    + split; [split; auto|discriminate].
  - split; [split; auto|discriminate].
Qed.

(** ** Global replacement *)

Lemma gsub_skip r f x : forall b y,
  gsub r f (length x) b (x ++ y) = gsub r f 0 (behind b x) y.
Proof.
  induction x as [|a x IH]; intros b y; [reflexivity|].
  rewrite behind_cons. destruct y as [|c y].
  - rewrite app_nil_r. cbn [length gsub].
    rewrite <- (app_nil_r x) at 2. apply IH.
  - cbn [length app gsub]. apply IH.
Qed.

Lemma gsub_match r f b x y c g :
  x <> [] ->
  match_at r (mkCursor b (x ++ y)) = Some (c, g) -> ahead c = y ->
  gsub r f 0 b (x ++ y) = f x ++ gsub r f 0 (behind b x) y.
Proof.
  intros Hx Hm Hy. destruct x as [|a x]; [contradiction|].
  cbn [app]. rewrite gsub_cons. cbn [app] in Hm. rewrite Hm, Hy.
  replace (length (a :: x ++ y) - length y) with (S (length x))
    by (cbn [length]; rewrite length_app; lia).
  rewrite behind_cons, <- gsub_skip.
  replace (firstn (S (length x)) (a :: x ++ y)) with (a :: x)
    by (cbn [firstn]; rewrite firstn_length_app; reflexivity).
  reflexivity.
Qed.

Lemma gsub_pass r f b a t :
  match_at r (mkCursor b (a :: t)) = None ->
  gsub r f 0 b (a :: t) = a :: gsub r f 0 (Some a) t.
Proof. intros H. rewrite gsub_cons, H. reflexivity. Qed.

Lemma gsub_end r f b :
  match_at r (mkCursor b []) = None -> gsub r f 0 b [] = [].
Proof. intros H. cbn [gsub]. rewrite H. reflexivity. Qed.

(** ** The escaping of ids *)

(** X14. [getAttributes] escapes an id character by character: a
    backslash goes before every dot and every at sign and nothing else
    changes, so an id without them is left as it is and the escaped id
    is longer by the number of dots and at signs. *)
Theorem escapeId_by_character (i : jstr) :
  escapeId i = flat_map escapeChar i
  /\ (Forall (fun a => Ascii.eqb a "." || Ascii.eqb a "@" = false) i ->
      escapeId i = i)
  /\ length (escapeId i)
     = length i
       + length (filter (fun a => Ascii.eqb a "." || Ascii.eqb a "@") i).
Proof.
  assert (forall b, gsub (Chr (fun a => Ascii.eqb a "." || Ascii.eqb a "@"))
                         (fun m => backslash :: m) 0 b i
                    = flat_map escapeChar i) as H.
  { induction i as [|a t IH]; intros b; [reflexivity|].
    rewrite gsub_cons. unfold match_at. cbn [run ahead flat_map].
    unfold escapeChar at 1.
    destruct (Ascii.eqb a "." || Ascii.eqb a "@").
    - cbn [ahead].
      replace (length (a :: t) - length t) with 1 by (cbn [length]; lia).
      cbn [firstn app]. rewrite IH. reflexivity.
    - cbn [app]. rewrite IH. reflexivity. }
  unfold escapeId, replace_all. rewrite H. clear H.
  split; [reflexivity|]. split.
  - induction 1 as [|a t Ha Ht IH]; [reflexivity|].
    cbn [flat_map]. unfold escapeChar at 1. rewrite Ha. cbn [app].
    rewrite IH. reflexivity.
  - induction i as [|a t IH]; [reflexivity|].
    cbn [flat_map filter]. unfold escapeChar at 1.
    rewrite length_app, IH.
    destruct (Ascii.eqb a "." || Ascii.eqb a "@"); cbn [length]; lia.
Qed.

(** ** The names of namespaces and classes *)

Lemma match_at_Lit_Eol l b s :
  match_at (Lit l ;; Eol) (mkCursor b s)
  = if jstr_eqb s l then Some (mkCursor (behind b l) [], []) else None.
Proof.
  unfold match_at. rewrite run_seq.
  destruct (jstr_eqb s l) eqn:E.
  - apply jstr_eqb_eq in E. subst s.
    replace (mkCursor b l) with (mkCursor b (l ++ []))
      by (rewrite app_nil_r; reflexivity).
    rewrite run_Lit. reflexivity.
  - destruct (startsWith l s) eqn:Es.
    + destruct (startsWith_split _ _ Es) as (more & ->).
      rewrite run_Lit. cbn [run ahead]. destruct more; [|reflexivity].
      rewrite app_nil_r, jstr_eqb_refl in E. discriminate.
    + apply run_Lit_fail. exact Es.
Qed.

Lemma dropSuffix_cons p a t :
  a :: t <> p -> dropSuffix p (a :: t) = a :: dropSuffix p t.
Proof.
  intros Hne. unfold dropSuffix.
  destruct (endsWith p t) eqn:Et.
  - apply endsWith_split in Et. destruct Et as (x & ->).
    assert (endsWith p (a :: x ++ p) = true) as ->
      by (apply endsWith_split; exists (a :: x); reflexivity).
    cbn [length]. rewrite length_app.
    replace (S (length x + length p) - length p) with (S (length x)) by lia.
    replace (length x + length p - length p) with (length x) by lia.
    cbn [firstn]. rewrite firstn_length_app. reflexivity.
  - destruct (endsWith p (a :: t)) eqn:Ea; [|reflexivity].
    apply endsWith_split in Ea. destruct Ea as ([|c x] & E).
    + contradiction.
    + injection E as _ ->.
      assert (endsWith p (x ++ p) = true) as K
        by (apply endsWith_split; exists x; reflexivity).
      rewrite K in Et. discriminate.
Qed.

Lemma dropSuffix_all p : dropSuffix p p = [].
Proof.
  unfold dropSuffix.
  assert (endsWith p p = true) as ->
    by (apply endsWith_split; exists []; reflexivity).
  rewrite Nat.sub_diag. reflexivity.
Qed.

Lemma namespace_tail s : forall c,
  gsub (Alt (Bol ;; L "The ") (L " Object" ;; Eol)) (fun _ => []) 0
       (Some c) s
  = dropSuffix (str " Object") s.
Proof.
  induction s as [|a t IH]; intros c.
  - apply gsub_end. reflexivity.
  - destruct (jstr_eqb (a :: t) (str " Object")) eqn:E.
    + apply jstr_eqb_eq in E. rewrite E. reflexivity.
    + rewrite gsub_pass.
      * rewrite IH, dropSuffix_cons; [reflexivity|].
        intros K. rewrite K, jstr_eqb_refl in E. discriminate.
      * rewrite alt_at. unfold L.
        change (match_at (Bol ;; Lit (str "The ")) (mkCursor (Some c) (a :: t)))
          with (@None (cursor * captures)).
        rewrite match_at_Lit_Eol, E. reflexivity.
Qed.

(** X15. The name of a namespace is the title of its group without a
    leading "The " and then without a trailing " Object"; nothing else
    goes. So "The x Object" is named x, whatever x is. *)
Theorem namespaceName_drops_article_and_object (t x : jstr) :
  namespaceName t = dropSuffix (str " Object") (dropPrefix (str "The ") t)
  /\ namespaceName (str "The " ++ x ++ str " Object") = x.
Proof.
  assert (forall t, namespaceName t
                    = dropSuffix (str " Object") (dropPrefix (str "The ") t))
    as H.
  { clear. intros t. unfold namespaceName, replace_all, dropPrefix.
    destruct (startsWith (str "The ") t) eqn:Es.
    - destruct (startsWith_split _ _ Es) as (more & ->).
      rewrite skipn_length_app.
      rewrite (gsub_match _ _ None (str "The ") more
                 (mkCursor (Some " "%char) more) []);
        [|discriminate| |reflexivity].
      + cbn [app]. apply namespace_tail.
      + rewrite alt_at. unfold L, match_at at 1. cbn [run before].
        fold (match_at (Lit (str "The ")) (mkCursor None (str "The " ++ more))).
        rewrite match_at_Lit, startsWith_app, skipn_length_app. reflexivity.
    - destruct t as [|a t]; [reflexivity|].
      destruct (jstr_eqb (a :: t) (str " Object")) eqn:E.
      + apply jstr_eqb_eq in E. rewrite E. reflexivity.
      + rewrite gsub_pass.
        * rewrite namespace_tail, dropSuffix_cons; [reflexivity|].
          intros K. rewrite K, jstr_eqb_refl in E. discriminate.
        * rewrite alt_at. unfold L, match_at at 1. cbn [run before].
          fold (match_at (Lit (str "The ")) (mkCursor None (a :: t))).
          rewrite match_at_Lit, Es, match_at_Lit_Eol, E. reflexivity. }
  split; [apply H|]. rewrite H. unfold dropPrefix.
  rewrite startsWith_app, skipn_length_app. unfold dropSuffix.
  assert (endsWith (str " Object") (x ++ str " Object") = true) as ->
    by (apply endsWith_split; exists x; reflexivity).
  rewrite length_app.
  replace (length x + length (str " Object") - length (str " Object"))
    with (length x) by lia.
  apply firstn_length_app.
Qed.

Lemma class_no_match b a t :
  a <> " "%char ->
  match_at (Alt (L " Objects") (L " (" ;; Star dot ;; L ")"))
           (mkCursor b (a :: t)) = None.
Proof.
  intros Ha.
  assert (forall l, startsWith (" "%char :: l) (a :: t) = false) as Hs.
  { intros l. cbn [startsWith]. destruct (Ascii.eqb " " a) eqn:E;
      [|reflexivity]. apply Ascii.eqb_eq in E. congruence. }
  rewrite alt_at. unfold L. rewrite match_at_Lit.
  change (str " Objects") with (" "%char :: str "Objects"). rewrite Hs.
  unfold match_at. rewrite run_seq. apply run_Lit_fail.
  change (str " (") with (" "%char :: str "("). apply Hs.
Qed.

Lemma class_plain x : forall b y,
  Forall (fun a => a <> " "%char) x ->
  gsub (Alt (L " Objects") (L " (" ;; Star dot ;; L ")")) (fun _ => [])
       0 b (x ++ y)
  = x ++ gsub (Alt (L " Objects") (L " (" ;; Star dot ;; L ")"))
              (fun _ => []) 0 (behind b x) y.
Proof.
  induction x as [|a x IH]; intros b y H; [reflexivity|].
  inversion H; subst. cbn [app]. rewrite gsub_pass, behind_cons.
  - rewrite IH by assumption. reflexivity.
  - apply class_no_match. assumption.
Qed.

Lemma class_objects b :
  gsub (Alt (L " Objects") (L " (" ;; Star dot ;; L ")")) (fun _ => [])
       0 b (str " Objects") = [].
Proof.
  rewrite <- (app_nil_r (str " Objects")).
  rewrite (gsub_match _ _ b (str " Objects") []
             (mkCursor (Some "s"%char) []) []);
    [reflexivity|discriminate| |reflexivity].
  rewrite alt_at. unfold L. rewrite match_at_Lit, app_nil_r. reflexivity.
Qed.

Lemma class_remark b y :
  no_newline y ->
  match_at (Alt (L " Objects") (L " (" ;; Star dot ;; L ")"))
           (mkCursor b ((str " (" ++ y ++ str ")") ++ str " Objects"))
  = Some (mkCursor (Some ")"%char) (str " Objects"), []).
Proof.
  intros Hy. rewrite alt_at. unfold L. rewrite match_at_Lit.
  change (startsWith (str " Objects")
            ((str " (" ++ y ++ str ")") ++ str " Objects")) with false.
  cbv iota. unfold match_at. rewrite <- !app_assoc.
  rewrite run_seq, run_Lit, run_seq. cbn [run before ahead].
  apply star_skip; [exact Hy|]. reflexivity.
Qed.

(** X16. The name of a class is the title of its group without " Objects"
    and without any remark in parentheses. A title without a space is its
    own name; "x Objects" is named x and "x (remark) Objects" too, for
    every x without a space and every remark on one line. *)
Theorem className_drops_objects_and_remarks (x y : jstr) :
  Forall (fun a => a <> " "%char) x ->
  no_newline y ->
  className x = x
  /\ className (x ++ str " Objects") = x
  /\ className (x ++ (str " (" ++ y ++ str ")") ++ str " Objects") = x.
Proof.
  intros Hx Hy. unfold className, replace_all. split; [|split].
  - rewrite <- (app_nil_r x) at 1. rewrite class_plain by exact Hx.
    rewrite gsub_end by reflexivity. apply app_nil_r.
  - rewrite class_plain by exact Hx. rewrite class_objects. apply app_nil_r.
  - rewrite class_plain by exact Hx.
    rewrite (gsub_match _ _ _ (str " (" ++ y ++ str ")") _ _ _
               ltac:(cbn; discriminate) (class_remark _ y Hy) eq_refl).
    rewrite class_objects. apply app_nil_r.
Qed.

Lemma className_drops_objects_and_remarks_witness :
  className (str "RegExp") = str "RegExp"
  /\ className (str "RegExp" ++ str " Objects") = str "RegExp"
  /\ className (str "RegExp"
                ++ (str " (" ++ str "Regular Expression" ++ str ")")
                ++ str " Objects") = str "RegExp".
Proof.
  apply className_drops_objects_and_remarks; repeat constructor; discriminate.
Defined.

(** ** Expansion never dies *)

Lemma expand_Ok doc s :
  exists l,
    expand doc s = Ok l
    /\ match templateNames doc s with
       | Some names => map name l = names
       | None => l = [s]
       end.
Proof.
  unfold expand, templateNames. destruct s as [n|c|p|f];
    try (eexists; split; reflexivity).
  destruct (jstr_eqb (class_name c) (str "_TypedArray_")).
  { destruct (expand_each (str "_TypedArray_") c (typedArrayTypes doc))
      as (sibs & E & Hn & _).
    exists (map Class sibs). split; [exact E|].
    rewrite map_map. exact Hn. }
  destruct (jstr_eqb (class_name c) (str "_NativeError_ Object Structure")).
  { destruct (expand_each (str "_NativeError_") c (errorTypes doc))
      as (sibs & E & Hn & _).
    exists (map Class sibs). split; [exact E|].
    rewrite map_map. exact Hn. }
  eexists. split; reflexivity.
Qed.

(** X17. The expansion cannot die: the error "Not a class" of
    [expandAbstractClass] is out of reach. A descriptor that is none of
    the two templates is passed on as the only result; a template is
    replaced by one class for each concrete name, named by the list in
    the order of the list, so that it is gone from the catalog when the
    list is empty. The names of the whole expanded catalog are the names
    of the descriptors, each template replaced by its list. *)
Theorem expand_never_dies (doc : Document) (ds : list JSGlobal) :
  (forall s, exists l,
      expand doc s = Ok l
      /\ match templateNames doc s with
         | Some names => map name l = names
         | None => l = [s]
         end)
  /\ exists objects,
       flatMapM (expand doc) ds = Ok objects
       /\ map name objects
          = flat_map (fun s => match templateNames doc s with
                               | Some names => names
                               | None => [name s]
                               end) ds.
Proof.
  split; [intros s; apply expand_Ok|].
  induction ds as [|s ds (objects & E & Hn)].
  - exists []. split; reflexivity.
  - destruct (expand_Ok doc s) as (l & El & Hl).
    exists (l ++ objects). cbn [flatMapM flat_map]. rewrite El, E.
    split; [reflexivity|]. rewrite map_app, Hn. f_equal.
    destruct (templateNames doc s); [exact Hl|]. subst l. reflexivity.
Qed.

(** ** Replacement by a string pattern *)

Lemma indexOf_first p pre : forall more,
  (forall x y, pre = x ++ y -> y <> [] ->
               startsWith p (y ++ p ++ more) = false) ->
  indexOf p (pre ++ p ++ more) = Some (length pre).
Proof.
  induction pre as [|a pre IH]; intros more H.
  - cbn [app length]. destruct (p ++ more) as [|c u] eqn:E.
    + cbn [indexOf]. destruct p; [reflexivity|discriminate].
    + cbn [indexOf]. rewrite <- E, startsWith_app. reflexivity.
  - cbn [app indexOf length].
    pose proof (H [] (a :: pre) eq_refl ltac:(discriminate)) as E0.
    cbn [app] in E0. rewrite E0.
    rewrite IH; [reflexivity|].
    intros x y E Hy. apply (H (a :: x) y); [|exact Hy].
    rewrite E. reflexivity.
Qed.

(** X18. [String.prototype.replace] with a string pattern, as the
    expander and the propagator use it. A text without the pattern is
    left as it is, whatever the replacement. In a text with the pattern
    the first occurrence, and only this one, is replaced: by the
    replacement itself when it has no dollar sign, by the pattern when
    the replacement is a dollar sign and an ampersand (so the text is
    left as it is), and by one dollar sign when it is two. *)
Theorem replace_first_occurrence (p r pre more : jstr) :
  (forall x y, pre = x ++ y -> y <> [] ->
               startsWith p (y ++ p ++ more) = false) ->
  (forall s, includes p s = false -> replace p r s = s)
  /\ (no_dollar r -> replace p r (pre ++ p ++ more) = pre ++ r ++ more)
  /\ replace p (str "$&") (pre ++ p ++ more) = pre ++ p ++ more
  /\ replace p (str "$$") (pre ++ p ++ more) = pre ++ str "$" ++ more.
Proof.
  intros Hfirst.
  assert (forall r', replace p r' (pre ++ p ++ more)
                     = pre ++ getSubstitution p pre more r' ++ more) as H.
  { intros r'. unfold replace. rewrite (indexOf_first _ _ _ Hfirst).
    rewrite firstn_length_app.
    replace (pre ++ p ++ more) with ((pre ++ p) ++ more)
      by (rewrite <- app_assoc; reflexivity).
    replace (length pre + length p) with (length (pre ++ p))
      by (rewrite length_app; reflexivity).
    rewrite skipn_length_app. reflexivity. }
  split; [|split; [|split]].
  - intros s Hs. unfold replace, includes in *.
    destruct (indexOf p s); [discriminate|reflexivity].
  - intros Hr. rewrite H, getSubstitution_plain by exact Hr. reflexivity.
  - rewrite H. cbn. rewrite app_nil_r. reflexivity.
  - rewrite H. reflexivity.
Qed.

Lemma replace_first_occurrence_witness :
  (forall s, includes (str "_TypedArray_") s = false ->
             replace (str "_TypedArray_") (str "Int8Array") s = s)
  /\ (no_dollar (str "Int8Array") ->
      replace (str "_TypedArray_") (str "Int8Array")
              ([] ++ str "_TypedArray_" ++ str ".from_TypedArray_")
      = [] ++ str "Int8Array" ++ str ".from_TypedArray_")
  /\ replace (str "_TypedArray_") (str "$&")
             ([] ++ str "_TypedArray_" ++ str ".from_TypedArray_")
     = [] ++ str "_TypedArray_" ++ str ".from_TypedArray_"
  /\ replace (str "_TypedArray_") (str "$$")
             ([] ++ str "_TypedArray_" ++ str ".from_TypedArray_")
     = [] ++ str "$" ++ str ".from_TypedArray_".
Proof.
  apply replace_first_occurrence.
  intros [|a x] y E Hy; [|discriminate E].
  cbn [app] in E. subst y. contradiction.
Defined.

(** ** Marking by name *)

Lemma markGlobal_first expected t o after : forall before,
  Forall (fun x => name x <> t) before -> name o = t ->
  markGlobal expected t (before ++ o :: after)
  = if expected o then Ok (before ++ setGlobal o :: after) else Fatal.
Proof.
  intros before Hb Ho. induction Hb as [|x before Hx Hb IH].
  - cbn [app markGlobal]. rewrite Ho, jstr_eqb_refl.
    destruct (expected o); reflexivity.
  - cbn [app markGlobal]. destruct (jstr_eqb (name x) t) eqn:E.
    + apply jstr_eqb_eq in E. contradiction.
    + rewrite IH. destruct (expected o); reflexivity.
Qed.

Lemma setGlobal_name o : name (setGlobal o) = name o.
Proof. destruct o; reflexivity. Qed.

Lemma setGlobal_twice o : setGlobal (setGlobal o) = setGlobal o.
Proof. destruct o; reflexivity. Qed.

(** X19. The propagator looks a descriptor up by its name only, and the
    first descriptor of the catalog with the name decides: when it is of
    the expected kind its flag is set and nothing else in the catalog
    changes, descriptors of the same name further on included; when it
    is of another kind the script dies, even if a descriptor of the
    expected kind and of the same name comes later. Marking the same
    name a second time changes nothing any more. *)
Theorem markGlobal_first_named (expected : JSGlobal -> bool) (t : jstr)
    (before after : list JSGlobal) (o : JSGlobal) :
  expected = isClass \/ expected = isNamespace ->
  Forall (fun x => name x <> t) before ->
  name o = t ->
  (expected o = true ->
   markGlobal expected t (before ++ o :: after)
   = Ok (before ++ setGlobal o :: after)
   /\ markGlobal expected t (before ++ setGlobal o :: after)
      = Ok (before ++ setGlobal o :: after))
  /\ (expected o = false ->
      markGlobal expected t (before ++ o :: after) = Fatal).
Proof.
  intros Hk Hb Ho. split; intros He.
  - rewrite (markGlobal_first _ _ _ _ _ Hb Ho), He. split; [reflexivity|].
    rewrite (markGlobal_first _ _ _ _ _ Hb
               (eq_trans (setGlobal_name o) Ho)).
    rewrite setGlobal_twice.
    replace (expected (setGlobal o)) with true; [reflexivity|].
    destruct Hk; subst expected; destruct o; try discriminate; reflexivity.
  - rewrite (markGlobal_first _ _ _ _ _ Hb Ho), He. reflexivity.
Qed.

Lemma markGlobal_first_named_witness :
  (isClass (Class fooClass) = true ->
   markGlobal isClass (str "Foo")
     ([Namespace mathNamespace] ++ Class fooClass :: [Function
        {| fn_name := str "Foo";
           fn_parameters := mkParameters 0 0 false;
           fn_global := true |}])
   = Ok ([Namespace mathNamespace] ++ setGlobal (Class fooClass) :: [Function
        {| fn_name := str "Foo";
           fn_parameters := mkParameters 0 0 false;
           fn_global := true |}])
   /\ markGlobal isClass (str "Foo")
        ([Namespace mathNamespace] ++ setGlobal (Class fooClass) :: [Function
           {| fn_name := str "Foo";
              fn_parameters := mkParameters 0 0 false;
              fn_global := true |}])
      = Ok ([Namespace mathNamespace] ++ setGlobal (Class fooClass)
              :: [Function
                    {| fn_name := str "Foo";
                       fn_parameters := mkParameters 0 0 false;
                       fn_global := true |}]))
  /\ (isClass (Class fooClass) = false ->
      markGlobal isClass (str "Foo")
        ([Namespace mathNamespace] ++ Class fooClass :: [Function
           {| fn_name := str "Foo";
              fn_parameters := mkParameters 0 0 false;
              fn_global := true |}])
      = Fatal).
Proof.
  apply markGlobal_first_named.
  - left. reflexivity.
  - constructor; [|constructor]. vm_compute. discriminate.
  - reflexivity.
Defined.

(** ** The functions of the global object *)

Lemma test_capital t : test (Bol ;; Chr upper) t = startsCapital t.
Proof.
  unfold test. rewrite search_anchored by reflexivity.
  unfold match_at. cbn [run before ahead]. destruct t as [|a t].
  - reflexivity.
  - cbn [startsCapital]. destruct (upper a); reflexivity.
Qed.

Lemma mapM_Forall2 {A B} (f : A -> result B) (P : A -> B -> Prop) l :
  (forall a b, f a = Ok b -> P a b) ->
  forall l', mapM f l = Ok l' -> Forall2 P l l'.
Proof.
  intros Hf. induction l as [|a l IH]; intros l' H.
  - injection H as <-. constructor.
  - cbn [mapM] in H. bind_inv H as b Eb. bind_inv H as bs Ebs.
    injection H as <-. constructor; [apply Hf, Eb|apply IH, Ebs].
Qed.

(** X20. The functions of the global object. A child of "Function
    Properties of the Global Object" gives one function, named and
    counted by its own title; the group "URI Handling Functions" gives
    one function for each of its children whose title does not start
    with a capital (the title of the group itself is not read as a
    signature), in the order of the document. Every function made here
    is marked global right away. *)
Theorem globalFunctions_of_sections (s : Section) (fs : list JSGlobal) :
  globalFunctions s = Ok fs ->
  Forall2 functionOf (functionSections s) fs.
Proof.
  unfold globalFunctions, functionSections. intros H.
  rewrite (filter_ext _ (fun t => negb (startsCapital (title t)))) in H
    by (intros t; rewrite test_capital; reflexivity).
  revert H. apply mapM_Forall2. clear. intros t o H.
  bind_inv H as bare Eb. apply getBareSection_id in Eb. subst bare.
  bind_inv H as p Ep. destruct p as [nm ps]. injection H as <-.
  eexists. split; [reflexivity|]. split; [reflexivity|exact Ep].
Qed.

Lemma globalFunctions_of_sections_witness :
  Forall2 functionOf
    (functionSections
       (clause "URI Handling Functions"
          [ leaf "decodeURI ( encodedURI )" "sec-decodeuri-encodeduri";
            leaf "Encode ( string, extraUnescaped )" "sec-encode" ]))
    [ Function {| fn_name := str "decodeURI()";
                  fn_parameters := mkParameters 1 0 false;
                  fn_global := true |} ].
Proof.
  apply globalFunctions_of_sections. vm_compute. reflexivity.
Defined.

(** ** Kinds and arrays *)

Lemma assembleNamespace_fields doc ttl subs o :
  assembleNamespace doc ttl subs = Ok o ->
  exists n,
    o = Namespace n /\ ns_name n = namespaceName ttl /\ ns_global n = false.
Proof.
  unfold assembleNamespace. intros H.
  bind_inv H as vs Ev. bind_inv H as fs Ef.
  bind_inv H as u1 E1. bind_inv H as u2 E2.
  bind_inv H as secs Es. destruct secs as [ps ms].
  bind_inv H as sp Esp. bind_inv H as sm Esm.
  injection H as <-. eexists. repeat split.
Qed.

Lemma assembleClass_fields doc h ttl subs o h' :
  assembleClass doc h ttl subs = Ok (o, h') ->
  exists c ip,
    o = Class c
    /\ class_name c = className ttl
    /\ class_global c = false
    /\ h' = h ++ [ip]
    /\ instanceProperties c = length h.
Proof.
  intros H. unfold assembleClass in H.
  bind_inv H as ctorSecs Ec. bind_inv H as instSecs Ei.
  bind_inv H as protoSecs Ep.
  bind_inv H as u1 E1. bind_inv H as u2 E2.
  bind_inv H as sp Esp. bind_inv H as sm Esm.
  bind_inv H as pp Epp. bind_inv H as im Eim.
  bind_inv H as ip Eip. bind_inv H as ctor Ector.
  cbn [alloc] in H. injection H as <- <-.
  eexists. exists ip. repeat split.
Qed.

(** X21. What a group becomes is decided by its title alone: a namespace
    when the title ends in "Object", a class in every other case (so a
    title in "Objects" gives a class). Both start with the global flag
    off. A namespace leaves the store of arrays as it is; a class adds
    one array, that of its instance properties, at the end of the store
    and points at it. *)
Theorem assemble_kind (doc : Document) (h h' : heap) (s : Section)
    (o : JSGlobal) :
  assemble doc h s = Ok (o, h') ->
  if endsWith (str "Object") (title s) then
    h' = h
    /\ exists n,
         o = Namespace n
         /\ ns_name n = namespaceName (title s)
         /\ ns_global n = false
  else
    exists c ip,
      o = Class c
      /\ class_name c = className (title s)
      /\ class_global c = false
      /\ h' = h ++ [ip]
      /\ instanceProperties c = length h
      /\ deref h' (instanceProperties c) = ip.
Proof.
  unfold assemble. destruct (endsWith _ _); intros H.
  - bind_inv H as n En. injection H as <- <-. split; [reflexivity|].
    apply (assembleNamespace_fields _ _ _ _ En).
  - destruct (assembleClass_fields _ _ _ _ _ _ H)
      as (c & ip & Ho & Hn & Hg & Hh & Ha).
    exists c, ip. repeat split; auto.
    rewrite Hh, Ha. unfold deref. apply nth_middle.
Qed.

Lemma assemble_kind_witness :
  if endsWith (str "Object") (title (clause "Foo Objects" [])) then
    oneEmptyArray = emptyStore
    /\ exists n,
         Class fooClass = Namespace n
         /\ ns_name n = namespaceName (title (clause "Foo Objects" []))
         /\ ns_global n = false
  else
    exists c ip,
      Class fooClass = Class c
      /\ class_name c = className (title (clause "Foo Objects" []))
      /\ class_global c = false
      /\ oneEmptyArray = emptyStore ++ [ip]
      /\ instanceProperties c = length emptyStore
      /\ deref oneEmptyArray (instanceProperties c) = ip.
Proof.
  apply (assemble_kind (page []) emptyStore oneEmptyArray
                       (clause "Foo Objects" []) (Class fooClass)).
  vm_compute. reflexivity.
Defined.

Lemma assemble_length doc h s o h' :
  assemble doc h s = Ok (o, h') ->
  length h <= length h'
  /\ forall c, o = Class c ->
       instanceProperties c = length h /\ length h < length h'.
Proof.
  unfold assemble. destruct (endsWith _ _); intros H.
  - bind_inv H as n En. injection H as <- <-.
    destruct (assembleNamespace_fields _ _ _ _ En) as (n' & -> & _).
    split; [lia|]. discriminate.
  - destruct (assembleClass_fields _ _ _ _ _ _ H)
      as (c & ip & -> & _ & _ & -> & Ha).
    rewrite length_app. cbn [length]. split; [lia|].
    intros c' E. injection E as <-. split; [exact Ha|lia].
Qed.

Lemma assembleAll_length doc l : forall h os h',
  assembleAll doc h l = Ok (os, h') -> length h <= length h'.
Proof.
  intros h os h' H. destruct (assembleAll_grows _ _ _ _ _ H) as (m & ->).
  rewrite length_app. lia.
Qed.

(** The classes assembled from the groups have their arrays at
    addresses of the store, each class at its own. *)
Lemma assembleAll_addresses doc l : forall h ds h',
  assembleAll doc h l = Ok (ds, h') ->
  (forall c, In (Class c) ds ->
             length h <= instanceProperties c < length h')
  /\ (forall a b, In (Class a) ds -> In (Class b) ds ->
                  instanceProperties a = instanceProperties b -> a = b).
Proof.
  induction l as [|s l IH]; intros h ds h' H.
  - injection H as <- <-. split; [intros c []|intros a b []].
  - cbn [assembleAll] in H. bind_inv H as p1 E1. destruct p1 as [o h1].
    bind_inv H as p2 E2. destruct p2 as [os h2]. injection H as <- <-.
    destruct (assemble_length _ _ _ _ _ E1) as [L1 A1].
    pose proof (assembleAll_length _ _ _ _ _ E2) as L2.
    destruct (IH _ _ _ E2) as [R U].
    assert (forall c, In (Class c) (o :: os) ->
                      (o = Class c /\ instanceProperties c = length h)
                      \/ (In (Class c) os
                          /\ length h1 <= instanceProperties c < length h2))
      as Hcase.
    { intros c [->|Hc].
      - left. split; [reflexivity|apply (A1 c eq_refl)].
      - right. split; [exact Hc|apply R, Hc]. }
    split.
    + intros c Hc. destruct (Hcase c Hc) as [[Ho Ha]|[_ Hr]]; [|lia].
      destruct (A1 c Ho). lia.
    + intros a b Ha Hb E.
      destruct (Hcase a Ha) as [[Hoa Haa]|[Hia Hra]],
               (Hcase b Hb) as [[Hob Hab]|[Hib Hrb]].
      * rewrite Hoa in Hob. injection Hob as ->. reflexivity.
      * destruct (A1 a Hoa). lia.
      * destruct (A1 b Hob). lia.
      * apply U; assumption.
Qed.

Lemma touched_class ctors others o c :
  touched ctors others o (Class c) ->
  exists c0, o = Class c0 /\ sameButGlobal (Class c0) (Class c).
Proof.
  intros [E|(S & _)].
  - exists c. split; [symmetry; exact E|apply sameButGlobal_refl].
  - destruct o as [|c0| |]; try contradiction. exists c0.
    split; [reflexivity|exact S].
Qed.

(** Where a class of the catalog comes from: an assembled class with the
    same array, which it is but for the global flag, unless that class
    is a template and it is named by the list of the template. *)
Lemma catalog_origin doc descriptors objects final c :
  flatMapM (expand doc) descriptors = Ok objects ->
  propagate doc objects = Ok final ->
  In (Class c) final ->
  exists d,
    In (Class d) descriptors
    /\ instanceProperties c = instanceProperties d
    /\ match templateNames doc (Class d) with
       | Some names => In (class_name c) names
       | None => sameButGlobal (Class d) (Class c)
       end.
Proof.
  intros Ex Ep Hc.
  destruct (propagate_Ok _ _ _ Ep)
    as (_ & _ & _ & ctors & others & kept & added & _ & _ & _ & _ & _ & _
        & -> & F & Hadded & _).
  apply in_app_or in Hc. destruct Hc as [Hc|Hc].
  2:{ rewrite Forall_forall in Hadded. apply Hadded in Hc. discriminate. }
  destruct (Forall2_In_r _ _ _ _ F Hc) as (o & Ho & Ht).
  destruct (touched_class _ _ _ _ Ht) as (c0 & -> & S).
  destruct (flatMapM_In _ _ _ _ Ex Ho) as (d & l & Hd & He & Hl).
  destruct (expand_In _ _ _ _ He Hl) as (c1 & rn & -> & Ei1 & _).
  exists c1. split; [exact Hd|].
  destruct S as (Sn & _ & _ & _ & _ & _ & Sa).
  split; [rewrite Sa; exact Ei1|].
  destruct (expand_Ok doc (Class c1)) as (l' & El & Hl').
  rewrite He in El. injection El as <-.
  destruct (templateNames doc (Class c1)) as [names|].
  - rewrite <- Hl', Sn. apply (in_map name _ _ Hl).
  - subst l. destruct Hl as [Hl|[]]. injection Hl as ->.
    destruct Ht as [E|(S' & _)].
    + injection E as <-. apply sameButGlobal_refl.
    + exact S'.
Qed.

Lemma templateNames_lists doc s names :
  templateNames doc s = Some names ->
  names = typedArrayTypes doc \/ names = errorTypes doc.
Proof.
  unfold templateNames. destruct s as [|c| |]; try discriminate.
  destruct (jstr_eqb _ _); [intros H; injection H as <-; left; reflexivity|].
  destruct (jstr_eqb _ _); [intros H; injection H as <-; right; reflexivity|].
  discriminate.
Qed.

(** X22. The arrays of instance properties in the finished catalog.
    Every class of the catalog points at an array of the store that is
    written out with it. Two classes point at the same array only when
    they are the same class but, maybe, for the global flag, or when
    both are made from one template, so that both are named by the list
    of the typed arrays or both by the list of the native errors. *)
Theorem catalog_arrays (doc : Document) (final : list JSGlobal) (h : heap)
    (c1 c2 : JSClass) :
  catalog doc = Ok (final, h) ->
  In (Class c1) final ->
  In (Class c2) final ->
  instanceProperties c1 < length h
  /\ (instanceProperties c1 = instanceProperties c2 ->
      sameButGlobal (Class c1) (Class c2)
      \/ exists names,
           (names = typedArrayTypes doc \/ names = errorTypes doc)
           /\ In (class_name c1) names
           /\ In (class_name c2) names).
Proof.
  intros Hcat H1 H2.
  unfold catalog in Hcat. bind_inv Hcat as p Eb. destruct p as [objects h0].
  bind_inv Hcat as final' Ep. injection Hcat as -> ->.
  unfold buildObjects in Eb. bind_inv Eb as groups Eg.
  bind_inv Eb as p Ea. destruct p as [descriptors h1].
  bind_inv Eb as objects' Ex. injection Eb as -> ->.
  destruct (assembleAll_addresses _ _ _ _ _ Ea) as [R U].
  destruct (catalog_origin _ _ _ _ _ Ex Ep H1) as (d1 & Hd1 & A1 & O1).
  destruct (catalog_origin _ _ _ _ _ Ex Ep H2) as (d2 & Hd2 & A2 & O2).
  split; [rewrite A1; apply R, Hd1|].
  intros E. assert (d1 = d2) as <-.
  { apply U; auto. rewrite <- A1, <- A2. exact E. }
  destruct (templateNames doc (Class d1)) as [names|] eqn:T.
  - right. exists names. split; [apply (templateNames_lists _ _ _ T)|].
    split; assumption.
  - left. destruct O1 as (N1 & K1 & S1 & M1 & P1 & I1 & X1).
    destruct O2 as (N2 & K2 & S2 & M2 & P2 & I2 & X2).
    cbn [sameButGlobal]. repeat split; congruence.
Qed.

Lemma catalog_arrays_witness :
  instanceProperties (typedArray "Int8Array" true) < length typedArrayStore
  /\ (instanceProperties (typedArray "Int8Array" true)
      = instanceProperties (typedArray "Uint8Array" false) ->
      sameButGlobal (Class (typedArray "Int8Array" true))
                    (Class (typedArray "Uint8Array" false))
      \/ exists names,
           (names = typedArrayTypes typedArrayDocument
            \/ names = errorTypes typedArrayDocument)
           /\ In (class_name (typedArray "Int8Array" true)) names
           /\ In (class_name (typedArray "Uint8Array" false)) names).
Proof.
  apply (catalog_arrays typedArrayDocument typedArrayCatalog).
  - vm_compute. reflexivity.
  - right. left. reflexivity.
  - right. right. left. reflexivity.
Defined.

(** ** Namespaces with marked subsections *)

Lemma forallb_exists_false {A} (f : A -> bool) l :
  (exists x, In x l /\ f x = false) -> forallb f l = false.
Proof.
  intros (x & Hx & Hf). destruct (forallb f l) eqn:E; [|reflexivity].
  rewrite forallb_forall in E. rewrite (E x Hx) in Hf. discriminate.
Qed.

Lemma length_zero_iff {A} (l : list A) : (length l =? 0) = true <-> l = [].
Proof. destruct l; cbn; split; intros H; try discriminate; reflexivity. Qed.

Lemma assembleNamespace_Ok doc ttl subs o :
  assembleNamespace doc ttl subs = Ok o ->
  forallb (fun p => negb (isCall p))
          (subsection (L "Value Properties of") subs) = true
  /\ forallb isCall (subsection (L "Function Properties of") subs) = true
  /\ exists n sources,
       o = Namespace n
       /\ (if (length (subsection (L "Value Properties of") subs) =? 0)
              && (length (subsection (L "Function Properties of") subs) =? 0)
           then
             props <- mapM getBareSection subs ;;;
             Ok (filter (fun p => negb (isCall p)) props,
                 filter isCall props)
           else Ok (subsection (L "Value Properties of") subs,
                    subsection (L "Function Properties of") subs))
          = Ok sources
       /\ mapM (makeProperty doc) (fst sources) = Ok (ns_staticProperties n)
       /\ mapM (makeMethod doc) (snd sources) = Ok (ns_staticMethods n).
Proof.
  unfold assembleNamespace. intros H.
  bind_inv H as vs Ev. bind_inv H as fs Ef.
  apply getSubsections_subsection in Ev, Ef. subst vs fs.
  bind_inv H as u1 E1. bind_inv H as u2 E2.
  bind_inv H as secs Es. destruct secs as [ps ms].
  bind_inv H as sp Esp. bind_inv H as sm Esm.
  injection H as <-.
  split; [destruct (forallb _ _); [reflexivity|discriminate]|].
  split; [destruct (forallb isCall _); [reflexivity|discriminate]|].
  eexists. exists (ps, ms). split; [reflexivity|]. split; [exact Es|].
  split; assumption.
Qed.

(** X23. A namespace with marked subsections. When the first child
    titled with "Value Properties of" or the first one titled with
    "Function Properties of" has children, the static properties of the
    namespace are made of the children of the former and its static
    methods of the children of the latter, in the order of the document;
    the other children of the group are not read. The script dies when
    a child of the value properties has a title that ends in a closing
    parenthesis, or a child of the function properties one that does
    not, whether or not these subsections are used in the end. When
    both are there without children, all the children of the group are
    split by their title, the two marked subsections among them. *)
Theorem assembleNamespace_marked (doc : Document) (ttl : jstr)
    (subs : list Section) :
  ((exists p, In p (subsection (L "Value Properties of") subs)
              /\ isCall p = true) ->
   assembleNamespace doc ttl subs = Fatal)
  /\ ((exists p, In p (subsection (L "Function Properties of") subs)
                 /\ isCall p = false) ->
      assembleNamespace doc ttl subs = Fatal)
  /\ (subsection (L "Value Properties of") subs <> []
      \/ subsection (L "Function Properties of") subs <> [] ->
      forall o, assembleNamespace doc ttl subs = Ok o ->
        exists n,
          o = Namespace n
          /\ mapM (makeProperty doc)
                  (subsection (L "Value Properties of") subs)
             = Ok (ns_staticProperties n)
          /\ mapM (makeMethod doc)
                  (subsection (L "Function Properties of") subs)
             = Ok (ns_staticMethods n))
  /\ (subsection (L "Value Properties of") subs = [] ->
      subsection (L "Function Properties of") subs = [] ->
      forall o, assembleNamespace doc ttl subs = Ok o ->
        exists n,
          o = Namespace n
          /\ mapM (makeProperty doc)
                  (filter (fun p => negb (isCall p)) subs)
             = Ok (ns_staticProperties n)
          /\ mapM (makeMethod doc) (filter isCall subs)
             = Ok (ns_staticMethods n)).
Proof.
  split; [|split; [|split]].
  - intros (p & Hp & Hc).
    destruct (assembleNamespace doc ttl subs) as [o|] eqn:E; [|reflexivity].
    destruct (assembleNamespace_Ok _ _ _ _ E) as (Hv & _).
    rewrite forallb_forall in Hv. specialize (Hv p Hp).
    rewrite Hc in Hv. discriminate.
  - intros Hex.
    destruct (assembleNamespace doc ttl subs) as [o|] eqn:E; [|reflexivity].
    destruct (assembleNamespace_Ok _ _ _ _ E) as (_ & Hf & _).
    rewrite (forallb_exists_false _ _ Hex) in Hf. discriminate.
  - intros Hne o E.
    destruct (assembleNamespace_Ok _ _ _ _ E)
      as (_ & _ & n & sources & -> & Es & Hp & Hm).
    exists n. split; [reflexivity|].
    destruct ((length _ =? 0) && (length _ =? 0)) eqn:Hz.
    + apply andb_true_iff in Hz. destruct Hz as [Z1 Z2].
      apply length_zero_iff in Z1, Z2. destruct Hne; contradiction.
    + injection Es as <-. split; assumption.
  - intros Zv Zf o E.
    destruct (assembleNamespace_Ok _ _ _ _ E)
      as (_ & _ & n & sources & -> & Es & Hp & Hm).
    exists n. split; [reflexivity|].
    rewrite Zv, Zf in Es. cbn [length Nat.eqb andb] in Es.
    bind_inv Es as props Eprops. injection Es as <-.
    destruct (mapM_getBareSection subs) as [Hs|Hs];
      rewrite Hs in Eprops; [|discriminate].
    injection Eprops as <-. split; assumption.
Qed.

(** ** The constructor and the instance properties of a class *)

(** X24. The constructor of a class is made of the first child, and of
    no other, of the first child of the group titled "The ...
    Constructor"; its title must end in a closing parenthesis and be a
    signature, or the script dies. A group without such a child, or
    whose "The ... Constructor" child has no children, gives a class
    without a constructor. The children of "Properties of ... Instances"
    all become instance properties, in the order of the document, and
    none of their titles ends in a closing parenthesis. *)
Theorem assembleClass_constructor (doc : Document) (h h' : heap)
    (ttl : jstr) (subs : list Section) (c : JSClass) :
  assembleClass doc h ttl subs = Ok (Class c, h') ->
  match find (fun k => test (L "The " ;; Star dot ;; L " Constructor")
                            (title k)) subs with
  | Some k =>
      match children k with
      | first :: _ =>
          isCall first = true
          /\ exists nm ps,
               parseParameters (title first) = Ok (nm, ps)
               /\ class_constructor c
                  = Some {| ctor_name := nm; ctor_parameters := ps |}
      | [] => class_constructor c = None
      end
  | None => class_constructor c = None
  end
  /\ Forall (fun p => isCall p = false)
            (subsection (L "Properties of " ;; Star dot ;; L " Instances")
                        subs)
  /\ mapM (makeProperty doc)
          (subsection (L "Properties of " ;; Star dot ;; L " Instances") subs)
     = Ok (deref h' (instanceProperties c)).
Proof.
  intros H. unfold assembleClass in H.
  bind_inv H as ctorSecs Ec. bind_inv H as instSecs Ei.
  bind_inv H as protoSecs Ep.
  bind_inv H as u1 E1. bind_inv H as u2 E2.
  bind_inv H as sp Esp. bind_inv H as sm Esm.
  bind_inv H as pp Epp. bind_inv H as im Eim.
  bind_inv H as ip Eip. bind_inv H as ctor Ector.
  cbn [alloc] in H. injection H as <- <-.
  apply getSubsections_subsection in Ei. subst instSecs.
  cbn [class_constructor instanceProperties].
  split; [|split].
  - destruct (find _ subs) as [k|];
      [|injection Ector as <-; reflexivity].
    destruct (children k) as [|first more]; cbn [nth_error] in *;
      [injection Ector as <-; reflexivity|].
    cbn [makeConstructor] in Ector. bind_inv Ector as p Epar.
    destruct p as [nm ps]. injection Ector as <-.
    split; [destruct (isCall first); [reflexivity|discriminate]|].
    exists nm, ps. split; [exact Epar|reflexivity].
  - apply Forall_forall. intros p Hp.
    destruct (forallb _ _) eqn:F in E2; [|discriminate].
    rewrite forallb_forall in F. specialize (F p Hp).
    destruct (isCall p); [discriminate|reflexivity].
  - unfold deref. rewrite nth_middle. exact Eip.
Qed.

Lemma assembleClass_constructor_witness :
  match find (fun k => test (L "The " ;; Star dot ;; L " Constructor")
                            (title k))
             [ clause "The Foo Constructor"
                 [ leaf "Foo ( value )" "sec-foo-value";
                   leaf "Bar" "sec-bar" ];
               clause "Properties of Foo Instances"
                 [ leaf "length" "sec-foo-length" ] ] with
  | Some k =>
      match children k with
      | first :: _ =>
          isCall first = true
          /\ exists nm ps,
               parseParameters (title first) = Ok (nm, ps)
               /\ class_constructor
                    (mkClass (str "Foo") false
                       (Some (mkConstructor (str "Foo()")
                                            (mkParameters 1 0 false)))
                       [] [] [] [] 0)
                  = Some {| ctor_name := nm; ctor_parameters := ps |}
      | [] => class_constructor
                (mkClass (str "Foo") false
                   (Some (mkConstructor (str "Foo()")
                                        (mkParameters 1 0 false)))
                   [] [] [] [] 0) = None
      end
  | None => class_constructor
              (mkClass (str "Foo") false
                 (Some (mkConstructor (str "Foo()")
                                      (mkParameters 1 0 false)))
                 [] [] [] [] 0) = None
  end
  /\ Forall (fun p => isCall p = false)
            (subsection (L "Properties of " ;; Star dot ;; L " Instances")
               [ clause "The Foo Constructor"
                   [ leaf "Foo ( value )" "sec-foo-value";
                     leaf "Bar" "sec-bar" ];
                 clause "Properties of Foo Instances"
                   [ leaf "length" "sec-foo-length" ] ])
  /\ mapM (makeProperty (page []))
          (subsection (L "Properties of " ;; Star dot ;; L " Instances")
             [ clause "The Foo Constructor"
                 [ leaf "Foo ( value )" "sec-foo-value";
                   leaf "Bar" "sec-bar" ];
               clause "Properties of Foo Instances"
                 [ leaf "length" "sec-foo-length" ] ])
     = Ok (deref [[mkProperty DataProperty (str "length") (str "wc")]]
                 (instanceProperties
                    (mkClass (str "Foo") false
                       (Some (mkConstructor (str "Foo()")
                                            (mkParameters 1 0 false)))
                       [] [] [] [] 0))).
Proof.
  apply (assembleClass_constructor (page []) emptyStore
           [[mkProperty DataProperty (str "length") (str "wc")]]
           (str "Foo Objects")).
  vm_compute. reflexivity.
Defined.

(** ** The concrete names *)

(** X25. The concrete names of the typed arrays and of the native
    errors are the texts of the [dfn] elements with every percent sign
    taken out and nothing else changed: a name has no percent sign, a
    text without one is its own name, and an intrinsic written between
    percent signs is named by what stands between them. *)
Theorem dfnName_drops_percent (t : jstr) :
  dfnName t = filter (fun a => negb (isPercent a)) t
  /\ Forall (fun a => isPercent a = false) (dfnName t)
  /\ (Forall (fun a => isPercent a = false) t -> dfnName t = t)
  /\ dfnName (str "%" ++ t ++ str "%") = dfnName t.
Proof.
  assert (forall s b, gsub (L "%") (fun _ => []) 0 b s
                      = filter (fun a => negb (isPercent a)) s) as H.
  { induction s as [|a s IH]; intros b; [reflexivity|].
    rewrite gsub_cons. unfold L. rewrite match_at_Lit.
    cbn [str list_ascii_of_string startsWith filter]. unfold isPercent at 1.
    rewrite Ascii.eqb_sym. rewrite andb_true_r.
    destruct (Ascii.eqb a "%") eqn:E; cbn [negb].
    - cbn [ahead length skipn].
      replace (S (length s) - length s) with 1 by lia.
      cbn [app]. apply IH.
    - f_equal. apply IH. }
  assert (forall s, dfnName s = filter (fun a => negb (isPercent a)) s) as D.
  { intros s. apply H. }
  split; [apply D|]. split; [|split].
  - rewrite D. apply Forall_forall. intros a Ha.
    apply filter_In in Ha. destruct Ha as [_ Ha].
    destruct (isPercent a); [discriminate|reflexivity].
  - intros Hn. rewrite D. induction Hn as [|a s Ha Hs IH]; [reflexivity|].
    cbn [filter]. rewrite Ha. cbn [negb]. f_equal. exact IH.
  - rewrite !D. cbn [str list_ascii_of_string app filter].
    change (isPercent "%") with true. cbn [negb].
    rewrite filter_app. cbn [filter].
    change (isPercent "%") with true. cbn [negb]. apply app_nil_r.
Qed.

(** ** The properties of the global object *)

(** X26. A child of "Value Properties of the Global Object" becomes a
    global property under its title as it stands, spaces included, with
    the attributes [getAttributes] returns: no default takes the place
    of a missing attributes sentence, so the attributes are null when no
    paragraph of the section holds the marker phrase. The script dies
    exactly when the section is not bare or [getAttributes] dies. *)
Theorem globalProperty_keeps_title_and_null (doc : Document) (s : Section) :
  (globalProperty doc s = Fatal <->
   getBareSection s = Fatal \/ getAttributes doc s = Fatal)
  /\ (forall o, globalProperty doc s = Ok o ->
        exists a,
          getAttributes doc s = Ok a
          /\ o = GlobalProperty {| gp_name := title s;
                                   gp_attributes := a |})
  /\ (forall i, id s = Some i -> attributeParagraphs doc i = Ok [] ->
                getBareSection s = Ok s ->
                globalProperty doc s
                = Ok (GlobalProperty {| gp_name := title s;
                                        gp_attributes := None |})).
Proof.
  unfold globalProperty.
  destruct (getBareSection s) as [s'|] eqn:Eb.
  2:{ split; [|split].
      - split; [left; reflexivity|reflexivity].
      - discriminate.
      - discriminate. }
  apply getBareSection_id in Eb. subst s'. cbn [bind].
  split; [|split].
  - destruct (getAttributes doc s); cbn [bind]; split.
    + discriminate.
    + intros [H|H]; discriminate.
    + right. reflexivity.
    + reflexivity.
  - intros o H. bind_inv H as a Ea. injection H as <-.
    exists a. split; [exact Ea|reflexivity].
  - intros i Hi Hp _. unfold getAttributes. rewrite Hi. cbn [defined bind].
    rewrite Hp. reflexivity.
Qed.
